(** * Conversation consolidation of the creator dashboard

    A shallow embedding of [fetchCreatorChats] (src/lib/chatService.ts) and
    the properties of its grouping, batching and projection steps.

    Modelling conventions.
    - Row ids are [string]s.  The timestamp columns are [timestamptz], so
      every non-null value parses.  A column of [conversations] is carried
      as the millisecond value that [new Date(s)] yields for it (a [Z]).
      The [created_at] of a message is carried at the resolution of the
      store, in microseconds, and [new_Date] is the millisecond value the
      code compares.
    - A JavaScript [Map] whose iteration order is observed
      ([analystConversations], [allConversationsByAnalyst]) is an association
      list in insertion order ([JsMap]); a [Map] that is only looked up is a
      [gmap].
    - The Supabase client is a state monad over the log of bulk operations
      it issued; an operation either answers with rows or with an error. *)

From Stdlib Require Import ZArith Sorting.Sorted.
From stdpp Require Import gmap strings list fin_maps sorting pretty.

Local Open Scope Z_scope.
Local Open Scope nat_scope.
Local Open Scope string_scope.
Local Open Scope list_scope.

(** ** Rows and view objects *)

Definition Timestamp : Type := Z.

(** A [timestamptz] value as the store holds and returns it: microseconds
    since the epoch. *)
Definition Instant : Type := Z.

(** [new Date(s)] on such a value: the time value, in milliseconds; the
    digits below the millisecond are dropped. *)
Definition new_Date (t : Instant) : Timestamp := (t / 1000)%Z.

(** A row of [conversations], with the columns selected at lines 75-84. *)
Record Conversation : Type := {
  conv_id : string;
  conv_analyst_id : string;
  conv_creator_id : string;
  conv_opportunity_id : option string;
  conv_created_at : Timestamp;
  conv_last_message_at : option Timestamp;
  conv_custom_title : option string;
  conv_tags : option (list string) }.

Record AnalystData : Type := {
  an_id : string;
  an_name : string;
  an_email : string;
  an_avatar_url : option string }.

Record ProfileData : Type := {
  pr_id : string;
  pr_full_name : string;
  pr_email : string;
  pr_avatar_url : option string }.

(** A row of [opportunity_applications]; [ApplicationData] is its projection
    on the selected columns. *)
Record ApplicationRow : Type := {
  row_id : string;
  row_opportunity_id : string;
  row_creator_id : string;
  row_status : string;
  row_applied_at : Timestamp }.

Record ApplicationData : Type := {
  app_id : string;
  app_opportunity_id : string;
  app_status : string;
  app_applied_at : Timestamp }.

Record OpportunityData : Type := {
  op_id : string;
  op_title : string;
  op_company : string;
  op_analyst_id : string;
  op_created_by : string }.

(** A row of [messages]. *)
Record Message : Type := {
  msg_id : string;
  msg_conversation_id : string;
  msg_content : string;
  msg_sender_type : string;
  msg_sender_id : string;
  msg_read : bool;
  msg_created_at : Instant }.

Record UnreadMessageData : Type := {
  um_conversation_id : string }.

Record MessageData : Type := {
  md_conversation_id : string;
  md_content : string;
  md_sender_type : string;
  md_created_at : Instant }.

(** The value stored in [analystsMap]. *)
Record Identity : Type := {
  ident_name : string;
  ident_email : string;
  ident_avatar_url : option string }.

(** The object stored per analyst in [analystConversations] (lines 102-112).
    Its [projects] array is initialised empty and never read or written
    again, so it is left out. *)
Record UnifiedConversation : Type := {
  uc_id : string;
  uc_analyst_id : string;
  uc_creator_id : string;
  uc_created_at : Timestamp;
  uc_last_message_at : option Timestamp;
  uc_unread_count : nat;
  uc_custom_title : option string;
  uc_tags : option (list string) }.

(** An element of [formattedProjects] (lines 244-252). *)
Record Project : Type := {
  pj_id : string;
  pj_opportunity_id : string;
  pj_title : string;
  pj_company : string;
  pj_status : string;
  pj_analyst_id : string;
  pj_created_by : string }.

Record ChatOpportunity : Type := {
  co_id : string;
  co_title : string;
  co_company : string;
  co_status : string;
  co_analyst_id : string;
  co_created_by : string }.

Record ChatAnalyst : Type := {
  ca_name : string;
  ca_company : string;
  ca_avatar_url : option string }.

Record LastMessage : Type := {
  lm_content : string;
  lm_sender_type : string;
  lm_created_at : Instant }.

(** [ProjectChat], lines 3-29. *)
Record ProjectChat : Type := {
  project_id : string;
  opportunity_id : string;
  opportunity : option ChatOpportunity;
  analyst : option ChatAnalyst;
  conversation_id : option string;
  last_message_at : option Timestamp;
  lastMessage : option LastMessage;
  unread_count : nat;
  custom_title : option string;
  tags : list string }.

(** ** Insertion-ordered maps and sets *)

Module JsMap.

Definition t (V : Type) : Type := list (string * V).

Fixpoint get {V} (k : string) (m : t V) : option V :=
  match m with
  | [] => None
  | (k', v) :: m' => if decide (k = k') then Some v else get k m'
  end.

Definition has {V} (k : string) (m : t V) : bool :=
  match get k m with Some _ => true | None => false end.

(** [set] keeps the position of a key that is already present and appends a
    new one. *)
Fixpoint set {V} (k : string) (v : V) (m : t V) : t V :=
  match m with
  | [] => [(k, v)]
  | (k', v') :: m' =>
      if decide (k = k') then (k, v) :: m' else (k', v') :: set k v m'
  end.

Definition keys {V} (m : t V) : list string := map fst m.

Definition values {V} (m : t V) : list V := map snd m.

End JsMap.

(** A [Set<string>] is the list of its elements in insertion order. *)
Module JsSet.

Definition add (k : string) (s : list string) : list string :=
  if bool_decide (k ∈ s) then s else s ++ [k].

End JsSet.

(** ** The bulk data store and the client *)

(** A bulk operation as the client issues it, with its filter arguments. *)
Inductive Call : Type :=
| SelectConversations (creator_id : string)
| SelectAnalysts (ids : list string)
| SelectProfiles (ids : list string)
| SelectApplications (creator_id : string)
| SelectOpportunities (ids : list string)
| SelectUnreadMessages (conversation_ids : list string) (user : string)
| RpcGetLatestMessages (conversation_ids : list string).

Inductive PostgrestError : Type :=
| StoreUnavailable.

(** The [{ data, error }] pair every operation resolves to. *)
Record Response (A : Type) : Type := {
  data : option A;
  error : option PostgrestError }.

Arguments data {A} _.
Arguments error {A} _.

(** The store: its tables, each listed in the order the backend returns its
    rows, and the operations that fail at the transport level. *)
Record Store : Type := {
  conversations : list Conversation;
  analysts : list AnalystData;
  profiles : list ProfileData;
  opportunity_applications : list ApplicationRow;
  opportunities : list OpportunityData;
  messages : list Message;
  unavailable : Call -> bool }.

(** The client: a state monad over the log of issued operations. *)
Definition Client (A : Type) : Type := list Call -> A * list Call.

Definition ret {A} (a : A) : Client A := fun log => (a, log).

Definition bind {A B} (c : Client A) (k : A -> Client B) : Client B :=
  fun log => let '(a, log') := c log in k a log'.

Notation "'await' x ':=' c 'in' k" := (bind c (fun x => k))
  (at level 10, x name, c at level 100, k at level 200).

(** One round trip: the operation is logged, and answers with an error when
    the store is unavailable for it and with [rows] otherwise. *)
Definition request {A} (supabase : Store) (c : Call) (rows : list A)
  : Client (Response (list A)) :=
  fun log =>
    (if unavailable supabase c
     then {| data := None; error := Some StoreUnavailable |}
     else {| data := Some rows; error := None |},
     log ++ [c]).

(** [x || []] on a nullable array. *)
Definition or_empty {A} (x : option (list A)) : list A := default [] x.

Definition application_data (r : ApplicationRow) : ApplicationData :=
  {| app_id := row_id r; app_opportunity_id := row_opportunity_id r;
     app_status := row_status r; app_applied_at := row_applied_at r |}.

Definition unread_data (m : Message) : UnreadMessageData :=
  {| um_conversation_id := msg_conversation_id m |}.

Definition message_data (m : Message) : MessageData :=
  {| md_conversation_id := msg_conversation_id m; md_content := msg_content m;
     md_sender_type := msg_sender_type m; md_created_at := msg_created_at m |}.

(** Lines 73-86: [.eq('creator_id', userId)].  The sort requested at line 86
    is the backend's: [conversations] lists the rows in the order in which
    the backend returns them, and a property that depends on that order
    states it as [most_recent_first]. *)
Definition select_conversations (supabase : Store) (userId : string)
  : Client (Response (list Conversation)) :=
  request supabase (SelectConversations userId)
    (filter (λ c, conv_creator_id c = userId) (conversations supabase)).

(** Lines 138-142. *)
Definition select_analysts (supabase : Store) (ids : list string)
  : Client (Response (list AnalystData)) :=
  request supabase (SelectAnalysts ids)
    (filter (λ a, an_id a ∈ ids) (analysts supabase)).

(** Lines 144-148. *)
Definition select_profiles (supabase : Store) (ids : list string)
  : Client (Response (list ProfileData)) :=
  request supabase (SelectProfiles ids)
    (filter (λ p, pr_id p ∈ ids) (profiles supabase)).

(** Lines 166-171. *)
Definition select_applications (supabase : Store) (userId : string)
  : Client (Response (list ApplicationData)) :=
  request supabase (SelectApplications userId)
    (application_data <$>
       filter (λ r, row_creator_id r = userId ∧ row_status r = "approved")
         (opportunity_applications supabase)).

(** Lines 178-182. *)
Definition select_opportunities (supabase : Store) (ids : list string)
  : Client (Response (list OpportunityData)) :=
  request supabase (SelectOpportunities ids)
    (filter (λ o, op_id o ∈ ids) (opportunities supabase)).

(** The rows the unread filter of lines 196-202 keeps. *)
Definition is_unread_for (userId : string) (m : Message) : Prop :=
  msg_read m = false ∧ msg_sender_id m ≠ userId.

#[global] Instance is_unread_for_dec userId m : Decision (is_unread_for userId m).
Proof. unfold is_unread_for. apply _. Defined.

Definition select_unread_messages (supabase : Store)
  (ids : list string) (userId : string)
  : Client (Response (list UnreadMessageData)) :=
  request supabase (SelectUnreadMessages ids userId)
    (unread_data <$>
       filter (λ m, msg_conversation_id m ∈ ids ∧ is_unread_for userId m)
         (messages supabase)).

(** The first message with the greatest [created_at] of a list. *)
Definition newest (ms : list Message) : option Message :=
  fold_left
    (λ best m,
       match best with
       | None => Some m
       | Some b => if (msg_created_at b <? msg_created_at m)%Z
                   then Some m else Some b
       end)
    ms None.

(** Modelled from the spec: the stored procedure [get_latest_messages], whose
    body is not part of the sources.  Section 4.5 gives its contract: one row
    per requested thread id that has messages, holding the most recent
    message of that thread. *)
Definition get_latest_messages (ms : list Message)
  (conversation_ids : list string) : list MessageData :=
  omap
    (λ cid, message_data <$> newest (filter (λ m, msg_conversation_id m = cid) ms))
    (remove_dups conversation_ids).

(** Lines 217-219. *)
Definition rpc_get_latest_messages (supabase : Store) (ids : list string)
  : Client (Response (list MessageData)) :=
  request supabase (RpcGetLatestMessages ids)
    (get_latest_messages (messages supabase) ids).

(** ** Step 2: grouping by analyst (lines 93-129) *)

Record Grouping : Type := {
  analystConversations : JsMap.t UnifiedConversation;
  allConversationsByAnalyst : JsMap.t (list string);
  allAnalystIds : list string }.

Definition no_groups : Grouping :=
  {| analystConversations := []; allConversationsByAnalyst := [];
     allAnalystIds := [] |}.

(** Lines 102-112: the object seeded at the first sighting of an analyst. *)
Definition seed (conv : Conversation) : UnifiedConversation :=
  {| uc_id := conv_id conv; uc_analyst_id := conv_analyst_id conv;
     uc_creator_id := conv_creator_id conv;
     uc_created_at := conv_created_at conv;
     uc_last_message_at := conv_last_message_at conv;
     uc_unread_count := 0;
     uc_custom_title := conv_custom_title conv; uc_tags := conv_tags conv |}.

(** Lines 117-119: [currentDate && (!existingDate || currentDate > existingDate)]. *)
Definition more_recent (current existing : option Timestamp) : bool :=
  match current, existing with
  | None, _ => false
  | Some _, None => true
  | Some c, Some e => (e <? c)%Z
  end.

(** Lines 120-123: the four fields overwritten in place. *)
Definition replace_canonical (existing : UnifiedConversation)
  (conv : Conversation) : UnifiedConversation :=
  {| uc_id := conv_id conv; uc_analyst_id := uc_analyst_id existing;
     uc_creator_id := uc_creator_id existing;
     uc_created_at := uc_created_at existing;
     uc_last_message_at := conv_last_message_at conv;
     uc_unread_count := uc_unread_count existing;
     uc_custom_title := conv_custom_title conv; uc_tags := conv_tags conv |}.

(** One iteration of the loop of lines 98-129.  [existing] is an alias of the
    object held by the map, so its update is a [set] at the same key.  After
    [has] the [get] of line 116 succeeds, and both maps are seeded together,
    so the list pushed to at line 128 exists ([group_step_lists] below):
    neither [None] branch is ever taken. *)
Definition group_step (st : Grouping) (conv : Conversation) : Grouping :=
  let k := conv_analyst_id conv in
  let ids := JsSet.add k (allAnalystIds st) in
  let '(acs, lists) :=
    if negb (JsMap.has k (analystConversations st)) then
      (JsMap.set k (seed conv) (analystConversations st),
       JsMap.set k [] (allConversationsByAnalyst st))
    else
      match JsMap.get k (analystConversations st) with
      | Some existing =>
          (if more_recent (conv_last_message_at conv)
                (uc_last_message_at existing)
           then JsMap.set k (replace_canonical existing conv)
                  (analystConversations st)
           else analystConversations st,
           allConversationsByAnalyst st)
      | None => (analystConversations st, allConversationsByAnalyst st)
      end in
  {| analystConversations := acs;
     allConversationsByAnalyst :=
       match JsMap.get k lists with
       | Some l => JsMap.set k (l ++ [conv_id conv]) lists
       | None => lists
       end;
     allAnalystIds := ids |}.

Definition group_conversations (conversationData : list Conversation) : Grouping :=
  fold_left group_step conversationData no_groups.

(** ** Step 3: batch fetches (lines 131-230) *)

Definition sentinel : Identity :=
  {| ident_name := "Analista"; ident_email := ""; ident_avatar_url := None |}.

Definition identity_of_analyst (a : AnalystData) : Identity :=
  {| ident_name := an_name a; ident_email := an_email a;
     ident_avatar_url := an_avatar_url a |}.

Definition identity_of_profile (p : ProfileData) : Identity :=
  {| ident_name := pr_full_name p; ident_email := pr_email p;
     ident_avatar_url := pr_avatar_url p |}.

(** [rows?.find(r => key(r) === id)] on a nullable array. *)
Definition find_by_id {A} (key : A -> string) (id : string)
  (rows : option (list A)) : option A :=
  rows ≫= List.find (λ r, bool_decide (key r = id)).

(** Lines 151-161: the body of [analystIdsArray.forEach]. *)
Definition resolve_identity (analysts : option (list AnalystData))
  (profiles : option (list ProfileData)) (id : string) : Identity :=
  match find_by_id an_id id analysts with
  | Some analyst => identity_of_analyst analyst
  | None =>
      match find_by_id pr_id id profiles with
      | Some profile => identity_of_profile profile
      | None => sentinel
      end
  end.

(** Lines 134-163. *)
Definition fetch_analystsMap (supabase : Store) (analystIdsArray : list string)
  : Client (gmap string Identity) :=
  if bool_decide (0 < length analystIdsArray) then
    await ra := select_analysts supabase analystIdsArray in
    await rp := select_profiles supabase analystIdsArray in
    ret (fold_left
           (λ (m : gmap string Identity) id,
              <[id := resolve_identity (data ra) (data rp) id]> m)
           analystIdsArray ∅)
  else ret ∅.

(** Lines 174-187. *)
Definition fetch_opportunitiesMap (supabase : Store)
  (opportunityIds : list string) : Client (gmap string OpportunityData) :=
  if bool_decide (0 < length opportunityIds) then
    await r := select_opportunities supabase opportunityIds in
    ret (fold_left
           (λ (m : gmap string OpportunityData) op, <[op_id op := op]> m)
           (or_empty (data r)) ∅)
  else ret ∅.

(** Lines 204-207: [const count = map.get(id) || 0; map.set(id, count + 1)]. *)
Definition tally (m : gmap string nat) (msg : UnreadMessageData)
  : gmap string nat :=
  <[um_conversation_id msg := default 0 (m !! um_conversation_id msg) + 1]> m.

(** Lines 190-208. *)
Definition fetch_unreadCountsMap (supabase : Store) (allConvIds : list string)
  (userId : string) : Client (gmap string nat) :=
  if bool_decide (0 < length allConvIds) then
    await r := select_unread_messages supabase allConvIds userId in
    ret (fold_left tally (or_empty (data r)) ∅)
  else ret ∅.

(** Lines 211-230: the rows are used only when the call reports no error and
    yields an array; an error is logged to the console and otherwise
    ignored. *)
Definition fetch_latestMessagesMap (supabase : Store)
  (allConversationIds : list string) : Client (gmap string MessageData) :=
  if bool_decide (0 < length allConversationIds) then
    await r := rpc_get_latest_messages supabase allConversationIds in
    match error r, data r with
    | None, Some latestMessages =>
        ret (fold_left
               (λ (m : gmap string MessageData) msg,
                  <[md_conversation_id msg := msg]> m)
               latestMessages ∅)
    | _, _ => ret ∅
    end
  else ret ∅.

(** ** Step 4: projection per analyst (lines 232-317) *)

(** Lines 239-254: the callback of [applications.map], with [None] for the
    [null] that [.filter(Boolean)] removes. *)
Definition format_project (opportunitiesMap : gmap string OpportunityData)
  (conv : UnifiedConversation) (app : ApplicationData) : option Project :=
  match opportunitiesMap !! app_opportunity_id app with
  | Some opportunity =>
      if bool_decide (op_analyst_id opportunity = uc_analyst_id conv) then
        Some {| pj_id := app_id app;
                pj_opportunity_id := app_opportunity_id app;
                pj_title := op_title opportunity;
                pj_company := op_company opportunity;
                pj_status := "active";
                pj_analyst_id := op_analyst_id opportunity;
                pj_created_by := op_analyst_id opportunity |}
      else None
  | None => None
  end.

(** Lines 264-277: one iteration over [conversationIds]; the state is the
    pair [(lastMessage, lastMessageDate)]. *)
Definition pick_latest (latestMessagesMap : gmap string MessageData)
  (acc : option LastMessage * option Timestamp) (convId : string)
  : option LastMessage * option Timestamp :=
  match latestMessagesMap !! convId with
  | Some msg =>
      let msgDate := new_Date (md_created_at msg) in
      if match acc.2 with
         | None => true
         | Some lastMessageDate => (lastMessageDate <? msgDate)%Z
         end
      then (Some {| lm_content := md_content msg;
                    lm_sender_type := md_sender_type msg;
                    lm_created_at := md_created_at msg |},
            Some msgDate)
      else acc
  | None => acc
  end.

Definition group_lastMessage (latestMessagesMap : gmap string MessageData)
  (conversationIds : list string) : option LastMessage :=
  (fold_left (pick_latest latestMessagesMap) conversationIds (None, None)).1.

(** Lines 280-283. *)
Definition group_unreadCount (unreadCountsMap : gmap string nat)
  (conversationIds : list string) : nat :=
  fold_left (λ unreadCount id, unreadCount + default 0 (unreadCountsMap !! id))
    conversationIds 0.

(** [s || null] on a nullable string: the empty string is falsy. *)
Definition or_null (s : option string) : option string :=
  match s with
  | Some "" => None
  | _ => s
  end.

(** Lines 289-311. *)
Definition to_chat (conv : UnifiedConversation) (analystInfo : Identity)
  (lastMessage : option LastMessage) (unreadCount : nat) (project : Project)
  : ProjectChat :=
  {| project_id := pj_id project;
     opportunity_id := pj_opportunity_id project;
     opportunity :=
       Some {| co_id := pj_opportunity_id project;
               co_title := pj_title project;
               co_company := pj_company project;
               co_status := "active";
               co_analyst_id := pj_analyst_id project;
               co_created_by := pj_created_by project |};
     analyst :=
       Some {| ca_name := ident_name analystInfo;
               ca_company := pj_company project;
               ca_avatar_url := ident_avatar_url analystInfo |};
     conversation_id := Some (uc_id conv);
     last_message_at := uc_last_message_at conv;
     lastMessage := lastMessage;
     unread_count := unreadCount;
     custom_title := or_null (uc_custom_title conv);
     tags := or_empty (uc_tags conv) |}.

(** Lines 234-313: the callback applied to each value of
    [analystConversations]. *)
Definition process_analyst (analystsMap : gmap string Identity)
  (applications : option (list ApplicationData))
  (opportunitiesMap : gmap string OpportunityData)
  (allConversationsByAnalyst : JsMap.t (list string))
  (unreadCountsMap : gmap string nat)
  (latestMessagesMap : gmap string MessageData)
  (conv : UnifiedConversation) : list ProjectChat :=
  let analystInfo := default sentinel (analystsMap !! uc_analyst_id conv) in
  let formattedProjects :=
    omap (format_project opportunitiesMap conv) (or_empty applications) in
  let conversationIds :=
    or_empty (JsMap.get (uc_analyst_id conv) allConversationsByAnalyst) in
  let lastMessage := group_lastMessage latestMessagesMap conversationIds in
  let unreadCount := group_unreadCount unreadCountsMap conversationIds in
  to_chat conv analystInfo lastMessage unreadCount <$> formattedProjects.

(** ** The aggregation (lines 71-318) *)

Definition fetchCreatorChats (supabase : Store) (userId : string)
  : Client (list ProjectChat) :=
  await r := select_conversations supabase userId in
  match error r with
  | Some convError => ret []
  | None =>
      let g := group_conversations (or_empty (data r)) in
      let analystIdsArray := allAnalystIds g in
      await analystsMap := fetch_analystsMap supabase analystIdsArray in
      await ra := select_applications supabase userId in
      let applications := data ra in
      let opportunityIds := app_opportunity_id <$> or_empty applications in
      await opportunitiesMap := fetch_opportunitiesMap supabase opportunityIds in
      let allConvIds := concat (JsMap.values (allConversationsByAnalyst g)) in
      await unreadCountsMap := fetch_unreadCountsMap supabase allConvIds userId in
      let allConversationIds :=
        concat (JsMap.values (allConversationsByAnalyst g)) in
      await latestMessagesMap :=
        fetch_latestMessagesMap supabase allConversationIds in
      ret (concat
             (process_analyst analystsMap applications opportunitiesMap
                (allConversationsByAnalyst g) unreadCountsMap latestMessagesMap
              <$> JsMap.values (analystConversations g)))
  end.

(** What the caller of the asynchronous function observes. *)
Inductive Settled (A : Type) : Type :=
| Fulfilled (value : A)
| Rejected (reason : PostgrestError).

Arguments Fulfilled {A} _.
Arguments Rejected {A} _.

(** [fetchCreatorChats] has no [throw] and reads every error from the
    [{ data, error }] pair, so its promise always fulfils.  The pair is the
    settled value and the operations issued from a fresh client. *)
Definition listConsolidatedThreads (supabase : Store) (userId : string)
  : Settled (list ProjectChat) * list Call :=
  let '(chats, log) := fetchCreatorChats supabase userId [] in
  (Fulfilled chats, log).

(** ** The values of one run

    The value and the operations of a client computation started on an empty
    log, and the local variables of [fetchCreatorChats] as functions of the
    store and the actor. *)

Definition value {A} (c : Client A) : A := (c []).1.

Definition calls {A} (c : Client A) : list Call := (c []).2.

(** A computation only appends to the log, and its value does not depend on
    the log it starts from. *)
Definition framed {A} (c : Client A) : Prop :=
  ∀ log, c log = (value c, log ++ calls c).

Definition conversationData (supabase : Store) (userId : string)
  : list Conversation :=
  or_empty (data (value (select_conversations supabase userId))).

Definition grouping (supabase : Store) (userId : string) : Grouping :=
  group_conversations (conversationData supabase userId).

Definition analystsMap (supabase : Store) (userId : string)
  : gmap string Identity :=
  value (fetch_analystsMap supabase (allAnalystIds (grouping supabase userId))).

Definition applications (supabase : Store) (userId : string)
  : option (list ApplicationData) :=
  data (value (select_applications supabase userId)).

Definition opportunityIds (supabase : Store) (userId : string) : list string :=
  app_opportunity_id <$> or_empty (applications supabase userId).

Definition opportunitiesMap (supabase : Store) (userId : string)
  : gmap string OpportunityData :=
  value (fetch_opportunitiesMap supabase (opportunityIds supabase userId)).

Definition allConvIds (supabase : Store) (userId : string) : list string :=
  concat (JsMap.values (allConversationsByAnalyst (grouping supabase userId))).

Definition unreadCountsMap (supabase : Store) (userId : string)
  : gmap string nat :=
  value (fetch_unreadCountsMap supabase (allConvIds supabase userId) userId).

Definition latestMessagesMap (supabase : Store) (userId : string)
  : gmap string MessageData :=
  value (fetch_latestMessagesMap supabase (allConvIds supabase userId)).

Definition unifiedConversations (supabase : Store) (userId : string)
  : list (list ProjectChat) :=
  process_analyst (analystsMap supabase userId) (applications supabase userId)
    (opportunitiesMap supabase userId)
    (allConversationsByAnalyst (grouping supabase userId))
    (unreadCountsMap supabase userId) (latestMessagesMap supabase userId)
  <$> JsMap.values (analystConversations (grouping supabase userId)).

(** ** Vocabulary of the properties *)

(** [a] is not more recent than [b]; a null timestamp is the oldest. *)
Definition older_or_same (a b : option Timestamp) : Prop :=
  match a, b with
  | None, _ => True
  | Some _, None => False
  | Some x, Some y => (x <= y)%Z
  end.

(** The counterpart a consolidated thread belongs to. *)
Definition chat_counterpart (chat : ProjectChat) : string :=
  default "" (co_analyst_id <$> opportunity chat).

(** The raw threads of one counterpart, in the order the store returned them,
    and their ids. *)
Definition threads_of (k : string) (convs : list Conversation)
  : list Conversation :=
  filter (λ c, conv_analyst_id c = k) convs.

Definition thread_ids_of (k : string) (convs : list Conversation) : list string :=
  conv_id <$> threads_of k convs.

(** [c] is at position [i] of [group], no thread of the group is more recent
    and none before position [i] is as recent. *)
Definition first_most_recent (group : list Conversation) (i : nat)
  (c : Conversation) : Prop :=
  group !! i = Some c ∧
  ∀ (j : nat) c', group !! j = Some c' →
    older_or_same (conv_last_message_at c') (conv_last_message_at c) ∧
    (conv_last_message_at c' = conv_last_message_at c → (i <= j)%nat).

(** The canonical thread as the specification words it: most recent
    activity, ties broken by the most recent creation. *)
Definition spec_canonical_by_creation (group : list Conversation)
  (c : Conversation) : Prop :=
  c ∈ group ∧
  ∀ c', c' ∈ group →
    older_or_same (conv_last_message_at c') (conv_last_message_at c) ∧
    (conv_last_message_at c' = conv_last_message_at c →
     (conv_created_at c' <= conv_created_at c)%Z).

(** The same with the tie-break of the testable properties: id ascending. *)
Definition spec_canonical_by_id (group : list Conversation)
  (c : Conversation) : Prop :=
  c ∈ group ∧
  ∀ c', c' ∈ group →
    older_or_same (conv_last_message_at c') (conv_last_message_at c) ∧
    (conv_last_message_at c' = conv_last_message_at c →
     String.leb (conv_id c) (conv_id c') = true).

(** The unread filter of the specification, for a set of thread ids. *)
Definition unread_in (ids : list string) (userId : string) (m : Message) : Prop :=
  msg_conversation_id m ∈ ids ∧ msg_read m = false ∧ msg_sender_id m ≠ userId.

#[global] Instance unread_in_dec ids userId m : Decision (unread_in ids userId m).
Proof. unfold unread_in. apply _. Defined.

Definition last_message_of (m : Message) : LastMessage :=
  {| lm_content := msg_content m; lm_sender_type := msg_sender_type m;
     lm_created_at := msg_created_at m |}.

(** The project built from an application and its resolved opportunity. *)
Definition project_of (app : ApplicationData) (opportunity : OpportunityData)
  : Project :=
  {| pj_id := app_id app; pj_opportunity_id := app_opportunity_id app;
     pj_title := op_title opportunity; pj_company := op_company opportunity;
     pj_status := "active"; pj_analyst_id := op_analyst_id opportunity;
     pj_created_by := op_analyst_id opportunity |}.

(** The store answered the conversation query in the requested order: most
    recent activity first, null last. *)
Definition most_recent_first (convs : list Conversation) : Prop :=
  StronglySorted
    (λ a b, older_or_same (conv_last_message_at b) (conv_last_message_at a))
    convs.

(** The order a descending sort gives when nothing is asked about nulls:
    the threads without activity first, then the most recent first. *)
Definition null_then_most_recent_first (convs : list Conversation) : Prop :=
  StronglySorted
    (λ a b,
       match conv_last_message_at a, conv_last_message_at b with
       | None, _ => True
       | Some _, None => False
       | Some x, Some y => (y <= x)%Z
       end)
    convs.

(** The keys of a list, each listed once, at the place where it first
    occurs. *)
Fixpoint first_occurrences (ks : list string) : list string :=
  match ks with
  | [] => []
  | k :: ks => k :: filter (λ k', k' ≠ k) (first_occurrences ks)
  end.

(** The counterparts of the returned threads, in the order in which the
    store returned the first thread of each. *)
Definition counterparts_by_first_thread (convs : list Conversation)
  : list string :=
  first_occurrences (conv_analyst_id <$> convs).

(** The returned applications, in the order of the response, whose
    opportunity resolves and is owned by counterpart [k]. *)
Definition works_of_counterpart (supabase : Store) (userId k : string)
  : list ApplicationData :=
  filter
    (λ app,
       op_analyst_id
       <$> opportunitiesMap supabase userId !! app_opportunity_id app
       = Some k)
    (or_empty (applications supabase userId)).

(** The order the consolidated list has when it follows its groups' activity. *)
Definition by_activity (chats : list ProjectChat) : Prop :=
  StronglySorted
    (λ a b, older_or_same (last_message_at b) (last_message_at a)) chats.

(** The order of the specification: activity descending, ties by counterpart
    id ascending. *)
Definition spec_order (a b : ProjectChat) : Prop :=
  ¬ older_or_same (last_message_at a) (last_message_at b) ∨
  (last_message_at a = last_message_at b ∧
   String.leb (chat_counterpart a) (chat_counterpart b) = true).

(** The operations whose filter is a list of ids read from an earlier
    response of the same request. *)
Definition keyed_by_earlier_response (c : Call) : bool :=
  match c with
  | SelectConversations _ | SelectApplications _ => false
  | SelectAnalysts _ | SelectProfiles _ | SelectOpportunities _
  | SelectUnreadMessages _ _ | RpcGetLatestMessages _ => true
  end.

(** Where each operation of a run takes its filter from: the actor id, or
    ids read from the conversation response ([allAnalystIds], [allConvIds])
    or from the application response ([opportunityIds]). *)
Definition filter_origin (supabase : Store) (userId : string) (c : Call) : Prop :=
  match c with
  | SelectConversations u | SelectApplications u => u = userId
  | SelectAnalysts ids | SelectProfiles ids =>
      ids = allAnalystIds (grouping supabase userId)
  | SelectOpportunities ids => ids = opportunityIds supabase userId
  | SelectUnreadMessages ids u =>
      ids = allConvIds supabase userId ∧ u = userId
  | RpcGetLatestMessages ids => ids = allConvIds supabase userId
  end.

(** The fields of a consolidated thread that do not come from the identity,
    unread-message and latest-message fetches. *)
Definition thread_core (chat : ProjectChat)
  : string * string * option ChatOpportunity * option string
    * option Timestamp * option string * list string * option string :=
  (project_id chat, opportunity_id chat, opportunity chat,
   conversation_id chat, last_message_at chat, custom_title chat, tags chat,
   ca_company <$> analyst chat).

(** Two stores answer the conversation, application and opportunity fetches
    alike: same tables, same availability of these three operations. *)
Definition same_threads_and_works (s1 s2 : Store) : Prop :=
  conversations s1 = conversations s2 ∧
  opportunity_applications s1 = opportunity_applications s2 ∧
  opportunities s1 = opportunities s2 ∧
  ∀ c, match c with
       | SelectConversations _ | SelectApplications _
       | SelectOpportunities _ => unavailable s1 c = unavailable s2 c
       | _ => True
       end.

(** ** Concrete stores *)

Module Fixtures.

Definition thread (id k : string) (created : Z) (activity : option Z)
  : Conversation :=
  {| conv_id := id; conv_analyst_id := k; conv_creator_id := "creator";
     conv_opportunity_id := None; conv_created_at := created;
     conv_last_message_at := activity;
     conv_custom_title := Some id; conv_tags := Some [id] |}.

Definition engagement (id work : string) : ApplicationRow :=
  {| row_id := id; row_opportunity_id := work; row_creator_id := "creator";
     row_status := "approved"; row_applied_at := 0%Z |}.

Definition work (id k : string) : OpportunityData :=
  {| op_id := id; op_title := "Campaign"; op_company := "Acme";
     op_analyst_id := k; op_created_by := k |}.

(** A message sent at millisecond [at_]. *)
Definition incoming (id conv : string) (sender : string) (at_ : Z) : Message :=
  {| msg_id := id; msg_conversation_id := conv; msg_content := id;
     msg_sender_type := "analyst"; msg_sender_id := sender;
     msg_read := false; msg_created_at := (at_ * 1000)%Z |}.

(** A message sent [micros] microseconds after the epoch. *)
Definition burst (id conv : string) (micros : Instant) : Message :=
  {| msg_id := id; msg_conversation_id := conv; msg_content := id;
     msg_sender_type := "analyst"; msg_sender_id := "A";
     msg_read := false; msg_created_at := micros |}.

Definition always_up : Call -> bool := λ _, false.

(** The end-to-end scenario of the specification: counterpart A with two
    threads and one engagement, counterpart B with one thread and none. *)
Definition scenario : Store :=
  {| conversations :=
       [thread "A1" "A" 1 (Some 10%Z); thread "A2" "A" 2 (Some 5%Z);
        thread "B1" "B" 3 (Some 1%Z)];
     analysts := [{| an_id := "A"; an_name := "Ana"; an_email := "ana@acme";
                     an_avatar_url := None |}];
     profiles := [{| pr_id := "B"; pr_full_name := "Bea"; pr_email := "bea@acme";
                     pr_avatar_url := None |}];
     opportunity_applications := [engagement "E1" "W1"];
     opportunities := [work "W1" "A"];
     messages :=
       [incoming "m1" "A1" "A" 10; incoming "m2" "A2" "A" 4;
        incoming "m3" "A2" "A" 5];
     unavailable := always_up |}.

(** The scenario with the unread-message fetch failing. *)
Definition unread_outage : Store :=
  {| conversations := conversations scenario; analysts := analysts scenario;
     profiles := profiles scenario;
     opportunity_applications := opportunity_applications scenario;
     opportunities := opportunities scenario; messages := messages scenario;
     unavailable :=
       λ c, match c with SelectUnreadMessages _ _ => true | _ => false end |}.

(** The scenario with the conversation fetch failing. *)
Definition conversations_outage : Store :=
  {| conversations := conversations scenario; analysts := analysts scenario;
     profiles := profiles scenario;
     opportunity_applications := opportunity_applications scenario;
     opportunities := opportunities scenario; messages := messages scenario;
     unavailable :=
       λ c, match c with SelectConversations _ => true | _ => false end |}.

(** One counterpart, two threads with the same last activity; the one the
    store returns first was created earlier and has the greater id. *)
Definition tie : Store :=
  {| conversations :=
       [thread "t2" "A" 1 (Some 10%Z); thread "t1" "A" 2 (Some 10%Z)];
     analysts := []; profiles := [];
     opportunity_applications := [engagement "E1" "W1"];
     opportunities := [work "W1" "A"];
     messages := [];
     unavailable := always_up |}.

(** Two counterparts with the same last activity, returned by the store with
    the greater counterpart id first. *)
Definition two_groups_tie : Store :=
  {| conversations :=
       [thread "c1" "b" 1 (Some 10%Z); thread "c2" "a" 2 (Some 10%Z)];
     analysts := []; profiles := [];
     opportunity_applications := [engagement "E1" "W1"; engagement "E2" "W2"];
     opportunities := [work "W1" "b"; work "W2" "a"];
     messages := [];
     unavailable := always_up |}.

(** Two counterparts: [A] with two threads and two engagements, [B] with
    one of each, the threads returned most recent first and the
    engagements interleaved. *)
Definition two_groups : Store :=
  {| conversations :=
       [thread "A1" "A" 1 (Some 10%Z); thread "B1" "B" 2 (Some 7%Z);
        thread "A2" "A" 3 (Some 5%Z)];
     analysts := []; profiles := [];
     opportunity_applications :=
       [engagement "E1" "W1"; engagement "E2" "W2"; engagement "E3" "W3"];
     opportunities := [work "W1" "A"; work "W2" "B"; work "W3" "A"];
     messages := [];
     unavailable := always_up |}.

(** Counterpart [A] has a thread without activity and one with activity 5,
    counterpart [B] a thread with activity 10; the threads come in the
    default order of a descending sort, the one without activity first. *)
Definition null_first : Store :=
  {| conversations :=
       [thread "a0" "A" 1 None; thread "b1" "B" 2 (Some 10%Z);
        thread "a1" "A" 3 (Some 5%Z)];
     analysts := []; profiles := [];
     opportunity_applications := [engagement "E1" "W1"; engagement "E2" "W2"];
     opportunities := [work "W1" "A"; work "W2" "B"];
     messages := [];
     unavailable := always_up |}.

(** One counterpart whose threads never saw a message. *)
Definition silent : list Conversation :=
  [thread "s1" "A" 1 None; thread "s2" "A" 2 None].

(** The thread the scenario consolidates for counterpart A and work W1. *)
Definition scenario_chat : ProjectChat :=
  to_chat (seed (thread "A1" "A" 1 (Some 10%Z)))
    {| ident_name := "Ana"; ident_email := "ana@acme";
       ident_avatar_url := None |}
    (Some (last_message_of (incoming "m1" "A1" "A" 10))) 3
    (project_of (application_data (engagement "E1" "W1")) (work "W1" "A")).

(** The thread consolidated on [tie]: its canonical thread is [t2]. *)
Definition tie_chat : ProjectChat :=
  to_chat (seed (thread "t2" "A" 1 (Some 10%Z))) sentinel None 0
    (project_of (application_data (engagement "E1" "W1")) (work "W1" "A")).

(** One counterpart with two threads and two engagements: two consolidated
    threads share the messaging metadata of the group. *)
Definition two_works : Store :=
  {| conversations :=
       [thread "A1" "A" 1 (Some 10%Z); thread "A2" "A" 2 (Some 5%Z)];
     analysts := [];
     profiles := [];
     opportunity_applications := [engagement "E1" "W1"; engagement "E2" "W2"];
     opportunities := [work "W1" "A"; work "W2" "A"];
     messages := [incoming "m1" "A1" "A" 10; incoming "m2" "A2" "A" 4];
     unavailable := always_up |}.

Definition two_works_chat (e w : string) : ProjectChat :=
  to_chat (seed (thread "A1" "A" 1 (Some 10%Z))) sentinel
    (Some (last_message_of (incoming "m1" "A1" "A" 10))) 2
    (project_of (application_data (engagement e w)) (work w "A")).

(** One counterpart with two threads, returned [T1] first, each with one
    message; the two messages fall in the same millisecond and the one of
    [T2] is the later. *)
Definition same_millisecond : Store :=
  {| conversations :=
       [thread "T1" "A" 1 (Some 20%Z); thread "T2" "A" 2 (Some 20%Z)];
     analysts := []; profiles := [];
     opportunity_applications := [engagement "E1" "W1"];
     opportunities := [work "W1" "A"];
     messages := [burst "older" "T1" 20000100%Z; burst "newer" "T2" 20000900%Z];
     unavailable := always_up |}.

(** What [same_millisecond] consolidates: the message of [T1] is the
    latest one shown. *)
Definition same_millisecond_chat : ProjectChat :=
  to_chat (seed (thread "T1" "A" 1 (Some 20%Z))) sentinel
    (Some (last_message_of (burst "older" "T1" 20000100%Z))) 2
    (project_of (application_data (engagement "E1" "W1")) (work "W1" "A")).

(** The scenario with both identity fetches failing. *)
Definition identity_outage : Store :=
  {| conversations := conversations scenario; analysts := analysts scenario;
     profiles := profiles scenario;
     opportunity_applications := opportunity_applications scenario;
     opportunities := opportunities scenario; messages := messages scenario;
     unavailable :=
       λ c, match c with
            | SelectAnalysts _ | SelectProfiles _ => true
            | _ => false
            end |}.

(** What [identity_outage] consolidates: the scenario's thread under the
    sentinel identity. *)
Definition anonymous_chat : ProjectChat :=
  to_chat (seed (thread "A1" "A" 1 (Some 10%Z))) sentinel
    (Some (last_message_of (incoming "m1" "A1" "A" 10))) 3
    (project_of (application_data (engagement "E1" "W1")) (work "W1" "A")).

End Fixtures.

(** * The analyst overview (src/components/analyst/AnalystOverview.tsx)

    The two loaders of the component and its date helper.  The component
    state is passed explicitly; a loader returns the state it leaves and the
    queries it issued, in order.  The current instant and the two date
    strings a loader derives from it are parameters. *)

Module Overview.

(** A row of [opportunities], with the columns of [RecentOpportunity]. *)
Record Opportunity : Type := {
  o_id : string;
  o_title : option string;
  o_company : option string;
  o_description : string;
  o_budget_min : Z;
  o_budget_max : Z;
  o_location : string;
  o_content_type : string;
  o_requirements : list string;
  o_deadline : option string;
  o_status : string;
  o_candidates_count : nat;
  o_created_at : Timestamp;
  o_created_by : string }.

Record Creator : Type := {
  c_name : option string }.

(** The embedded [creator:profiles!creator_id (name)], which the client
    yields as an object or as an array. *)
Inductive Joined : Type :=
| JoinedObject (creator : option Creator)
| JoinedArray (creators : list Creator).

(** A row of [opportunity_applications] visible to the session. *)
Record Application : Type := {
  a_id : string;
  a_opportunity_id : string;
  a_status : string;
  a_creator : Joined }.

Record DashboardStats : Type := {
  activeOpportunities : nat;
  totalOpportunities : nat;
  completedOpportunities : nat;
  totalApplications : nat }.

Record UpcomingProject : Type := {
  up_id : string;
  up_title : string;
  up_company : string;
  up_creator_name : string;
  up_deadline : string;
  up_status : string }.

(** The state the two loaders write. *)
Record State : Type := {
  stats : DashboardStats;
  recentOpportunities : list Opportunity;
  upcomingProjects : list UpcomingProject;
  loading : bool;
  loadingProjects : bool }.

Definition setLoading (b : bool) (st : State) : State :=
  {| stats := stats st; recentOpportunities := recentOpportunities st;
     upcomingProjects := upcomingProjects st; loading := b;
     loadingProjects := loadingProjects st |}.

Definition setStats (s : DashboardStats) (st : State) : State :=
  {| stats := s; recentOpportunities := recentOpportunities st;
     upcomingProjects := upcomingProjects st; loading := loading st;
     loadingProjects := loadingProjects st |}.

Definition setRecentOpportunities (l : list Opportunity) (st : State) : State :=
  {| stats := stats st; recentOpportunities := l;
     upcomingProjects := upcomingProjects st; loading := loading st;
     loadingProjects := loadingProjects st |}.

Definition setUpcomingProjects (l : list UpcomingProject) (st : State) : State :=
  {| stats := stats st; recentOpportunities := recentOpportunities st;
     upcomingProjects := l; loading := loading st;
     loadingProjects := loadingProjects st |}.

Definition setLoadingProjects (b : bool) (st : State) : State :=
  {| stats := stats st; recentOpportunities := recentOpportunities st;
     upcomingProjects := upcomingProjects st; loading := loading st;
     loadingProjects := b |}.

(** The queries of the component, with their filters. *)
Inductive Query : Type :=
| CountOpportunities (created_by : string) (status : option string)
| CountApplications
| SelectRecentOpportunities (created_by : string)
| SelectApplicationsOf (opportunity_ids : list string)
| SelectUpcomingOpportunities (created_by today horizon : string)
| SelectApprovedApplicationsOf (opportunity_ids : list string).

(** The backend: its two tables, restricted to what row-level security
    shows the session, and the queries that fail. *)
Record Backend : Type := {
  bk_opportunities : list Opportunity;
  bk_applications : list Application;
  bk_unavailable : Query -> bool }.

(** The [{ count, error }] pair of a [head: true] query. *)
Record CountResponse : Type := {
  count : option nat;
  count_error : option PostgrestError }.

Definition answer {A} (supabase : Backend) (q : Query) (rows : list A)
  : Response (list A) :=
  if bk_unavailable supabase q
  then {| data := None; error := Some StoreUnavailable |}
  else {| data := Some rows; error := None |}.

Definition answer_count {A} (supabase : Backend) (q : Query) (rows : list A)
  : CountResponse :=
  if bk_unavailable supabase q
  then {| count := None; count_error := Some StoreUnavailable |}
  else {| count := Some (length rows); count_error := None |}.

(** [.order('created_at', { ascending: false })]: newest first.  The store
    promises nothing about rows of equal key; the sort leaves them in table
    order. *)
Definition newer_or_same (a b : Opportunity) : Prop :=
  (o_created_at b <= o_created_at a)%Z.

#[global] Instance newer_or_same_dec a b : Decision (newer_or_same a b).
Proof. unfold newer_or_same. apply _. Defined.

Definition order_created_at_desc : list Opportunity -> list Opportunity :=
  merge_sort newer_or_same.

(** [.order('deadline', { ascending: true })], on ISO dates, rows without a
    deadline last. *)
Definition due_no_later (a b : Opportunity) : Prop :=
  match o_deadline a, o_deadline b with
  | Some x, Some y => String.leb x y = true
  | _, None => True
  | None, Some _ => False
  end.

#[global] Instance due_no_later_dec a b : Decision (due_no_later a b).
Proof.
  unfold due_no_later. destruct (o_deadline a), (o_deadline b); apply _.
Defined.

Definition order_deadline_asc : list Opportunity -> list Opportunity :=
  merge_sort due_no_later.

(** Lines 106-109: the [reduce] that counts the fetched rows per
    opportunity. *)
Definition count_candidates (appsForRecent : list string) : gmap string nat :=
  fold_left
    (λ (acc : gmap string nat) opportunity_id,
       <[opportunity_id := default 0 (acc !! opportunity_id) + 1]> acc)
    appsForRecent ∅.

(** Lines 112-115: [{ ...op, candidates_count: counts[op.id] || 0 }]. *)
Definition with_candidates_count (counts : gmap string nat) (op : Opportunity)
  : Opportunity :=
  {| o_id := o_id op; o_title := o_title op; o_company := o_company op;
     o_description := o_description op; o_budget_min := o_budget_min op;
     o_budget_max := o_budget_max op; o_location := o_location op;
     o_content_type := o_content_type op;
     o_requirements := o_requirements op; o_deadline := o_deadline op;
     o_status := o_status op;
     o_candidates_count := default 0 (counts !! o_id op);
     o_created_at := o_created_at op; o_created_by := o_created_by op |}.

(** Lines 57-126.  The component's client reports failures in the [error]
    field, so the [catch] branch is not entered; [finally] runs last. *)
Definition fetchDashboardData (supabase : Backend) (user : option string)
  (st : State) : State * list Query :=
  match user with
  | None => (st, [])
  | Some user_id =>
      let st := setLoading true st in
      let mine := filter (λ o, o_created_by o = user_id) (bk_opportunities supabase) in
      let q_active := CountOpportunities user_id (Some "ativo") in
      let q_completed := CountOpportunities user_id (Some "concluido") in
      let q_total := CountOpportunities user_id None in
      let active :=
        answer_count supabase q_active
          (filter (λ o, o_status o = "ativo") mine) in
      let completed :=
        answer_count supabase q_completed
          (filter (λ o, o_status o = "concluido") mine) in
      let total := answer_count supabase q_total mine in
      let apps :=
        answer_count supabase CountApplications (bk_applications supabase) in
      let st :=
        setStats
          {| activeOpportunities := default 0 (count active);
             totalOpportunities := default 0 (count total);
             completedOpportunities := default 0 (count completed);
             totalApplications := default 0 (count apps) |} st in
      let q_recent := SelectRecentOpportunities user_id in
      let recent :=
        answer supabase q_recent (take 5 (order_created_at_desc mine)) in
      let recentOpp := data recent in
      let '(recentWithCounts, more) :=
        match recentOpp with
        | Some ((_ :: _) as rows) =>
            let q_apps := SelectApplicationsOf (o_id <$> rows) in
            let appsForRecent :=
              answer supabase q_apps
                (a_opportunity_id
                 <$> filter (λ a, a_opportunity_id a ∈ o_id <$> rows)
                       (bk_applications supabase)) in
            (match error appsForRecent, data appsForRecent with
             | None, Some ids =>
                 with_candidates_count (count_candidates ids) <$> rows
             | _, _ => rows
             end,
             [q_apps])
        | _ => (or_empty recentOpp, [])
        end in
      let st := setRecentOpportunities recentWithCounts st in
      (setLoading false st,
       [q_active; q_completed; q_total; CountApplications; q_recent] ++ more)
  end.

(** [x || fallback] on a nullable string. *)
Definition or_else (x : option string) (fallback : string) : string :=
  match x with
  | None | Some "" => fallback
  | Some s => s
  end.

(** Line 184: the embedded creator, first of the array when it is one. *)
Definition joined_creator (j : Joined) : option Creator :=
  match j with
  | JoinedObject c => c
  | JoinedArray cs => head cs
  end.

(** Lines 180-197: the callback of [opportunities.map], [None] standing for
    the [null] that [.filter(Boolean)] removes. *)
Definition upcoming_project (applications : option (list Application))
  (opportunity : Opportunity) : option UpcomingProject :=
  match applications
        ≫= List.find (λ app, bool_decide (a_opportunity_id app = o_id opportunity))
  with
  | None => None
  | Some application =>
      Some {| up_id := a_id application;
              up_title := or_else (o_title opportunity) "Projeto";
              up_company := or_else (o_company opportunity) "Empresa";
              up_creator_name :=
                or_else (joined_creator (a_creator application) ≫= c_name)
                  "Creator";
              up_deadline := or_else (o_deadline opportunity) "";
              up_status := "active" |}
  end.

(** The deadline filter of lines 147-148, on ISO dates. *)
Definition due_between (today horizon : string) (o : Opportunity) : Prop :=
  match o_deadline o with
  | Some d => String.leb today d = true ∧ String.leb d horizon = true
  | None => False
  end.

#[global] Instance due_between_dec today horizon o :
  Decision (due_between today horizon o).
Proof. unfold due_between. destruct (o_deadline o); apply _. Defined.

(** Lines 128-205.  [today] and [horizon] are the dates of the current day
    and of the day thirty days later, as the loader formats them. *)
Definition fetchUpcomingProjects (supabase : Backend) (user : option string)
  (today horizon : string) (st : State) : State * list Query :=
  match user with
  | None => (st, [])
  | Some user_id =>
      let st := setLoadingProjects true st in
      let q_opps := SelectUpcomingOpportunities user_id today horizon in
      let r_opps :=
        answer supabase q_opps
          (take 10
             (order_deadline_asc
                (filter
                   (λ o, o_created_by o = user_id ∧ due_between today horizon o)
                   (bk_opportunities supabase)))) in
      match error r_opps, data r_opps with
      | Some opportunitiesError, _ =>
          (setLoadingProjects false (setUpcomingProjects [] st), [q_opps])
      | None, (None | Some []) =>
          (setLoadingProjects false (setUpcomingProjects [] st), [q_opps])
      | None, Some opportunities =>
          let q_apps :=
            SelectApprovedApplicationsOf (o_id <$> opportunities) in
          let r_apps :=
            answer supabase q_apps
              (filter
                 (λ a, a_status a = "approved" ∧
                       a_opportunity_id a ∈ o_id <$> opportunities)
                 (bk_applications supabase)) in
          match error r_apps with
          | Some applicationsError =>
              (setLoadingProjects false st, [q_opps; q_apps])
          | None =>
              let upcomingProjectsData :=
                omap (upcoming_project (data r_apps)) opportunities in
              (setLoadingProjects false
                 (setUpcomingProjects (take 3 upcomingProjectsData) st),
               [q_opps; q_apps])
          end
      end
  end.

(** [Math.ceil(a / b)] on integers, [b] positive.  The floating-point
    quotient of two integers below 2^53 rounds to an integer only when the
    division is exact, for the divisors used here, so the ceiling is the
    integer one. *)
Definition ceil_div (a b : Z) : Z := (- ((- a) / b))%Z.

Definition day_ms : Z := (1000 * 60 * 60 * 24)%Z.

(** Lines 228-239, [now] being the [new Date()] of line 230. *)
Definition formatTimeAgo (now date : Timestamp) : string :=
  let diffTime := Z.abs (now - date) in
  let diffDays := ceil_div diffTime day_ms in
  if (diffDays =? 1)%Z then "1 dia atrás"
  else if (diffDays <=? 7)%Z then pretty diffDays +:+ " dias atrás"
  else if (diffDays <=? 14)%Z then "1 semana atrás"
  else if (diffDays <=? 30)%Z
       then pretty (ceil_div diffDays 7) +:+ " semanas atrás"
  else pretty (ceil_div diffDays 30) +:+ " meses atrás".

(** An empty component state, as [useState] initialises it. *)
Definition initial : State :=
  {| stats := {| activeOpportunities := 0; totalOpportunities := 0;
                 completedOpportunities := 0; totalApplications := 0 |};
     recentOpportunities := []; upcomingProjects := [];
     loading := true; loadingProjects := true |}.

End Overview.

Module OverviewFixtures.

Definition campaign (id owner status : string) (deadline : option string)
  (stored_count : nat) (created_at : Timestamp) : Overview.Opportunity :=
  {| Overview.o_id := id; Overview.o_title := Some id;
     Overview.o_company := None; Overview.o_description := "";
     Overview.o_budget_min := 0%Z; Overview.o_budget_max := 0%Z;
     Overview.o_location := ""; Overview.o_content_type := "";
     Overview.o_requirements := []; Overview.o_deadline := deadline;
     Overview.o_status := status;
     Overview.o_candidates_count := stored_count;
     Overview.o_created_at := created_at; Overview.o_created_by := owner |}.

Definition candidate (id opportunity status : string) (name : option string)
  : Overview.Application :=
  {| Overview.a_id := id; Overview.a_opportunity_id := opportunity;
     Overview.a_status := status;
     Overview.a_creator :=
       Overview.JoinedObject (Some {| Overview.c_name := name |}) |}.

Definition all_up : Overview.Query -> bool := λ _, false.

(** An analyst with two campaigns, the older one with a deadline in the
    window, and a campaign of somebody else. *)
Definition dashboard : Overview.Backend :=
  {| Overview.bk_opportunities :=
       [campaign "o1" "analyst" "ativo" (Some "2026-01-10") 9 100%Z;
        campaign "o2" "analyst" "concluido" None 0 200%Z;
        campaign "o3" "other" "ativo" (Some "2026-01-12") 0 300%Z];
     Overview.bk_applications :=
       [candidate "a1" "o1" "pending" None;
        candidate "a2" "o1" "approved" (Some "Cris");
        candidate "a3" "o3" "approved" (Some "Dani")];
     Overview.bk_unavailable := all_up |}.

(** The same backend with the application fetches failing. *)
Definition applications_down : Overview.Backend :=
  {| Overview.bk_opportunities := Overview.bk_opportunities dashboard;
     Overview.bk_applications := Overview.bk_applications dashboard;
     Overview.bk_unavailable :=
       λ q, match q with
            | Overview.SelectApplicationsOf _
            | Overview.SelectApprovedApplicationsOf _ => true
            | _ => false
            end |}.

(** The same backend with the opportunity fetches failing. *)
Definition opportunities_down : Overview.Backend :=
  {| Overview.bk_opportunities := Overview.bk_opportunities dashboard;
     Overview.bk_applications := Overview.bk_applications dashboard;
     Overview.bk_unavailable :=
       λ q, match q with
            | Overview.SelectRecentOpportunities _
            | Overview.SelectUpcomingOpportunities _ _ _ => true
            | _ => false
            end |}.

(** A state left by an earlier load. *)
Definition loaded : Overview.State :=
  {| Overview.stats := Overview.stats Overview.initial;
     Overview.recentOpportunities := [];
     Overview.upcomingProjects :=
       [{| Overview.up_id := "old"; Overview.up_title := "Projeto";
           Overview.up_company := "Empresa";
           Overview.up_creator_name := "Creator";
           Overview.up_deadline := ""; Overview.up_status := "active" |}];
     Overview.loading := false; Overview.loadingProjects := false |}.

(** The project the loader shows on [dashboard]. *)
Definition shown_project : Overview.UpcomingProject :=
  {| Overview.up_id := "a2"; Overview.up_title := "o1";
     Overview.up_company := "Empresa"; Overview.up_creator_name := "Cris";
     Overview.up_deadline := "2026-01-10"; Overview.up_status := "active" |}.

End OverviewFixtures.

(** * The benchmarks of the two loaders

    The scripts under [benchmarks/] run a loader before and after its
    optimisation against in-memory tables and report what each one costs.
    Their tables are module constants there and variables here; elapsed
    time is not modelled. *)

(** ** [benchmarks/analyst_overview_benchmark.js] *)
Module OverviewBenchmark.

(** What an implementation returns, without [time]. *)
Record Measurement : Type := {
  dataTransfer : nat;
  recentOpportunities : list Overview.Opportunity }.

Section Tables.

Variable opportunities : list Overview.Opportunity.
Variable applications : list Overview.Application.

(** Lines 30-68.  The three figures of lines 38-40 and [totalApplications]
    are computed and dropped. *)
Definition currentImplementation : Measurement :=
  let fetchedOpps := opportunities in
  let fetchedApps :=
    filter
      (λ app,
         existsb
           (λ op, bool_decide (Overview.o_id op = Overview.a_opportunity_id app))
           fetchedOpps = true)
      applications in
  let applicationCounts :=
    Overview.count_candidates (Overview.a_opportunity_id <$> fetchedApps) in
  let opportunitiesWithCandidatesCount :=
    Overview.with_candidates_count applicationCounts <$> fetchedOpps in
  let recentOpportunities := take 5 opportunitiesWithCandidatesCount in
  {| dataTransfer := length fetchedOpps + length fetchedApps;
     recentOpportunities := recentOpportunities |}.

(** Lines 71-110. *)
Definition optimizedImplementation : Measurement :=
  let recentOpps := take 5 opportunities in
  let recentIds := Overview.o_id <$> recentOpps in
  let recentApps :=
    filter (λ app, Overview.a_opportunity_id app ∈ recentIds) applications in
  let applicationCounts :=
    Overview.count_candidates (Overview.a_opportunity_id <$> recentApps) in
  let finalRecentOpps :=
    Overview.with_candidates_count applicationCounts <$> recentOpps in
  {| dataTransfer := 5 + length recentApps;
     recentOpportunities := finalRecentOpps |}.

End Tables.

End OverviewBenchmark.

(** ** [benchmarks/analyst_overview_perf.cjs] *)
Module OverviewPerf.

(** The two counters of the mock client. *)
Record Metrics : Type := {
  rowsFetched : nat;
  networkCalls : nat }.

Record Results : Type := {
  totalOpportunities : nat;
  totalApplications : nat;
  recentCount : nat }.

(** What a measurement returns, without [time]. *)
Record Measurement : Type := {
  metrics : Metrics;
  results : Results }.

(** Lines 67-121 for a row query: [result] holds the rows that passed the
    filters, already ordered; a limit of 0 is no limit. *)
Definition fetch {A} (result : list A) (limit : option nat) (m : Metrics)
  : list A * Metrics :=
  let result :=
    match limit with
    | Some (S n) => take (S n) result
    | _ => result
    end in
  (result,
   {| rowsFetched := rowsFetched m + length result;
      networkCalls := S (networkCalls m) |}).

(** Lines 67-121 for [{ count: 'exact', head: true }]: the count, no row. *)
Definition count_exact {A} (result : list A) (m : Metrics) : nat * Metrics :=
  (length result,
   {| rowsFetched := rowsFetched m; networkCalls := S (networkCalls m) |}).

(** Lines 91-97 for [{ ascending: false }] on [created_at]: the comparator
    handed to [result.sort].  It never answers 0. *)
Definition created_at_descending (a b : Overview.Opportunity) : Z :=
  if (Overview.o_created_at a <? Overview.o_created_at b)%Z
  then 1%Z else (-1)%Z.

Section Tables.

Variable opportunities : list Overview.Opportunity.
Variable applications : list Overview.Application.
Variable USER_ID : string.

(** [Array.prototype.sort] of the engine that runs the script.  With a
    comparator that never answers 0 the place of rows of equal [created_at]
    is the engine's choice, so the sort is a parameter; the properties ask
    of it only that it rearranges its argument. *)
Variable sort :
  (Overview.Opportunity -> Overview.Opportunity -> Z) ->
  list Overview.Opportunity -> list Overview.Opportunity.

(** Lines 131-176. *)
Definition measureLegacyApproach : Measurement :=
  let supabase := {| rowsFetched := 0; networkCalls := 0 |} in
  let '(opportunities, supabase) :=
    fetch
      (sort created_at_descending
         (filter (λ o, Overview.o_created_by o = USER_ID) opportunities))
      None supabase in
  let '(allApplications, supabase) :=
    fetch
      (filter
         (λ a, Overview.a_opportunity_id a ∈ Overview.o_id <$> opportunities)
         applications)
      None supabase in
  let totalOpportunities := length opportunities in
  let totalApplications := length allApplications in
  let applicationCounts :=
    Overview.count_candidates (Overview.a_opportunity_id <$> allApplications) in
  let opportunitiesWithCandidatesCount :=
    Overview.with_candidates_count applicationCounts <$> opportunities in
  let recentOpportunities := take 5 opportunitiesWithCandidatesCount in
  {| metrics := supabase;
     results :=
       {| totalOpportunities := totalOpportunities;
          totalApplications := totalApplications;
          recentCount := length recentOpportunities |} |}.

(** Lines 179-229. *)
Definition measureOptimizedApproach : Measurement :=
  let supabase := {| rowsFetched := 0; networkCalls := 0 |} in
  let mine := filter (λ o, Overview.o_created_by o = USER_ID) opportunities in
  let '(activeOpportunities, supabase) :=
    count_exact (filter (λ o, Overview.o_status o = "ativo") mine) supabase in
  let '(completedOpportunities, supabase) :=
    count_exact (filter (λ o, Overview.o_status o = "concluido") mine)
      supabase in
  let '(totalOpportunities, supabase) := count_exact mine supabase in
  let '(totalApplications, supabase) := count_exact applications supabase in
  let '(recentOpportunities, supabase) :=
    fetch (sort created_at_descending mine) (Some 5) supabase in
  let '(applicationsForRecent, supabase) :=
    fetch
      (filter
         (λ a, Overview.a_opportunity_id a
               ∈ Overview.o_id <$> recentOpportunities)
         applications)
      None supabase in
  {| metrics := supabase;
     results :=
       {| totalOpportunities := totalOpportunities;
          totalApplications := totalApplications;
          recentCount := length recentOpportunities |} |}.

End Tables.

(** A sort an engine may implement: a stable merge sort that takes a
    positive answer of the comparator as "comes after". *)
Definition merge_sort_by
  (compare : Overview.Opportunity -> Overview.Opportunity -> Z)
  : list Overview.Opportunity -> list Overview.Opportunity :=
  @merge_sort _ (λ a b, (compare a b <= 0)%Z)
    (λ a b, Z.le_dec (compare a b) 0%Z).

End OverviewPerf.

(** ** [benchmarks/message_fetch_benchmark.js] *)
Module MessageBenchmark.

(** Lines 87-105: every awaited query is counted once and resolves to the
    rows that passed its filters. *)
Definition resolve {A} (rows : list A) (queryCount : nat) : list A * nat :=
  (rows, S queryCount).

(** The two maps and the id set of the grouping loop. *)
Record Groups : Type := {
  analystConversations : JsMap.t Conversation;
  allConversationsByAnalyst : JsMap.t (list string);
  allAnalystIds : list string }.

(** Lines 216-223, one iteration: the first row seen for an analyst is kept
    as it is and never replaced.  The loop of lines 135-141 is the same one
    without the id set. *)
Definition group_step (st : Groups) (conv : Conversation) : Groups :=
  let k := conv_analyst_id conv in
  let '(firsts, lists) :=
    if negb (JsMap.has k (analystConversations st))
    then (JsMap.set k conv (analystConversations st),
          JsMap.set k [] (allConversationsByAnalyst st))
    else (analystConversations st, allConversationsByAnalyst st) in
  {| analystConversations := firsts;
     allConversationsByAnalyst :=
       match JsMap.get k lists with
       | Some l => JsMap.set k (l ++ [conv_id conv]) lists
       | None => lists
       end;
     allAnalystIds := JsSet.add k (allAnalystIds st) |}.

Definition group (conversationData : list Conversation) : Groups :=
  fold_left group_step conversationData
    {| analystConversations := []; allConversationsByAnalyst := [];
       allAnalystIds := [] |}.

Section Mock.

Variable MOCK_DATA : Store.
Variable user_id : string.

Definition approved_of_user (r : ApplicationRow) : Prop :=
  row_creator_id r = user_id ∧ row_status r = "approved".

#[global] Instance approved_of_user_dec r : Decision (approved_of_user r).
Proof. unfold approved_of_user. apply _. Defined.

(** Lines 120-198, returning [queries].  The callbacks of [Promise.all]
    share the counter, so their queries add up whatever their
    interleaving. *)
Definition runCurrentImplementation : nat :=
  let queryCount := 0 in
  let '(conversationData, queryCount) :=
    resolve
      (filter (λ c, conv_creator_id c = user_id) (conversations MOCK_DATA))
      queryCount in
  let g := group conversationData in
  fold_left
    (λ queryCount conv,
       let '(analystData, queryCount) :=
         resolve
           (filter (λ a, an_id a = conv_analyst_id conv) (analysts MOCK_DATA))
           queryCount in
       let '(applications, queryCount) :=
         resolve (filter approved_of_user (opportunity_applications MOCK_DATA))
           queryCount in
       let queryCount :=
         fold_left
           (λ queryCount app,
              (resolve
                 (filter
                    (λ o, op_id o = row_opportunity_id app ∧
                          op_analyst_id o = conv_analyst_id conv)
                    (opportunities MOCK_DATA))
                 queryCount).2)
           applications queryCount in
       let conversationIds :=
         or_empty
           (JsMap.get (conv_analyst_id conv) (allConversationsByAnalyst g)) in
       let queryCount :=
         (resolve
            (take 1
               (filter (λ m, msg_conversation_id m ∈ conversationIds)
                  (messages MOCK_DATA)))
            queryCount).2 in
       (resolve
          (filter
             (λ m, msg_conversation_id m ∈ conversationIds ∧ msg_read m = false)
             (messages MOCK_DATA))
          queryCount).2)
    (JsMap.values (analystConversations g)) queryCount.

(** Lines 200-267, returning [queries]. *)
Definition runOptimizedImplementation : nat :=
  let queryCount := 0 in
  let '(conversationData, queryCount) :=
    resolve
      (filter (λ c, conv_creator_id c = user_id) (conversations MOCK_DATA))
      queryCount in
  let g := group conversationData in
  let analystIdsArray := allAnalystIds g in
  let queryCount :=
    if bool_decide (0 < length analystIdsArray) then
      let queryCount :=
        (resolve (filter (λ a, an_id a ∈ analystIdsArray) (analysts MOCK_DATA))
           queryCount).2 in
      (resolve (filter (λ p, pr_id p ∈ analystIdsArray) (profiles MOCK_DATA))
         queryCount).2
    else queryCount in
  let '(applications, queryCount) :=
    resolve (filter approved_of_user (opportunity_applications MOCK_DATA))
      queryCount in
  let opportunityIds := row_opportunity_id <$> applications in
  let queryCount :=
    if bool_decide (0 < length opportunityIds) then
      (resolve (filter (λ o, op_id o ∈ opportunityIds) (opportunities MOCK_DATA))
         queryCount).2
    else queryCount in
  let allConvIds := concat (JsMap.values (allConversationsByAnalyst g)) in
  let queryCount :=
    if bool_decide (0 < length allConvIds) then
      (resolve
         (filter (λ m, msg_conversation_id m ∈ allConvIds ∧ msg_read m = false)
            (messages MOCK_DATA))
         queryCount).2
    else queryCount in
  fold_left
    (λ queryCount conv,
       let conversationIds :=
         or_empty
           (JsMap.get (conv_analyst_id conv) (allConversationsByAnalyst g)) in
       if bool_decide (0 < length conversationIds) then
         (resolve
            (take 1
               (filter (λ m, msg_conversation_id m ∈ conversationIds)
                  (messages MOCK_DATA)))
            queryCount).2
       else queryCount)
    (JsMap.values (analystConversations g)) queryCount.

End Mock.

End MessageBenchmark.

(** * Properties *)

(** ** The client monad *)

Lemma framed_ret {A} (a : A) : framed (ret a).
Proof. intros log. unfold ret, value, calls. simpl. by rewrite app_nil_r. Qed.

Lemma framed_request {A} supabase c (rows : list A) :
  framed (request supabase c rows).
Proof. intros log. reflexivity. Qed.

Lemma bind_run {A B} (c : Client A) (k : A -> Client B) log :
  framed c → (∀ a, framed (k a)) →
  bind c k log = (value (k (value c)), log ++ calls c ++ calls (k (value c))).
Proof.
  intros Hc Hk. unfold bind. rewrite (Hc log), (Hk (value c)).
  by rewrite <- app_assoc.
Qed.

Lemma value_bind {A B} (c : Client A) (k : A -> Client B) :
  framed c → (∀ a, framed (k a)) → value (bind c k) = value (k (value c)).
Proof. intros Hc Hk. unfold value at 1. by rewrite bind_run. Qed.

Lemma calls_bind {A B} (c : Client A) (k : A -> Client B) :
  framed c → (∀ a, framed (k a)) →
  calls (bind c k) = calls c ++ calls (k (value c)).
Proof. intros Hc Hk. unfold calls at 1. by rewrite bind_run. Qed.

Lemma framed_bind {A B} (c : Client A) (k : A -> Client B) :
  framed c → (∀ a, framed (k a)) → framed (bind c k).
Proof.
  intros Hc Hk log. rewrite bind_run by done.
  by rewrite value_bind, calls_bind.
Qed.

Lemma calls_ret {A} (a : A) : calls (ret a) = [].
Proof. reflexivity. Qed.

Lemma value_ret {A} (a : A) : value (ret a) = a.
Proof. reflexivity. Qed.

Lemma calls_request {A} supabase c (rows : list A) :
  calls (request supabase c rows) = [c].
Proof. reflexivity. Qed.

Lemma value_request_up {A} supabase c (rows : list A) :
  unavailable supabase c = false →
  value (request supabase c rows) = {| data := Some rows; error := None |}.
Proof. intros H. unfold value, request. simpl. by rewrite H. Qed.

Lemma value_request_down {A} supabase c (rows : list A) :
  unavailable supabase c = true →
  value (request supabase c rows)
  = {| data := None; error := Some StoreUnavailable |}.
Proof. intros H. unfold value, request. simpl. by rewrite H. Qed.

Create HintDb client discriminated.

#[local] Hint Resolve framed_ret framed_request framed_bind : client.

Ltac framed_auto :=
  repeat first
    [ apply framed_ret | apply framed_request
    | apply framed_bind; [| intros ?]
    | case_bool_decide | case_match ].

Lemma framed_fetch_analystsMap supabase ids :
  framed (fetch_analystsMap supabase ids).
Proof. unfold fetch_analystsMap, select_analysts, select_profiles. framed_auto. Qed.

Lemma framed_fetch_opportunitiesMap supabase ids :
  framed (fetch_opportunitiesMap supabase ids).
Proof. unfold fetch_opportunitiesMap, select_opportunities. framed_auto. Qed.

Lemma framed_fetch_unreadCountsMap supabase ids userId :
  framed (fetch_unreadCountsMap supabase ids userId).
Proof. unfold fetch_unreadCountsMap, select_unread_messages. framed_auto. Qed.

Lemma framed_fetch_latestMessagesMap supabase ids :
  framed (fetch_latestMessagesMap supabase ids).
Proof. unfold fetch_latestMessagesMap, rpc_get_latest_messages. framed_auto. Qed.

#[local] Hint Resolve framed_fetch_analystsMap framed_fetch_opportunitiesMap
  framed_fetch_unreadCountsMap framed_fetch_latestMessagesMap : client.

Lemma framed_fetchCreatorChats supabase userId :
  framed (fetchCreatorChats supabase userId).
Proof.
  unfold fetchCreatorChats, select_conversations, select_applications.
  apply framed_bind; [apply framed_request | intros r].
  destruct (error r); [apply framed_ret |].
  repeat (apply framed_bind; [eauto with client | intros ?]).
  apply framed_ret.
Qed.

(** ** One run of the aggregation *)

Lemma conversationData_down supabase userId :
  unavailable supabase (SelectConversations userId) = true →
  conversationData supabase userId = [].
Proof.
  intros H. unfold conversationData, select_conversations.
  by rewrite value_request_down.
Qed.

Lemma conversationData_up supabase userId :
  unavailable supabase (SelectConversations userId) = false →
  conversationData supabase userId
  = filter (λ c, conv_creator_id c = userId) (conversations supabase).
Proof.
  intros H. unfold conversationData, select_conversations.
  by rewrite value_request_up.
Qed.

Lemma fetchCreatorChats_run supabase userId log :
  fetchCreatorChats supabase userId log
  = (concat (unifiedConversations supabase userId),
     log ++ SelectConversations userId ::
       if unavailable supabase (SelectConversations userId) then []
       else calls (fetch_analystsMap supabase
                     (allAnalystIds (grouping supabase userId)))
            ++ SelectApplications userId
            :: calls (fetch_opportunitiesMap supabase
                        (opportunityIds supabase userId))
            ++ calls (fetch_unreadCountsMap supabase
                        (allConvIds supabase userId) userId)
            ++ calls (fetch_latestMessagesMap supabase
                        (allConvIds supabase userId))).
Proof.
  unfold unifiedConversations, analystsMap, opportunitiesMap, unreadCountsMap,
    latestMessagesMap, opportunityIds, applications, allConvIds, grouping.
  destruct (unavailable supabase (SelectConversations userId)) eqn:Hc.
  - rewrite conversationData_down by done.
    unfold fetchCreatorChats, bind, select_conversations, request.
    rewrite Hc. reflexivity.
  - unfold fetchCreatorChats, bind, select_conversations, select_applications.
    rewrite (framed_request _ _ _ log). cbn beta iota.
    rewrite value_request_up by done. cbn [error data].
    rewrite (framed_fetch_analystsMap _ _ _).
    rewrite (framed_request _ _ _ (_ ++ _)).
    rewrite (framed_fetch_opportunitiesMap _ _ _).
    rewrite (framed_fetch_unreadCountsMap _ _ _ _).
    rewrite (framed_fetch_latestMessagesMap _ _ _).
    unfold ret, conversationData, select_conversations.
    rewrite !(value_request_up supabase (SelectConversations userId)) by done.
    cbn [error data]. rewrite !calls_request. f_equal.
    rewrite <- !app_assoc. reflexivity.
Qed.

Lemma fetchCreatorChats_value supabase userId log :
  (fetchCreatorChats supabase userId log).1
  = concat (unifiedConversations supabase userId).
Proof. by rewrite fetchCreatorChats_run. Qed.

(** ** The operations of one run *)

Lemma calls_fetch_analystsMap supabase ids :
  calls (fetch_analystsMap supabase ids)
  = if bool_decide (0 < length ids)
    then [SelectAnalysts ids; SelectProfiles ids] else [].
Proof.
  unfold fetch_analystsMap, select_analysts, select_profiles.
  case_bool_decide; [| done].
  rewrite calls_bind; [| apply framed_request | intros; framed_auto].
  rewrite calls_bind; [| apply framed_request | intros; framed_auto].
  reflexivity.
Qed.

Lemma calls_fetch_opportunitiesMap supabase ids :
  calls (fetch_opportunitiesMap supabase ids)
  = if bool_decide (0 < length ids) then [SelectOpportunities ids] else [].
Proof.
  unfold fetch_opportunitiesMap, select_opportunities.
  case_bool_decide; [| done].
  rewrite calls_bind; [| apply framed_request | intros; framed_auto].
  reflexivity.
Qed.

Lemma calls_fetch_unreadCountsMap supabase ids userId :
  calls (fetch_unreadCountsMap supabase ids userId)
  = if bool_decide (0 < length ids)
    then [SelectUnreadMessages ids userId] else [].
Proof.
  unfold fetch_unreadCountsMap, select_unread_messages.
  case_bool_decide; [| done].
  rewrite calls_bind; [| apply framed_request | intros; framed_auto].
  reflexivity.
Qed.

Lemma calls_fetch_latestMessagesMap supabase ids :
  calls (fetch_latestMessagesMap supabase ids)
  = if bool_decide (0 < length ids) then [RpcGetLatestMessages ids] else [].
Proof.
  unfold fetch_latestMessagesMap, rpc_get_latest_messages.
  case_bool_decide; [| done].
  rewrite calls_bind; [| apply framed_request | intros; framed_auto].
  rewrite calls_request.
  by repeat case_match.
Qed.

(** C2, as amended: one call of [fetchCreatorChats] issues at most 7 bulk
    operations whatever the store holds; the two selects keyed by the actor
    id apart, every operation issued (up to five of them) filters on ids
    read from an earlier response of the same request. *)
Theorem bulk_operations_bounded supabase userId :
  let log := (fetchCreatorChats supabase userId []).2 in
  (length log <= 7)%nat ∧
  (length (filter (λ c, keyed_by_earlier_response c = true) log) <= 5)%nat ∧
  Forall (filter_origin supabase userId) log.
Proof.
  rewrite fetchCreatorChats_run. cbn [snd app].
  rewrite calls_fetch_analystsMap, calls_fetch_opportunitiesMap,
    calls_fetch_unreadCountsMap, calls_fetch_latestMessagesMap.
  destruct (unavailable _ _); repeat case_bool_decide;
    (split; [cbn; lia | split; [lazy; lia |]]);
    cbn; repeat (apply Forall_cons; split); try apply Forall_nil; done.
Qed.

(** C2, as stated, fails: on the end-to-end scenario five of the seven
    operations are keyed by ids read from an earlier response. *)
Lemma dependent_operations_counterexample :
  ¬ ((length (fetchCreatorChats Fixtures.scenario "creator" []).2 <= 7)%nat ∧
     (length (filter (λ c, keyed_by_earlier_response c = true)
                (fetchCreatorChats Fixtures.scenario "creator" []).2)
      <= 1)%nat).
Proof. vm_compute. intros [_ H]. lia. Qed.

(** ** Insertion-ordered maps *)

Section jsmap.
Context {V : Type}.
Implicit Types (m : JsMap.t V) (k : string) (v : V).

Lemma jsmap_get_set_eq k v m : JsMap.get k (JsMap.set k v m) = Some v.
Proof.
  induction m as [| [k' v'] m IH]; simpl.
  - by rewrite decide_True.
  - destruct (decide (k = k')) as [->|Hne]; simpl.
    + by rewrite decide_True.
    + by rewrite decide_False.
Qed.

Lemma jsmap_get_set_ne k k' v m :
  k ≠ k' → JsMap.get k' (JsMap.set k v m) = JsMap.get k' m.
Proof.
  intros Hne. induction m as [| [k0 v0] m IH]; simpl.
  - by rewrite decide_False.
  - destruct (decide (k = k0)) as [->|Hk]; simpl.
    + by rewrite !decide_False.
    + by rewrite IH.
Qed.

Lemma jsmap_get_None k m : JsMap.get k m = None ↔ k ∉ JsMap.keys m.
Proof.
  induction m as [| [k' v'] m IH]; simpl.
  - split; [intros _; apply not_elem_of_nil | done].
  - rewrite not_elem_of_cons. destruct (decide (k = k')) as [->|Hne].
    + split; [done | by intros [? _]].
    + rewrite IH. tauto.
Qed.

Lemma jsmap_get_Some_elem k v m : JsMap.get k m = Some v → (k, v) ∈ m.
Proof.
  induction m as [| [k' v'] m IH]; simpl; [done |].
  destruct (decide (k = k')) as [->|Hne].
  - intros [= ->]. apply list_elem_of_here.
  - intros H. apply list_elem_of_further. auto.
Qed.

Lemma jsmap_elem_get k v m :
  NoDup (JsMap.keys m) → (k, v) ∈ m → JsMap.get k m = Some v.
Proof.
  induction m as [| [k' v'] m IH]; simpl.
  - intros _ H. by apply elem_of_nil in H.
  - rewrite NoDup_cons. intros [Hk Hnd] [[= -> ->] | Hin]%elem_of_cons.
    + by rewrite decide_True.
    + rewrite decide_False; [auto |].
      intros ->. apply Hk. unfold JsMap.keys.
      apply list_elem_of_fmap. by exists (k', v).
Qed.

Lemma jsmap_value_get v m :
  NoDup (JsMap.keys m) → v ∈ JsMap.values m →
  ∃ k, JsMap.get k m = Some v.
Proof.
  intros Hnd [[k v'] [-> Hin]]%list_elem_of_fmap.
  exists k. by apply jsmap_elem_get.
Qed.

Lemma jsmap_keys_set k v m :
  JsMap.keys (JsMap.set k v m) = JsSet.add k (JsMap.keys m).
Proof.
  unfold JsSet.add. induction m as [| [k' v'] m IH]; simpl.
  - done.
  - destruct (decide (k = k')) as [->|Hne]; simpl.
    + rewrite (bool_decide_eq_true_2 (k' ∈ k' :: _)); [done | apply list_elem_of_here].
    + rewrite IH. case_bool_decide as Hin.
      * rewrite bool_decide_eq_true_2; [done | by apply list_elem_of_further].
      * rewrite bool_decide_eq_false_2; [done |].
        rewrite not_elem_of_cons. done.
Qed.

Lemma jsmap_set_fresh k v m :
  JsMap.get k m = None → JsMap.set k v m = m ++ [(k, v)].
Proof.
  induction m as [| [k' v'] m IH]; simpl; [done |].
  destruct (decide (k = k')); [done |]. intros H. by rewrite IH.
Qed.

End jsmap.

Lemma jsset_add_present k s : k ∈ s → JsSet.add k s = s.
Proof. intros H. unfold JsSet.add. by rewrite bool_decide_eq_true_2. Qed.

Lemma jsset_add_NoDup k s : NoDup s → NoDup (JsSet.add k s).
Proof.
  intros H. unfold JsSet.add. case_bool_decide; [done |].
  apply NoDup_app. split; [done |]. split; [| apply NoDup_singleton].
  intros x Hx ->%list_elem_of_singleton. done.
Qed.

Lemma elem_of_jsset_add x k s : x ∈ JsSet.add k s ↔ x = k ∨ x ∈ s.
Proof.
  unfold JsSet.add. case_bool_decide.
  - split; [auto | intros [->|]; done].
  - rewrite elem_of_app, list_elem_of_singleton. tauto.
Qed.

Lemma jsmap_set_set {V} k (v w : V) m :
  JsMap.set k v (JsMap.set k w m) = JsMap.set k v m.
Proof.
  induction m as [| [k' v'] m IH]; simpl.
  - by rewrite decide_True.
  - destruct (decide (k = k')) as [->|Hne]; simpl.
    + by rewrite decide_True.
    + by rewrite decide_False, IH.
Qed.

Lemma jsmap_get_keys_eq {V W} k (m : JsMap.t V) (m' : JsMap.t W) :
  JsMap.keys m = JsMap.keys m' →
  JsMap.get k m = None → JsMap.get k m' = None.
Proof. rewrite !jsmap_get_None. by intros ->. Qed.

(** ** The order on nullable timestamps *)

Lemma older_or_same_refl a : older_or_same a a.
Proof. destruct a; simpl; [lia | done]. Qed.

Lemma older_or_same_trans a b c :
  older_or_same a b → older_or_same b c → older_or_same a c.
Proof. destruct a, b, c; simpl; try done; lia. Qed.

Lemma more_recent_spec a b : more_recent a b = true ↔ ¬ older_or_same a b.
Proof.
  destruct a as [x|], b as [y|]; simpl; rewrite ?Z.ltb_lt;
    (split; [intros H | intros H]); try done; try lia; try tauto.
Qed.

Lemma more_recent_false a b : more_recent a b = false ↔ older_or_same a b.
Proof.
  destruct a as [x|], b as [y|]; simpl; rewrite ?Z.ltb_ge;
    (split; [intros H | intros H]); try done; try lia; try tauto.
Qed.

Lemma strictly_more_recent a b c :
  older_or_same a b → ¬ older_or_same c b → older_or_same a c ∧ a ≠ c.
Proof.
  destruct a, b, c; simpl; intros H1 H2; try tauto;
    (split; [try done; lia | intros [= ?]; lia]).
Qed.

(** ** Grouping *)

Lemma group_conversations_snoc l c :
  group_conversations (l ++ [c]) = group_step (group_conversations l) c.
Proof. unfold group_conversations. by rewrite fold_left_app. Qed.

(** The loop body in closed form, for a state whose two maps hold the same
    keys: line 128 always finds its list. *)
Lemma group_step_lists st conv :
  JsMap.keys (analystConversations st)
  = JsMap.keys (allConversationsByAnalyst st) →
  allConversationsByAnalyst (group_step st conv)
  = JsMap.set (conv_analyst_id conv)
      (or_empty (JsMap.get (conv_analyst_id conv)
                   (allConversationsByAnalyst st)) ++ [conv_id conv])
      (allConversationsByAnalyst st).
Proof.
  intros Hsync. unfold group_step, JsMap.has.
  destruct (JsMap.get _ (analystConversations st)) as [existing|] eqn:Hget;
    cbn [allConversationsByAnalyst negb].
  - destruct (JsMap.get _ (allConversationsByAnalyst st)) as [l|] eqn:Hl;
      [done |].
    apply (jsmap_get_keys_eq _ _ (analystConversations st)) in Hl; [| done].
    congruence.
  - rewrite jsmap_get_set_eq, jsmap_set_set.
    by rewrite (jsmap_get_keys_eq _ _ _ Hsync Hget).
Qed.

Lemma group_step_conversations st conv :
  analystConversations (group_step st conv)
  = match JsMap.get (conv_analyst_id conv) (analystConversations st) with
    | None =>
        JsMap.set (conv_analyst_id conv) (seed conv) (analystConversations st)
    | Some existing =>
        if more_recent (conv_last_message_at conv) (uc_last_message_at existing)
        then JsMap.set (conv_analyst_id conv) (replace_canonical existing conv)
               (analystConversations st)
        else analystConversations st
    end.
Proof.
  unfold group_step, JsMap.has.
  by destruct (JsMap.get _ (analystConversations st)).
Qed.

Lemma group_step_ids st conv :
  allAnalystIds (group_step st conv)
  = JsSet.add (conv_analyst_id conv) (allAnalystIds st).
Proof.
  unfold group_step, JsMap.has.
  by destruct (JsMap.get _ (analystConversations st)).
Qed.

(** The two maps and the id set hold the same keys in the same order. *)
Lemma group_keys l :
  JsMap.keys (analystConversations (group_conversations l))
  = allAnalystIds (group_conversations l) ∧
  JsMap.keys (allConversationsByAnalyst (group_conversations l))
  = allAnalystIds (group_conversations l).
Proof.
  induction l as [| c l [IHa IHl]] using rev_ind; [done |].
  rewrite group_conversations_snoc, group_step_ids.
  rewrite group_step_lists by congruence.
  rewrite group_step_conversations, jsmap_keys_set, IHl. split; [| done].
  destruct (JsMap.get _ (analystConversations _)) as [e|] eqn:Hget.
  - assert (conv_analyst_id c ∈ allAnalystIds (group_conversations l)) as Hin.
    { rewrite <- IHa. destruct (decide (conv_analyst_id c ∈
        JsMap.keys (analystConversations (group_conversations l)))) as [|Hn];
        [done |]. apply jsmap_get_None in Hn. congruence. }
    rewrite jsset_add_present by done.
    destruct (more_recent _ _); [| done].
    by rewrite jsmap_keys_set, IHa, jsset_add_present.
  - by rewrite jsmap_keys_set, IHa.
Qed.

Lemma group_keys_NoDup l : NoDup (allAnalystIds (group_conversations l)).
Proof.
  induction l as [| c l IH] using rev_ind; [apply NoDup_nil_2 |].
  rewrite group_conversations_snoc, group_step_ids. by apply jsset_add_NoDup.
Qed.

Lemma group_ids_elem l k :
  k ∈ allAnalystIds (group_conversations l) ↔ k ∈ conv_analyst_id <$> l.
Proof.
  induction l as [| c l IH] using rev_ind.
  - done.
  - rewrite group_conversations_snoc, group_step_ids, elem_of_jsset_add.
    rewrite fmap_app, elem_of_app, IH. simpl. rewrite list_elem_of_singleton.
    tauto.
Qed.

Lemma threads_of_snoc k l c :
  threads_of k (l ++ [c])
  = threads_of k l ++ (if decide (conv_analyst_id c = k) then [c] else []).
Proof.
  unfold threads_of. rewrite filter_app. by f_equal.
Qed.

Lemma threads_of_nil k l : threads_of k l = [] ↔ k ∉ conv_analyst_id <$> l.
Proof.
  unfold threads_of. split.
  - intros Hnil [c [-> Hc]]%list_elem_of_fmap.
    assert (c ∈ filter (λ c', conv_analyst_id c' = conv_analyst_id c) l) as Hin
      by by apply list_elem_of_filter.
    rewrite Hnil in Hin. by apply elem_of_nil in Hin.
  - intros Hk. apply elem_of_nil_inv. intros c [Hc Hin]%list_elem_of_filter.
    apply Hk. apply list_elem_of_fmap. by exists c.
Qed.

(** A group exists exactly for the counterparts that have a thread. *)
Lemma group_absent l k :
  JsMap.get k (analystConversations (group_conversations l)) = None
  ↔ threads_of k l = [].
Proof.
  rewrite jsmap_get_None, (proj1 (group_keys l)), group_ids_elem.
  by rewrite threads_of_nil.
Qed.

(** Line 128: the list of a counterpart holds the ids of its threads, in the
    order the store returned them. *)
Lemma group_thread_ids l k :
  JsMap.get k (allConversationsByAnalyst (group_conversations l))
  = if decide (threads_of k l = []) then None else Some (thread_ids_of k l).
Proof.
  induction l as [| c l IH] using rev_ind; [done |].
  rewrite group_conversations_snoc, group_step_lists
    by (destruct (group_keys l); congruence).
  unfold thread_ids_of in *. rewrite threads_of_snoc.
  destruct (decide (conv_analyst_id c = k)) as [->|Hne].
  - rewrite jsmap_get_set_eq, IH.
    rewrite (decide_False (P := _ ++ [c] = [])) by (by destruct (threads_of _ l)).
    rewrite fmap_app. by destruct (decide (threads_of _ l = [])) as [->|].
  - rewrite jsmap_get_set_ne, IH by done. by rewrite !app_nil_r.
Qed.

Lemma jsmap_concat_push k (x : string) (m : JsMap.t (list string)) :
  concat (JsMap.values (JsMap.set k (or_empty (JsMap.get k m) ++ [x]) m))
  ≡ₚ x :: concat (JsMap.values m).
Proof.
  induction m as [| [k' v'] m IH]; simpl; [done |].
  destruct (decide (k = k')) as [->|Hne]; simpl.
  - rewrite <- app_assoc. simpl. by rewrite <- Permutation_middle.
  - rewrite IH. by rewrite <- Permutation_middle.
Qed.

(** [allConvIds] lists every thread id once per returned thread. *)
Lemma group_all_thread_ids l :
  concat (JsMap.values (allConversationsByAnalyst (group_conversations l)))
  ≡ₚ conv_id <$> l.
Proof.
  induction l as [| c l IH] using rev_ind; [done |].
  rewrite group_conversations_snoc, group_step_lists
    by (destruct (group_keys l); congruence).
  rewrite jsmap_concat_push, IH, fmap_app. simpl.
  by rewrite <- Permutation_cons_append.
Qed.

(** The canonical metadata of a group: taken from the first of the most
    recently active threads of the counterpart. *)
Lemma group_canonical l k u :
  JsMap.get k (analystConversations (group_conversations l)) = Some u →
  uc_analyst_id u = k ∧
  ∃ i c,
    first_most_recent (threads_of k l) i c ∧
    uc_id u = conv_id c ∧
    uc_last_message_at u = conv_last_message_at c ∧
    uc_custom_title u = conv_custom_title c ∧
    uc_tags u = conv_tags c.
Proof.
  revert u. induction l as [| c0 l IH] using rev_ind; [done |].
  intros u. rewrite group_conversations_snoc, group_step_conversations.
  rewrite threads_of_snoc.
  destruct (decide (conv_analyst_id c0 = k)) as [Heq|Hne].
  - subst k.
    destruct (JsMap.get _ (analystConversations _)) as [e|] eqn:Hget.
    + destruct (IH e eq_refl) as (Hk & i & c & [Hi Hmax] & Hid & Hlm & Ht & Hg).
      destruct (more_recent _ _) eqn:Hrec.
      * rewrite jsmap_get_set_eq. intros [= <-]. split; [done |].
        exists (length (threads_of (conv_analyst_id c0) l)), c0.
        split; [| done]. split.
        { by apply list_lookup_middle. }
        intros j c' Hj. apply more_recent_spec in Hrec. rewrite Hlm in Hrec.
        apply lookup_app_Some in Hj as [Hj | [Hlen Hj]].
        -- destruct (Hmax j c' Hj) as [Hle _].
           destruct (strictly_more_recent _ _ _ Hle Hrec) as [? ?].
           split; [done | congruence].
        -- apply list_lookup_singleton_Some in Hj as [_ <-].
           split; [apply older_or_same_refl | lia].
      * rewrite Hget. intros [= <-]. split; [done |].
        exists i, c. split; [| done]. split.
        { by apply lookup_app_l_Some. }
        intros j c' Hj. apply more_recent_false in Hrec. rewrite Hlm in Hrec.
        apply lookup_app_Some in Hj as [Hj | [Hlen Hj]]; [by apply Hmax |].
        apply list_lookup_singleton_Some in Hj as [_ <-].
        split; [done |]. intros _. apply lookup_lt_Some in Hi. lia.
    + rewrite jsmap_get_set_eq. intros [= <-]. split; [done |].
      apply group_absent in Hget. rewrite Hget. simpl.
      exists 0, c0. split; [| done]. split; [done |].
      intros [|j] c'; simpl; [| done]. intros [= <-].
      split; [apply older_or_same_refl | lia].
  - rewrite app_nil_r. intros Hget. apply IH. revert Hget.
    destruct (JsMap.get (conv_analyst_id c0) _) as [e|] eqn:He.
    + destruct (more_recent _ _); [| done]. by rewrite jsmap_get_set_ne.
    + by rewrite jsmap_get_set_ne.
Qed.

Lemma group_conversationIds l k :
  or_empty (JsMap.get k (allConversationsByAnalyst (group_conversations l)))
  = thread_ids_of k l.
Proof.
  rewrite group_thread_ids. unfold thread_ids_of.
  by destruct (decide (threads_of k l = [])) as [->|].
Qed.

Lemma group_value l u :
  u ∈ JsMap.values (analystConversations (group_conversations l)) ↔
  JsMap.get (uc_analyst_id u) (analystConversations (group_conversations l))
  = Some u.
Proof.
  split.
  - intros Hin. apply jsmap_value_get in Hin as [k Hk].
    + by destruct (group_canonical _ _ _ Hk) as [-> _].
    + rewrite (proj1 (group_keys l)). apply group_keys_NoDup.
  - intros Hget%jsmap_get_Some_elem.
    apply list_elem_of_fmap. by exists (uc_analyst_id u, u).
Qed.

(** ** Projection *)

Lemma elem_of_concat {A} (x : A) (ls : list (list A)) :
  x ∈ concat ls ↔ ∃ l, x ∈ l ∧ l ∈ ls.
Proof.
  induction ls as [| l0 ls IH]; simpl.
  - rewrite elem_of_nil. split; [done |].
    intros (l & _ & H). by apply elem_of_nil in H.
  - rewrite elem_of_app, IH. split.
    + intros [H | (l & H1 & H2)].
      * exists l0. split; [done | apply list_elem_of_here].
      * exists l. split; [done | by apply list_elem_of_further].
    + intros (l & H1 & [-> | H2]%elem_of_cons); [by left |].
      right. by exists l.
Qed.

Lemma format_project_Some opportunitiesMap conv app p :
  format_project opportunitiesMap conv app = Some p ↔
  ∃ opportunity,
    opportunitiesMap !! app_opportunity_id app = Some opportunity ∧
    op_analyst_id opportunity = uc_analyst_id conv ∧
    p = project_of app opportunity.
Proof.
  unfold format_project.
  destruct (opportunitiesMap !! app_opportunity_id app) as [o|].
  - case_bool_decide as Hk.
    + split; [intros [= <-]; by exists o |].
      by intros (o' & [= <-] & _ & ->).
    + split; [done |]. by intros (o' & [= <-] & ? & _).
  - split; [done |]. by intros (o' & ? & _).
Qed.

(** The consolidated threads of a run, one per application whose resolved
    opportunity belongs to the analyst of a group. *)
Lemma elem_of_consolidated supabase userId log chat :
  chat ∈ (fetchCreatorChats supabase userId log).1 ↔
  ∃ conv app opportunity,
    JsMap.get (uc_analyst_id conv)
      (analystConversations (grouping supabase userId)) = Some conv ∧
    app ∈ or_empty (applications supabase userId) ∧
    opportunitiesMap supabase userId !! app_opportunity_id app
    = Some opportunity ∧
    op_analyst_id opportunity = uc_analyst_id conv ∧
    chat = to_chat conv
             (default sentinel
                (analystsMap supabase userId !! uc_analyst_id conv))
             (group_lastMessage (latestMessagesMap supabase userId)
                (thread_ids_of (uc_analyst_id conv)
                   (conversationData supabase userId)))
             (group_unreadCount (unreadCountsMap supabase userId)
                (thread_ids_of (uc_analyst_id conv)
                   (conversationData supabase userId)))
             (project_of app opportunity).
Proof.
  rewrite fetchCreatorChats_value. unfold unifiedConversations.
  rewrite elem_of_concat. split.
  - intros (chats & Hchat & [conv [-> Hconv]]%list_elem_of_fmap).
    unfold process_analyst in Hchat.
    apply list_elem_of_fmap in Hchat as (p & -> & Hp).
    apply list_elem_of_omap in Hp as (app & Happ & Hp).
    apply format_project_Some in Hp as (o & Ho & Hk & ->).
    exists conv, app, o. unfold grouping in *.
    apply group_value in Hconv. rewrite group_conversationIds.
    done.
  - intros (conv & app & o & Hconv & Happ & Ho & Hk & ->).
    eexists. split; [| apply list_elem_of_fmap; exists conv; split; [done |]].
    + unfold process_analyst. apply list_elem_of_fmap.
      exists (project_of app o). unfold grouping.
      rewrite group_conversationIds. split; [done |].
      apply list_elem_of_omap. exists app. split; [done |].
      apply format_project_Some. by exists o.
    + by apply group_value.
Qed.

Lemma chat_counterpart_to_chat conv info lm n app opportunity :
  chat_counterpart (to_chat conv info lm n (project_of app opportunity))
  = op_analyst_id opportunity.
Proof. reflexivity. Qed.

(** ** Canonical thread of a group *)

(** C1, as amended: the canonical thread of a consolidated thread is the
    thread of its counterpart with the most recent [last_message_at] (null
    being the oldest), a tie going to the thread the store returned first;
    id, [last_message_at], custom title and tags are taken from that same
    thread. *)
Theorem canonical_thread_first_most_recent supabase userId chat :
  chat ∈ (fetchCreatorChats supabase userId []).1 →
  ∃ i conv,
    first_most_recent
      (threads_of (chat_counterpart chat) (conversationData supabase userId))
      i conv ∧
    conversation_id chat = Some (conv_id conv) ∧
    last_message_at chat = conv_last_message_at conv ∧
    custom_title chat = or_null (conv_custom_title conv) ∧
    tags chat = or_empty (conv_tags conv).
Proof.
  intros (u & app & o & Hu & _ & _ & Hk & ->)%elem_of_consolidated.
  rewrite chat_counterpart_to_chat, Hk.
  destruct (group_canonical _ _ _ Hu) as (_ & i & c & Hfirst & Hid & Hlm & Ht & Hg).
  exists i, c. cbn. by rewrite Hid, Hlm, Ht, Hg.
Qed.

Lemma canonical_thread_first_most_recent_witness :
  Fixtures.scenario_chat ∈ (fetchCreatorChats Fixtures.scenario "creator" []).1 ∧
  ∃ i conv,
    first_most_recent
      (threads_of (chat_counterpart Fixtures.scenario_chat)
         (conversationData Fixtures.scenario "creator"))
      i conv ∧
    conversation_id Fixtures.scenario_chat = Some (conv_id conv) ∧
    last_message_at Fixtures.scenario_chat = conv_last_message_at conv ∧
    custom_title Fixtures.scenario_chat = or_null (conv_custom_title conv) ∧
    tags Fixtures.scenario_chat = or_empty (conv_tags conv).
Proof.
  assert (Fixtures.scenario_chat
          ∈ (fetchCreatorChats Fixtures.scenario "creator" []).1) as Hin
    by (vm_compute; apply list_elem_of_here).
  split; [exact Hin |].
  exact (canonical_thread_first_most_recent _ _ _ Hin).
Defined.

(** C1, as stated, fails: with two equally recent threads the canonical one
    is the first returned, here the one created earlier and with the greater
    id, under either tie-break of the specification. *)
Lemma canonical_tie_break_counterexample :
  ¬ (∀ chat,
       chat ∈ (fetchCreatorChats Fixtures.tie "creator" []).1 →
       ∃ conv,
         (spec_canonical_by_creation
            (threads_of (chat_counterpart chat)
               (conversationData Fixtures.tie "creator")) conv ∨
          spec_canonical_by_id
            (threads_of (chat_counterpart chat)
               (conversationData Fixtures.tie "creator")) conv) ∧
         conversation_id chat = Some (conv_id conv)).
Proof.
  intros H.
  destruct (H Fixtures.tie_chat) as (conv & Hspec & Hid).
  { vm_compute. apply list_elem_of_here. }
  change (threads_of _ _) with (conversations Fixtures.tie) in Hspec.
  assert (Fixtures.thread "t1" "A" 2 (Some 10%Z) ∈ conversations Fixtures.tie)
    as Hother by (right; left).
  assert (conv = Fixtures.thread "t2" "A" 1 (Some 10%Z)) as ->.
  { destruct Hspec as [[Hin _] | [Hin _]];
      apply elem_of_cons in Hin as [-> | Hin]; try done;
      apply list_elem_of_singleton in Hin as ->; discriminate Hid. }
  destruct Hspec as [[_ Hmax] | [_ Hmax]];
    destruct (Hmax _ Hother) as [_ Htie]; specialize (Htie eq_refl);
    vm_compute in Htie; congruence.
Qed.

(** C9: in the selection of the canonical thread, a thread with a null
    [last_message_at] never replaces the current canonical one; a thread with
    a non-null [last_message_at] always replaces a canonical one whose
    [last_message_at] is null: the group then carries the id, the
    [last_message_at], the custom title and the tags of that thread, and
    keeps its counterpart, actor, creation date and unread count; so a group
    whose threads all have a null [last_message_at] keeps the first of them,
    in the order returned by the store, as canonical. *)
Theorem null_activity_canonical :
  (∀ st conv existing,
     JsMap.get (conv_analyst_id conv) (analystConversations st) = Some existing →
     conv_last_message_at conv = None →
     analystConversations (group_step st conv) = analystConversations st) ∧
  (∀ st conv existing,
     JsMap.get (conv_analyst_id conv) (analystConversations st) = Some existing →
     uc_last_message_at existing = None →
     conv_last_message_at conv ≠ None →
     JsMap.get (conv_analyst_id conv) (analystConversations (group_step st conv))
     = Some {| uc_id := conv_id conv;
               uc_analyst_id := uc_analyst_id existing;
               uc_creator_id := uc_creator_id existing;
               uc_created_at := uc_created_at existing;
               uc_last_message_at := conv_last_message_at conv;
               uc_unread_count := uc_unread_count existing;
               uc_custom_title := conv_custom_title conv;
               uc_tags := conv_tags conv |}) ∧
  (∀ l k first,
     head (threads_of k l) = Some first →
     (∀ c, c ∈ threads_of k l → conv_last_message_at c = None) →
     ∃ u, JsMap.get k (analystConversations (group_conversations l)) = Some u ∧
          uc_id u = conv_id first ∧ uc_last_message_at u = None).
Proof.
  split; [| split].
  - intros st conv existing Hget Hnull.
    by rewrite group_step_conversations, Hget, Hnull.
  - intros st conv existing Hget Hnull Hsome.
    rewrite group_step_conversations, Hget, Hnull.
    destruct (conv_last_message_at conv) as [t|] eqn:Hlm; [| done].
    cbn [more_recent]. rewrite jsmap_get_set_eq. unfold replace_canonical.
    by rewrite Hlm.
  - intros l k first Hhead Hnull.
    destruct (JsMap.get k (analystConversations (group_conversations l)))
      as [u|] eqn:Hget.
    + exists u. split; [done |].
      destruct (group_canonical _ _ _ Hget)
        as (_ & i & c & [Hi Hmax] & Hid & Hlm & _).
      rewrite head_lookup in Hhead.
      destruct (Hmax 0 first Hhead) as [_ Hle].
      rewrite (Hnull c), (Hnull first) in Hle
        by eauto using list_elem_of_lookup_2.
      specialize (Hle eq_refl). assert (i = 0) as -> by lia.
      rewrite Hhead in Hi. injection Hi as ->.
      rewrite Hlm. split; [done |]. eauto using list_elem_of_lookup_2.
    + apply group_absent in Hget. by rewrite Hget in Hhead.
Qed.

Lemma null_activity_canonical_witness :
  analystConversations
    (group_step (group_conversations [Fixtures.thread "s1" "A" 1 None])
       (Fixtures.thread "s2" "A" 2 None))
  = analystConversations (group_conversations [Fixtures.thread "s1" "A" 1 None]) ∧
  JsMap.get "A"
    (analystConversations
       (group_step (group_conversations [Fixtures.thread "s1" "A" 1 None])
          (Fixtures.thread "s3" "A" 3 (Some 7%Z))))
  = Some {| uc_id := "s3"; uc_analyst_id := "A"; uc_creator_id := "creator";
            uc_created_at := 1%Z; uc_last_message_at := Some 7%Z;
            uc_unread_count := 0; uc_custom_title := Some "s3";
            uc_tags := Some ["s3"] |} ∧
  ∃ u, JsMap.get "A" (analystConversations (group_conversations Fixtures.silent))
       = Some u ∧ uc_id u = "s1" ∧ uc_last_message_at u = None.
Proof.
  destruct null_activity_canonical as (Hkeep & Hreplace & Hfirst).
  split; [| split].
  - apply (Hkeep _ (Fixtures.thread "s2" "A" 2 None)
             (seed (Fixtures.thread "s1" "A" 1 None))); reflexivity.
  - apply (Hreplace _ (Fixtures.thread "s3" "A" 3 (Some 7%Z))
             (seed (Fixtures.thread "s1" "A" 1 None)));
      [reflexivity | reflexivity | done].
  - apply (Hfirst Fixtures.silent "A" (Fixtures.thread "s1" "A" 1 None));
      [reflexivity |].
    intros c Hc. vm_compute in Hc.
    apply elem_of_cons in Hc as [-> | Hc]; [done |].
    by apply list_elem_of_singleton in Hc as ->.
Defined.

(** ** Engagements and groups *)

Lemma fold_insert_by_key_lookup {A} (key : A → string) (rows : list A)
  (m : gmap string A) k v :
  fold_left (λ (m : gmap string A) r, <[key r := r]> m) rows m !! k = Some v →
  m !! k = Some v ∨ (v ∈ rows ∧ key v = k).
Proof.
  revert m. induction rows as [| r rows IH]; simpl; intros m H; [by left |].
  destruct (IH _ H) as [Hm | [Hin Hk]].
  - destruct (decide (key r = k)) as [<-|Hne].
    + rewrite lookup_insert_eq in Hm. injection Hm as <-.
      right. split; [apply list_elem_of_here | done].
    + rewrite lookup_insert_ne in Hm by done. by left.
  - right. split; [by apply list_elem_of_further | done].
Qed.

Lemma fold_insert_by_key_is_Some {A} (key : A → string) (rows : list A)
  (m : gmap string A) k :
  is_Some (m !! k) ∨ (∃ r, r ∈ rows ∧ key r = k) →
  is_Some (fold_left (λ (m : gmap string A) r, <[key r := r]> m) rows m !! k).
Proof.
  revert m. induction rows as [| r rows IH]; simpl; intros m H.
  - destruct H as [H | (r & Hr & _)]; [done | by apply elem_of_nil in Hr].
  - apply IH. destruct H as [H | (r' & Hr & Hk)].
    + left. destruct (decide (key r = k)) as [<-|Hne].
      * rewrite lookup_insert_eq. eauto.
      * by rewrite lookup_insert_ne.
    + apply elem_of_cons in Hr as [-> | Hr].
      * left. rewrite <- Hk, lookup_insert_eq. eauto.
      * right. eauto.
Qed.

(** The applications of a run are the actor's approved rows. *)
Lemma applications_elem supabase userId app :
  app ∈ or_empty (applications supabase userId) →
  ∃ r, r ∈ opportunity_applications supabase ∧ app = application_data r ∧
       row_creator_id r = userId ∧ row_status r = "approved".
Proof.
  unfold applications, select_applications.
  destruct (unavailable supabase (SelectApplications userId)) eqn:Hup.
  - rewrite value_request_down by done. by intros ?%elem_of_nil.
  - rewrite value_request_up by done. cbn [data or_empty default].
    intros (r & -> & [[? ?] ?]%list_elem_of_filter)%list_elem_of_fmap.
    by exists r.
Qed.

(** A resolved opportunity is a row of the store with the looked-up id. *)
Lemma opportunitiesMap_lookup supabase userId id opportunity :
  opportunitiesMap supabase userId !! id = Some opportunity →
  opportunity ∈ opportunities supabase ∧ op_id opportunity = id.
Proof.
  unfold opportunitiesMap, fetch_opportunitiesMap, select_opportunities.
  case_bool_decide; [| done].
  rewrite value_bind; [| apply framed_request | intros; apply framed_ret].
  rewrite value_ret.
  destruct (unavailable supabase
    (SelectOpportunities (opportunityIds supabase userId))) eqn:Hup.
  - by rewrite value_request_down.
  - rewrite value_request_up by done. cbn [data or_empty default].
    intros [Hm | [Hin Hk]]%fold_insert_by_key_lookup; [done |].
    apply list_elem_of_filter in Hin as [_ Hin]. done.
Qed.

(** C5: a consolidated thread is emitted for an approved application and a
    group exactly when the application's opportunity resolves and is owned by
    the group's counterpart; it then carries that application and
    opportunity.  An application whose opportunity does not resolve, or is
    owned by another counterpart, yields nothing for the group.  The
    applications considered are the actor's approved rows, and a resolved
    opportunity is a row of the store with the application's opportunity
    id. *)
Theorem emitted_iff_work_of_counterpart supabase userId chat :
  (chat ∈ (fetchCreatorChats supabase userId []).1 ↔
   ∃ conv app opportunity,
     conv ∈ JsMap.values (analystConversations (grouping supabase userId)) ∧
     app ∈ or_empty (applications supabase userId) ∧
     opportunitiesMap supabase userId !! app_opportunity_id app
     = Some opportunity ∧
     op_analyst_id opportunity = uc_analyst_id conv ∧
     chat = to_chat conv
              (default sentinel
                 (analystsMap supabase userId !! uc_analyst_id conv))
              (group_lastMessage (latestMessagesMap supabase userId)
                 (thread_ids_of (uc_analyst_id conv)
                    (conversationData supabase userId)))
              (group_unreadCount (unreadCountsMap supabase userId)
                 (thread_ids_of (uc_analyst_id conv)
                    (conversationData supabase userId)))
              (project_of app opportunity)) ∧
  (∀ app,
     app ∈ or_empty (applications supabase userId) →
     ∃ r, r ∈ opportunity_applications supabase ∧ app = application_data r ∧
          row_creator_id r = userId ∧ row_status r = "approved") ∧
  (∀ app opportunity,
     opportunitiesMap supabase userId !! app_opportunity_id app
     = Some opportunity →
     opportunity ∈ opportunities supabase ∧
     op_id opportunity = app_opportunity_id app).
Proof.
  split; [| split; [apply applications_elem |]].
  - rewrite elem_of_consolidated. unfold grouping.
    split; intros (conv & app & o & Hconv & H); exists conv, app, o;
      (split; [by apply group_value | done]).
  - intros app o. apply opportunitiesMap_lookup.
Qed.

Lemma emitted_iff_work_of_counterpart_witness :
  ∃ conv app opportunity,
    conv ∈ JsMap.values
             (analystConversations (grouping Fixtures.scenario "creator")) ∧
    app ∈ or_empty (applications Fixtures.scenario "creator") ∧
    opportunitiesMap Fixtures.scenario "creator" !! app_opportunity_id app
    = Some opportunity ∧
    op_analyst_id opportunity = uc_analyst_id conv ∧
    Fixtures.scenario_chat
    = to_chat conv
        (default sentinel
           (analystsMap Fixtures.scenario "creator" !! uc_analyst_id conv))
        (group_lastMessage (latestMessagesMap Fixtures.scenario "creator")
           (thread_ids_of (uc_analyst_id conv)
              (conversationData Fixtures.scenario "creator")))
        (group_unreadCount (unreadCountsMap Fixtures.scenario "creator")
           (thread_ids_of (uc_analyst_id conv)
              (conversationData Fixtures.scenario "creator")))
        (project_of app opportunity).
Proof.
  apply (proj1 (proj1 (emitted_iff_work_of_counterpart
                         Fixtures.scenario "creator" Fixtures.scenario_chat))).
  vm_compute. apply list_elem_of_here.
Defined.

Lemma applications_NoDup supabase userId :
  NoDup (row_id <$> opportunity_applications supabase) →
  NoDup (app_id <$> or_empty (applications supabase userId)).
Proof.
  intros Hnd. unfold applications, select_applications.
  destruct (unavailable supabase (SelectApplications userId)) eqn:Hup.
  - rewrite value_request_down by done. apply NoDup_nil_2.
  - rewrite value_request_up by done. simpl.
    rewrite <- list_fmap_compose.
    eapply sublist_NoDup; [exact Hnd |].
    apply fmap_sublist, sublist_filter.
Qed.

Lemma NoDup_fmap_elem_inj {A B} (f : A → B) (l : list A) x y :
  NoDup (f <$> l) → x ∈ l → y ∈ l → f x = f y → x = y.
Proof.
  induction l as [| a l IH]; simpl.
  - by intros _ ?%elem_of_nil.
  - rewrite NoDup_cons. intros [Ha Hnd] [-> | Hx]%elem_of_cons
      [-> | Hy]%elem_of_cons Hf; [done | | | by apply IH].
    + destruct Ha. rewrite Hf. by apply list_elem_of_fmap_2.
    + destruct Ha. rewrite <- Hf. by apply list_elem_of_fmap_2.
Qed.

Lemma process_analyst_project_ids am apps om lists um lm conv :
  project_id <$> process_analyst am apps om lists um lm conv
  = app_id <$> filter (λ app, is_Some (format_project om conv app))
                 (or_empty apps).
Proof.
  unfold process_analyst. rewrite <- list_fmap_compose.
  induction (or_empty apps) as [| app l IH]; [done |].
  rewrite filter_cons. cbn [omap list_omap].
  destruct (format_project om conv app) as [p|] eqn:Hp.
  - rewrite decide_True by eauto. rewrite !fmap_cons, IH. f_equal.
    by apply format_project_Some in Hp as (o & _ & _ & ->).
  - rewrite decide_False by (by intros [? ?]). done.
Qed.

(** C10: provided application ids are unique in the store, no application
    is emitted twice: the project ids of the consolidated list are pairwise
    distinct, so every approved application contributes at most one
    consolidated thread over all groups. *)
Theorem application_emitted_at_most_once supabase userId :
  NoDup (row_id <$> opportunity_applications supabase) →
  NoDup (project_id <$> (fetchCreatorChats supabase userId []).1).
Proof.
  intros Hnd%(applications_NoDup _ userId).
  rewrite fetchCreatorChats_value. unfold unifiedConversations.
  pose proof (group_keys_NoDup (conversationData supabase userId)) as Hkeys.
  rewrite <- (proj1 (group_keys _)) in Hkeys. fold (grouping supabase userId) in Hkeys.
  assert (∀ k conv,
    (k, conv) ∈ analystConversations (grouping supabase userId) →
    uc_analyst_id conv = k) as Hval.
  { intros k conv Hin. apply jsmap_elem_get in Hin; [| done].
    by destruct (group_canonical _ _ _ Hin). }
  revert Hkeys Hval.
  generalize (analystConversations (grouping supabase userId)) as m.
  generalize (allConversationsByAnalyst (grouping supabase userId)) as lists.
  intros lists m. induction m as [| [k conv] m IH]; intros Hkeys Hval.
  { apply NoDup_nil_2. }
  simpl in *. rewrite fmap_app. apply NoDup_cons in Hkeys as [Hk Hkeys].
  assert (uc_analyst_id conv = k) as Hck
    by apply Hval, list_elem_of_here.
  assert (∀ conv', conv' ∈ JsMap.values m → uc_analyst_id conv' ≠ k) as Hval'.
  { intros conv' [[k' c'] [-> Hin]]%list_elem_of_fmap Heq. destruct Hk.
    apply list_elem_of_fmap. exists (k', c'). split; [| done].
    simpl in *. rewrite <- Heq.
    by apply Hval, list_elem_of_further. }
  apply NoDup_app. split; [| split].
  - rewrite process_analyst_project_ids.
    eapply sublist_NoDup; [exact Hnd |]. apply fmap_sublist, sublist_filter.
  - intros x Hx Hx'. rewrite process_analyst_project_ids in Hx.
    apply list_elem_of_fmap in Hx as (app & -> & [Happ Hin]%list_elem_of_filter).
    apply list_elem_of_fmap in Hx' as (chat & Hid & Hchat).
    apply elem_of_concat in Hchat as (chats & Hchat & Hchats).
    apply list_elem_of_fmap in Hchats as (conv' & -> & Hconv').
    assert (project_id chat ∈ project_id <$>
      process_analyst (analystsMap supabase userId)
        (applications supabase userId) (opportunitiesMap supabase userId)
        lists (unreadCountsMap supabase userId)
        (latestMessagesMap supabase userId) conv') as Hpid
      by by apply list_elem_of_fmap_2.
    rewrite process_analyst_project_ids, <- Hid in Hpid.
    apply list_elem_of_fmap in Hpid as (app' & Heq & [Happ' Hin']%list_elem_of_filter).
    assert (app = app') as <- by by eapply NoDup_fmap_elem_inj.
    destruct Happ as [p Hp], Happ' as [p' Hp'].
    apply format_project_Some in Hp as (o & Ho & Hko & _).
    apply format_project_Some in Hp' as (o' & Ho' & Hko' & _).
    pose proof (Hval' conv' Hconv') as Hne. congruence.
  - apply IH; [done |]. intros k' conv' Hin.
    by apply Hval, list_elem_of_further.
Qed.

Lemma application_emitted_at_most_once_witness :
  NoDup (row_id <$> opportunity_applications Fixtures.two_groups_tie) ∧
  NoDup (project_id <$>
           (fetchCreatorChats Fixtures.two_groups_tie "creator" []).1).
Proof.
  assert (NoDup (row_id <$> opportunity_applications Fixtures.two_groups_tie))
    as Hnd.
  { vm_compute. apply NoDup_cons. split.
    - intros [=]%list_elem_of_singleton.
    - apply NoDup_singleton. }
  split; [exact Hnd |].
  exact (application_emitted_at_most_once _ _ Hnd).
Defined.

(** ** Display identities *)

Lemma fold_insert_resolved {V} (f : string → V) (ids : list string)
  (m : gmap string V) k :
  k ∈ ids →
  fold_left (λ (m : gmap string V) id, <[id := f id]> m) ids m !! k
  = Some (f k).
Proof.
  revert m. induction ids as [| id ids IH] using rev_ind; intros m Hin.
  - by apply elem_of_nil in Hin.
  - rewrite fold_left_app. simpl.
    destruct (decide (id = k)) as [->|Hne].
    + apply lookup_insert_eq.
    + rewrite lookup_insert_ne by done. apply IH.
      apply elem_of_app in Hin as [Hin | Hin%list_elem_of_singleton]; [done |].
      congruence.
Qed.

Lemma find_by_id_filtered {A} (key : A → string) id (ids : list string)
  (rows : list A) :
  id ∈ ids →
  find_by_id key id (Some (filter (λ r, key r ∈ ids) rows))
  = find_by_id key id (Some rows).
Proof.
  intros Hin. unfold find_by_id. simpl.
  induction rows as [| r rows IH]; [done |].
  rewrite filter_cons. simpl. case_bool_decide as Hk.
  - rewrite decide_True by (by rewrite Hk). simpl.
    by rewrite bool_decide_eq_true_2.
  - destruct (decide (key r ∈ ids)); [| done]. simpl.
    by rewrite bool_decide_eq_false_2.
Qed.

Lemma find_by_id_Some {A} (key : A → string) id (rows : list A) r :
  find_by_id key id (Some rows) = Some r → r ∈ rows ∧ key r = id.
Proof.
  unfold find_by_id. simpl. intros [Hin Hk]%find_some.
  split; [by apply list_elem_of_In | by apply bool_decide_eq_true in Hk].
Qed.

Lemma find_by_id_None {A} (key : A → string) id (rows : list A) :
  find_by_id key id (Some rows) = None → ∀ r, r ∈ rows → key r ≠ id.
Proof.
  unfold find_by_id. simpl. intros Hnone r Hin%list_elem_of_In.
  by apply (find_none _ _ Hnone), bool_decide_eq_false in Hin.
Qed.

(** C8: when the two identity fetches answer, every counterpart id of a
    returned thread resolves: to the name, email and avatar of a record of
    the primary source ([analysts]) with that id when there is one,
    otherwise to the full name, email and avatar of a record of the
    fallback source ([profiles]) with that id when there is one, otherwise
    to the sentinel, named "Analista" with an empty email and no avatar; the
    lookup is total, no id makes the aggregation fail. *)
Theorem identity_precedence supabase userId conv :
  let ids := allAnalystIds (grouping supabase userId) in
  unavailable supabase (SelectAnalysts ids) = false →
  unavailable supabase (SelectProfiles ids) = false →
  conv ∈ conversationData supabase userId →
  ∃ identity,
    analystsMap supabase userId !! conv_analyst_id conv = Some identity ∧
    ((∃ a, a ∈ analysts supabase ∧ an_id a = conv_analyst_id conv ∧
           identity = {| ident_name := an_name a; ident_email := an_email a;
                         ident_avatar_url := an_avatar_url a |}) ∨
     ((∀ a, a ∈ analysts supabase → an_id a ≠ conv_analyst_id conv) ∧
      ((∃ p, p ∈ profiles supabase ∧ pr_id p = conv_analyst_id conv ∧
             identity = {| ident_name := pr_full_name p;
                           ident_email := pr_email p;
                           ident_avatar_url := pr_avatar_url p |}) ∨
       ((∀ p, p ∈ profiles supabase → pr_id p ≠ conv_analyst_id conv) ∧
        identity = {| ident_name := "Analista"; ident_email := "";
                      ident_avatar_url := None |})))).
Proof.
  intros ids Ha Hp Hconv.
  assert (conv_analyst_id conv ∈ ids) as Hin.
  { apply group_ids_elem. by apply list_elem_of_fmap_2. }
  unfold analystsMap, fetch_analystsMap, select_analysts, select_profiles.
  fold ids. rewrite bool_decide_eq_true_2
    by (destruct ids; [by apply elem_of_nil in Hin | simpl; lia]).
  rewrite value_bind; [| apply framed_request | intros; framed_auto].
  rewrite value_bind; [| apply framed_request | intros; framed_auto].
  rewrite value_ret, !value_request_up by done. cbn [data].
  eexists. split; [by apply fold_insert_resolved |].
  unfold resolve_identity. rewrite !find_by_id_filtered by done.
  destruct (find_by_id an_id _ _) as [a|] eqn:Hfa.
  - left. apply find_by_id_Some in Hfa as [? ?]. by exists a.
  - right. split; [by apply find_by_id_None |].
    destruct (find_by_id pr_id _ _) as [p|] eqn:Hfp.
    + left. apply find_by_id_Some in Hfp as [? ?]. by exists p.
    + right. split; [by apply find_by_id_None | done].
Qed.

Lemma identity_precedence_witness :
  Fixtures.thread "B1" "B" 3 (Some 1%Z)
  ∈ conversationData Fixtures.scenario "creator" ∧
  ∃ identity,
    analystsMap Fixtures.scenario "creator" !! "B" = Some identity ∧
    ((∃ a, a ∈ analysts Fixtures.scenario ∧ an_id a = "B" ∧
           identity = {| ident_name := an_name a; ident_email := an_email a;
                         ident_avatar_url := an_avatar_url a |}) ∨
     ((∀ a, a ∈ analysts Fixtures.scenario → an_id a ≠ "B") ∧
      ((∃ p, p ∈ profiles Fixtures.scenario ∧ pr_id p = "B" ∧
             identity = {| ident_name := pr_full_name p;
                           ident_email := pr_email p;
                           ident_avatar_url := pr_avatar_url p |}) ∨
       ((∀ p, p ∈ profiles Fixtures.scenario → pr_id p ≠ "B") ∧
        identity = {| ident_name := "Analista"; ident_email := "";
                      ident_avatar_url := None |})))).
Proof.
  assert (Fixtures.thread "B1" "B" 3 (Some 1%Z)
          ∈ conversationData Fixtures.scenario "creator") as Hin
    by (vm_compute; do 2 right; left).
  split; [exact Hin |].
  exact (identity_precedence Fixtures.scenario "creator" _ eq_refl eq_refl Hin).
Defined.

(** ** Unread counts *)

Lemma tally_fold rows (m : gmap string nat) k :
  default 0 (fold_left tally rows m !! k)
  = default 0 (m !! k)
    + length (filter (λ r, um_conversation_id r = k) rows).
Proof.
  revert m. induction rows as [| r rows IH]; intros m; simpl; [lia |].
  rewrite IH, filter_cons. unfold tally at 1.
  destruct (decide (um_conversation_id r = k)) as [<-|Hne].
  - rewrite lookup_insert_eq. simpl. lia.
  - by rewrite lookup_insert_ne.
Qed.

Lemma group_unreadCount_sum (um : gmap string nat) ids :
  group_unreadCount um ids = sum_list ((λ id, default 0 (um !! id)) <$> ids).
Proof.
  unfold group_unreadCount.
  enough (∀ n, fold_left (λ unreadCount id, unreadCount + default 0 (um !! id))
                 ids n
               = n + sum_list ((λ id, default 0 (um !! id)) <$> ids)) as H
    by apply H.
  induction ids as [| id ids IH]; intros n; [simpl; lia |].
  rewrite fmap_cons. cbn [fold_left]. rewrite IH.
  change (sum_list (?x :: ?l)) with (x + sum_list l). lia.
Qed.

Lemma length_filter_fmap {A B} (f : A → B) (P : B → Prop)
  `{!∀ x, Decision (P x)} (l : list A) :
  length (filter P (f <$> l)) = length (filter (λ x, P (f x)) l).
Proof.
  induction l as [| x l IH]; [done |].
  rewrite fmap_cons, !filter_cons. destruct (decide (P (f x))); simpl; lia.
Qed.

Lemma length_filter_filter {A} (P Q : A → Prop) `{!∀ x, Decision (P x)}
  `{!∀ x, Decision (Q x)} (l : list A) :
  length (filter P (filter Q l)) = length (filter (λ x, P x ∧ Q x) l).
Proof.
  induction l as [| x l IH]; [done |].
  rewrite !filter_cons. destruct (decide (Q x)), (decide (P x ∧ Q x));
    rewrite ?filter_cons; try destruct (decide (P x)); simpl; try lia; tauto.
Qed.

Lemma length_filter_ext {A} (P Q : A → Prop) `{!∀ x, Decision (P x)}
  `{!∀ x, Decision (Q x)} (l : list A) :
  (∀ x, x ∈ l → P x ↔ Q x) →
  length (filter P l) = length (filter Q l).
Proof.
  induction l as [| x l IH]; intros Hext; [done |].
  rewrite !filter_cons.
  assert (P x ↔ Q x) as Hx by apply Hext, list_elem_of_here.
  assert (length (filter P l) = length (filter Q l)) as Hl
    by (apply IH; intros y Hy; by apply Hext, list_elem_of_further).
  destruct (decide (P x)), (decide (Q x)); simpl; try lia; tauto.
Qed.

(** The tally of one thread: its unread messages from other senders. *)
Lemma unreadCountsMap_lookup supabase userId id :
  unavailable supabase
    (SelectUnreadMessages (allConvIds supabase userId) userId) = false →
  id ∈ allConvIds supabase userId →
  default 0 (unreadCountsMap supabase userId !! id)
  = length (filter (unread_in [id] userId) (messages supabase)).
Proof.
  intros Hup Hin. unfold unreadCountsMap, fetch_unreadCountsMap,
    select_unread_messages.
  rewrite bool_decide_eq_true_2
    by (destruct (allConvIds _ _); [by apply elem_of_nil in Hin | simpl; lia]).
  rewrite value_bind; [| apply framed_request | intros; apply framed_ret].
  rewrite value_ret, value_request_up by done. simpl.
  rewrite tally_fold, lookup_empty. simpl.
  rewrite length_filter_fmap, length_filter_filter.
  apply length_filter_ext. intros m _. unfold unread_in, is_unread_for. simpl.
  rewrite list_elem_of_singleton. split.
  - intros (-> & _ & ? & ?). done.
  - intros (-> & ? & ?). done.
Qed.

Lemma unread_split ids id userId (ms : list Message) :
  id ∉ ids →
  length (filter (unread_in (id :: ids) userId) ms)
  = length (filter (unread_in [id] userId) ms)
    + length (filter (unread_in ids userId) ms).
Proof.
  intros Hid. induction ms as [| m ms IH]; [done |].
  rewrite !filter_cons.
  destruct (decide (unread_in (id :: ids) userId m)) as [H|H],
    (decide (unread_in [id] userId m)) as [H1|H1],
    (decide (unread_in ids userId m)) as [H2|H2]; simpl; try lia;
    exfalso; unfold unread_in in *;
    rewrite ?elem_of_cons, ?elem_of_nil in *; intuition (subst; tauto).
Qed.

Lemma unread_sum ids userId (ms : list Message) :
  NoDup ids →
  sum_list ((λ id, length (filter (unread_in [id] userId) ms)) <$> ids)
  = length (filter (unread_in ids userId) ms).
Proof.
  induction 1 as [| id ids Hid Hnd IH].
  - symmetry. apply length_zero_iff_nil, elem_of_nil_inv.
    intros m [[Hin%elem_of_nil _] _]%list_elem_of_filter. done.
  - rewrite fmap_cons.
    change (sum_list (?x :: ?l)) with (x + sum_list l).
    rewrite IH. symmetry. by apply unread_split.
Qed.

Lemma conversationData_NoDup supabase userId :
  NoDup (conv_id <$> conversations supabase) →
  NoDup (conv_id <$> conversationData supabase userId).
Proof.
  intros Hnd. destruct (unavailable supabase (SelectConversations userId)) eqn:Hup.
  - rewrite conversationData_down by done. apply NoDup_nil_2.
  - rewrite conversationData_up by done.
    eapply sublist_NoDup; [exact Hnd |]. apply fmap_sublist, sublist_filter.
Qed.

Lemma thread_ids_of_NoDup k convs :
  NoDup (conv_id <$> convs) → NoDup (thread_ids_of k convs).
Proof.
  intros Hnd. eapply sublist_NoDup; [exact Hnd |].
  apply fmap_sublist, sublist_filter.
Qed.

Lemma thread_ids_of_all supabase userId k id :
  id ∈ thread_ids_of k (conversationData supabase userId) →
  id ∈ allConvIds supabase userId.
Proof.
  intros (c & -> & [_ Hc]%list_elem_of_filter)%list_elem_of_fmap.
  unfold allConvIds, grouping. rewrite group_all_thread_ids.
  by apply list_elem_of_fmap_2.
Qed.

(** C3: when the unread-message fetch answers and thread ids are unique in
    the store, the [unread_count] of every consolidated thread is the number
    of messages of the store that belong to a thread of its counterpart, are
    unread and were not sent by the actor; it is the sum of these counts per
    member thread. *)
Theorem unread_count_of_group supabase userId chat :
  unavailable supabase
    (SelectUnreadMessages (allConvIds supabase userId) userId) = false →
  NoDup (conv_id <$> conversations supabase) →
  chat ∈ (fetchCreatorChats supabase userId []).1 →
  unread_count chat
  = length
      (filter
         (unread_in
            (thread_ids_of (chat_counterpart chat)
               (conversationData supabase userId)) userId)
         (messages supabase)) ∧
  unread_count chat
  = sum_list
      ((λ id, length (filter (unread_in [id] userId) (messages supabase)))
       <$> thread_ids_of (chat_counterpart chat)
             (conversationData supabase userId)).
Proof.
  intros Hup Hnd (u & app & o & Hu & _ & _ & Hk & ->)%elem_of_consolidated.
  rewrite chat_counterpart_to_chat, Hk. cbn [unread_count to_chat].
  assert (group_unreadCount (unreadCountsMap supabase userId)
            (thread_ids_of (uc_analyst_id u) (conversationData supabase userId))
          = sum_list
              ((λ id, length (filter (unread_in [id] userId) (messages supabase)))
               <$> thread_ids_of (uc_analyst_id u)
                     (conversationData supabase userId))) as Hsum.
  { rewrite group_unreadCount_sum. f_equal. apply list_fmap_ext.
    intros i id Hid%list_elem_of_lookup_2.
    apply unreadCountsMap_lookup; [done |]. by eapply thread_ids_of_all. }
  split; [| done]. rewrite Hsum. apply unread_sum.
  by apply thread_ids_of_NoDup, conversationData_NoDup.
Qed.

Lemma unread_count_of_group_witness :
  unread_count Fixtures.scenario_chat
  = length
      (filter
         (unread_in
            (thread_ids_of (chat_counterpart Fixtures.scenario_chat)
               (conversationData Fixtures.scenario "creator")) "creator")
         (messages Fixtures.scenario)) ∧
  unread_count Fixtures.scenario_chat
  = sum_list
      ((λ id, length (filter (unread_in [id] "creator")
                        (messages Fixtures.scenario)))
       <$> thread_ids_of (chat_counterpart Fixtures.scenario_chat)
             (conversationData Fixtures.scenario "creator")).
Proof.
  apply (unread_count_of_group Fixtures.scenario "creator").
  - reflexivity.
  - apply (bool_decide_unpack _). vm_compute. exact I.
  - vm_compute. apply list_elem_of_here.
Defined.

(** ** Latest messages *)

Lemma newest_fold (ms : list Message) best r :
  fold_left
    (λ best m,
       match best with
       | None => Some m
       | Some b => if (msg_created_at b <? msg_created_at m)%Z
                   then Some m else Some b
       end) ms best = r →
  match r with
  | None => best = None ∧ ms = []
  | Some m =>
      (best = Some m ∨ m ∈ ms) ∧
      (∀ b, best = Some b → (msg_created_at b <= msg_created_at m)%Z) ∧
      (∀ m', m' ∈ ms → (msg_created_at m' <= msg_created_at m)%Z)
  end.
Proof.
  revert best r. induction ms as [| m0 ms IH]; intros best r; simpl.
  - intros <-. destruct best as [b|]; [| done].
    split; [by left |]. split; [by intros ? [= ->] |].
    by intros ? ?%elem_of_nil.
  - intros Hr. apply IH in Hr. destruct r as [m|].
    + destruct Hr as (Hfrom & Hbest & Hall).
      assert ((msg_created_at m0 <= msg_created_at m)%Z ∧
              (∀ b, best = Some b → (msg_created_at b <= msg_created_at m)%Z) ∧
              (best = Some m ∨ m ∈ m0 :: ms)) as (H0 & Hb & Hin).
      { destruct best as [b|].
        - destruct (msg_created_at b <? msg_created_at m0)%Z eqn:Hlt.
          + apply Z.ltb_lt in Hlt. specialize (Hbest _ eq_refl).
            split; [done |]. split; [intros ? [= <-]; lia |].
            destruct Hfrom as [[= <-] | ?]; right;
              [apply list_elem_of_here | by apply list_elem_of_further].
          + apply Z.ltb_ge in Hlt. specialize (Hbest _ eq_refl).
            split; [lia |]. split; [by intros ? [= <-] |].
            destruct Hfrom as [? | ?]; [by left |].
            right. by apply list_elem_of_further.
        - specialize (Hbest _ eq_refl). split; [done |]. split; [done |].
          destruct Hfrom as [[= <-] | ?]; right;
            [apply list_elem_of_here | by apply list_elem_of_further]. }
      split; [done |]. split; [done |].
      intros m' [-> | Hm']%elem_of_cons; [done | by apply Hall].
    + destruct Hr as [Hr _]. by destruct best as [b|]; [destruct (_ <? _)%Z |].
Qed.

Lemma newest_None ms : newest ms = None ↔ ms = [].
Proof.
  split; [| by intros ->].
  intros H. by apply newest_fold in H as [_ ?].
Qed.

Lemma newest_Some ms m :
  newest ms = Some m →
  m ∈ ms ∧ ∀ m', m' ∈ ms → (msg_created_at m' <= msg_created_at m)%Z.
Proof.
  intros H. apply newest_fold in H as ([[=] | Hin] & _ & Hall). done.
Qed.

(** The RPC row of one requested thread: its newest message. *)
Lemma latestMessagesMap_lookup supabase userId id :
  unavailable supabase (RpcGetLatestMessages (allConvIds supabase userId))
  = false →
  id ∈ allConvIds supabase userId →
  latestMessagesMap supabase userId !! id
  = message_data
    <$> newest (filter (λ m, msg_conversation_id m = id) (messages supabase)).
Proof.
  intros Hup Hin. unfold latestMessagesMap, fetch_latestMessagesMap,
    rpc_get_latest_messages.
  rewrite bool_decide_eq_true_2
    by (destruct (allConvIds _ _); [by apply elem_of_nil in Hin | simpl; lia]).
  rewrite value_bind; [| apply framed_request | intros; framed_auto].
  rewrite value_request_up by done. cbn [error data]. rewrite value_ret.
  unfold get_latest_messages.
  set (row := λ cid, message_data
    <$> newest (filter (λ m, msg_conversation_id m = cid) (messages supabase))).
  assert (∀ cid r, row cid = Some r → md_conversation_id r = cid) as Hkey.
  { intros cid r. unfold row.
    destruct (newest _) as [m|] eqn:Hm; [| done]. intros [= <-].
    apply newest_Some in Hm as [[Hm _]%list_elem_of_filter _]. done. }
  destruct (fold_left _ _ _ !! id) as [r|] eqn:Hr.
  - apply fold_insert_by_key_lookup in Hr as [Hr | [Hrow Hk]]; [done |].
    apply list_elem_of_omap in Hrow as (cid & _ & Hrow).
    rewrite <- Hk, (Hkey _ _ Hrow). done.
  - destruct (row id) as [r|] eqn:Hrow; [| done].
    assert (is_Some (fold_left
      (λ (m : gmap string MessageData) msg, <[md_conversation_id msg := msg]> m)
      (omap row (remove_dups (allConvIds supabase userId))) ∅ !! id)) as [? Hs].
    { apply fold_insert_by_key_is_Some. right. exists r.
      split; [| by apply Hkey].
      apply list_elem_of_omap. exists id.
      split; [by apply elem_of_remove_dups | done]. }
    congruence.
Qed.

(** The group-level reduction of lines 264-277 keeps the first candidate
    whose millisecond is the greatest. *)
Lemma pick_latest_fold (lm : gmap string MessageData) ids :
  let acc := fold_left (pick_latest lm) ids (None, None) in
  acc.2 = (λ x, new_Date (lm_created_at x)) <$> acc.1 ∧
  (acc.1 = None → ∀ id, id ∈ ids → lm !! id = None) ∧
  (∀ x, acc.1 = Some x →
     ∃ i id msg,
       ids !! i = Some id ∧ lm !! id = Some msg ∧
       x = {| lm_content := md_content msg;
              lm_sender_type := md_sender_type msg;
              lm_created_at := md_created_at msg |} ∧
       ∀ j id' msg', ids !! j = Some id' → lm !! id' = Some msg' →
         (new_Date (md_created_at msg') <= new_Date (md_created_at msg))%Z ∧
         (j < i →
          (new_Date (md_created_at msg') < new_Date (md_created_at msg))%Z)).
Proof.
  induction ids as [| id0 ids IH] using rev_ind.
  - simpl. split; [done |]. split; [by intros _ ? ?%elem_of_nil | done].
  - rewrite fold_left_app. cbn [fold_left].
    destruct (fold_left (pick_latest lm) ids (None, None)) as [best date].
    cbn [fst snd] in IH. destruct IH as (Hdate & Hnone & Hsome).
    unfold pick_latest. cbn [fst snd].
    destruct (lm !! id0) as [msg0|] eqn:Hmsg0.
    + destruct best as [x|].
      * destruct (Hsome x eq_refl) as (i & id & msg & Hid & Hmsg & -> & Hmax).
        subst date. cbn [fmap option_fmap option_map lm_created_at].
        pose proof (lookup_lt_Some _ _ _ Hid) as Hi.
        destruct (new_Date (md_created_at msg) <? new_Date (md_created_at msg0))%Z
          eqn:Hlt; cbn [fst snd].
        -- apply Z.ltb_lt in Hlt. split; [done |]. split; [done |].
           intros ? [= <-]. exists (length ids), id0, msg0.
           split; [by rewrite lookup_app_r, Nat.sub_diag by lia |].
           split; [done |]. split; [done |].
           intros j id' msg' Hj Hl.
           apply lookup_app_Some in Hj as [Hj | [Hge Hj]].
           ++ destruct (Hmax _ _ _ Hj Hl) as [Hle _]. lia.
           ++ apply list_lookup_singleton_Some in Hj as [_ <-].
              rewrite Hmsg0 in Hl. injection Hl as <-. lia.
        -- apply Z.ltb_ge in Hlt. split; [done |]. split; [done |].
           intros ? [= <-]. exists i, id, msg.
           split; [by apply lookup_app_l_Some |].
           split; [done |]. split; [done |].
           intros j id' msg' Hj Hl.
           apply lookup_app_Some in Hj as [Hj | [Hge Hj]].
           ++ by apply (Hmax _ _ _ Hj Hl).
           ++ apply list_lookup_singleton_Some in Hj as [_ <-].
              rewrite Hmsg0 in Hl. injection Hl as <-. lia.
      * subst date. cbn [fmap option_fmap option_map fst snd].
        split; [done |]. split; [done |].
        intros ? [= <-]. exists (length ids), id0, msg0.
        split; [by rewrite lookup_app_r, Nat.sub_diag by lia |].
        split; [done |]. split; [done |].
        intros j id' msg' Hj Hl.
        apply lookup_app_Some in Hj as [Hj | [Hge Hj]].
        -- apply list_elem_of_lookup_2 in Hj.
           by rewrite (Hnone eq_refl _ Hj) in Hl.
        -- apply list_lookup_singleton_Some in Hj as [_ <-].
           rewrite Hmsg0 in Hl. injection Hl as <-. lia.
    + cbn [fst snd]. split; [done |]. split.
      * intros Hb id [Hin | ->%list_elem_of_singleton]%elem_of_app;
          [by apply Hnone | done].
      * intros x Hx.
        destruct (Hsome x Hx) as (i & id & msg & Hid & Hmsg & -> & Hmax).
        exists i, id, msg. split; [by apply lookup_app_l_Some |].
        split; [done |]. split; [done |].
        intros j id' msg' Hj Hl.
        apply lookup_app_Some in Hj as [Hj | [Hge Hj]];
          [by apply (Hmax _ _ _ Hj Hl) |].
        apply list_lookup_singleton_Some in Hj as [_ <-]. congruence.
Qed.

Lemma new_Date_le a b : (a <= b)%Z → (new_Date a <= new_Date b)%Z.
Proof. intros H. unfold new_Date. by apply Z.div_le_mono. Qed.

Lemma new_Date_within a b :
  (new_Date a <= new_Date b)%Z → (a < b + 1000)%Z.
Proof.
  unfold new_Date. intros H.
  pose proof (Z.div_mod a 1000 ltac:(lia)).
  pose proof (Z.div_mod b 1000 ltac:(lia)).
  pose proof (Z.mod_pos_bound a 1000 ltac:(lia)).
  pose proof (Z.mod_pos_bound b 1000 ltac:(lia)).
  lia.
Qed.

(** X23: what [lastMessage] is when the latest-message call answers.  It is
    null exactly when no message belongs to a thread of the counterpart.
    Otherwise it is a message of the store, the newest of its own thread,
    and no message of the counterpart's threads falls in a later
    millisecond: such a message is at most a millisecond newer.  Among the
    threads whose newest message falls in that millisecond, the thread
    that comes first in the order returned by the store gives the
    message. *)
Theorem latest_message_by_millisecond supabase userId chat :
  let ids :=
    thread_ids_of (chat_counterpart chat) (conversationData supabase userId) in
  unavailable supabase (RpcGetLatestMessages (allConvIds supabase userId))
  = false →
  chat ∈ (fetchCreatorChats supabase userId []).1 →
  match lastMessage chat with
  | None => ∀ m, m ∈ messages supabase → msg_conversation_id m ∉ ids
  | Some latest =>
      ∃ i m,
        m ∈ messages supabase ∧
        ids !! i = Some (msg_conversation_id m) ∧
        latest
        = {| lm_content := msg_content m;
             lm_sender_type := msg_sender_type m;
             lm_created_at := msg_created_at m |} ∧
        (∀ m', m' ∈ messages supabase →
               msg_conversation_id m' = msg_conversation_id m →
               (msg_created_at m' <= msg_created_at m)%Z) ∧
        (∀ j m', m' ∈ messages supabase →
                 ids !! j = Some (msg_conversation_id m') →
                 (new_Date (msg_created_at m') <= new_Date (msg_created_at m))%Z ∧
                 (msg_created_at m' < msg_created_at m + 1000)%Z ∧
                 (j < i →
                  (new_Date (msg_created_at m')
                   < new_Date (msg_created_at m))%Z))
  end.
Proof.
  intros ids Hup (u & app & o & Hu & _ & _ & Hk & ->)%elem_of_consolidated.
  unfold ids. clear ids.
  rewrite chat_counterpart_to_chat, Hk. cbn [lastMessage to_chat].
  set (ids := thread_ids_of (uc_analyst_id u) (conversationData supabase userId)).
  assert (∀ id, id ∈ ids →
    latestMessagesMap supabase userId !! id
    = message_data
      <$> newest (filter (λ m, msg_conversation_id m = id) (messages supabase)))
    as Hrow.
  { intros id Hid. apply latestMessagesMap_lookup; [done |].
    by eapply thread_ids_of_all. }
  unfold group_lastMessage.
  destruct (pick_latest_fold (latestMessagesMap supabase userId) ids)
    as (_ & Hnone & Hsome).
  destruct (fold_left _ ids _).1 as [latest|].
  - destruct (Hsome latest eq_refl) as (i & id & msg & Hid & Hmsg & -> & Hmax).
    rewrite (Hrow id) in Hmsg by by eapply list_elem_of_lookup_2.
    destruct (newest _) as [m|] eqn:Hm; [| done]. injection Hmsg as <-.
    apply newest_Some in Hm as [[Hcid Hin]%list_elem_of_filter Hnewest].
    exists i, m. split; [done |]. split; [by rewrite Hcid |].
    split; [done |]. split.
    { intros m' Hin' Hsame. apply Hnewest, list_elem_of_filter.
      split; [congruence | done]. }
    intros j m' Hin' Hj.
    assert (msg_conversation_id m' ∈ ids) as Hid'
      by by eapply list_elem_of_lookup_2.
    destruct (newest (filter (λ m, msg_conversation_id m = msg_conversation_id m')
                        (messages supabase))) as [m1|] eqn:Hm1.
    + pose proof (Hrow _ Hid') as Hl. rewrite Hm1 in Hl.
      destruct (Hmax _ _ _ Hj Hl) as [Hle Hfirst]. simpl in Hle, Hfirst.
      apply newest_Some in Hm1 as [_ Hall].
      assert (msg_created_at m' <= msg_created_at m1)%Z as Hm'
        by (apply Hall; by apply list_elem_of_filter).
      apply new_Date_le in Hm'.
      split; [lia |]. split; [apply new_Date_within; lia |].
      intros Hji. specialize (Hfirst Hji). lia.
    + apply newest_None in Hm1.
      assert (m' ∈ filter (λ m, msg_conversation_id m = msg_conversation_id m')
                     (messages supabase)) as Hf by by apply list_elem_of_filter.
      rewrite Hm1 in Hf. by apply elem_of_nil in Hf.
  - intros m Hin Hid. specialize (Hnone eq_refl _ Hid).
    rewrite (Hrow _ Hid) in Hnone.
    destruct (newest _) as [m1|] eqn:Hm1; [done |].
    apply newest_None in Hm1.
    assert (m ∈ filter (λ m0, msg_conversation_id m0 = msg_conversation_id m)
                  (messages supabase)) as Hf by by apply list_elem_of_filter.
    rewrite Hm1 in Hf. by apply elem_of_nil in Hf.
Qed.

Lemma latest_message_by_millisecond_witness :
  match lastMessage Fixtures.scenario_chat with
  | None =>
      ∀ m, m ∈ messages Fixtures.scenario →
        msg_conversation_id m
        ∉ thread_ids_of (chat_counterpart Fixtures.scenario_chat)
            (conversationData Fixtures.scenario "creator")
  | Some latest =>
      ∃ i m,
        m ∈ messages Fixtures.scenario ∧
        thread_ids_of (chat_counterpart Fixtures.scenario_chat)
          (conversationData Fixtures.scenario "creator") !! i
        = Some (msg_conversation_id m) ∧
        latest
        = {| lm_content := msg_content m;
             lm_sender_type := msg_sender_type m;
             lm_created_at := msg_created_at m |} ∧
        (∀ m', m' ∈ messages Fixtures.scenario →
               msg_conversation_id m' = msg_conversation_id m →
               (msg_created_at m' <= msg_created_at m)%Z) ∧
        (∀ j m', m' ∈ messages Fixtures.scenario →
                 thread_ids_of (chat_counterpart Fixtures.scenario_chat)
                   (conversationData Fixtures.scenario "creator") !! j
                 = Some (msg_conversation_id m') →
                 (new_Date (msg_created_at m') <= new_Date (msg_created_at m))%Z ∧
                 (msg_created_at m' < msg_created_at m + 1000)%Z ∧
                 (j < i →
                  (new_Date (msg_created_at m')
                   < new_Date (msg_created_at m))%Z))
  end.
Proof.
  apply (latest_message_by_millisecond Fixtures.scenario "creator").
  - reflexivity.
  - vm_compute. apply list_elem_of_here.
Defined.

(** C4 fails on the code.  On [Fixtures.same_millisecond] the two threads of
    the counterpart hold one message each, 800 microseconds apart in the
    same millisecond.  Line 267 reads both dates as that millisecond, the
    strict comparison of line 268 keeps the candidate of the thread returned
    first, and the [lastMessage] of the consolidated thread is the older
    message, not the one with the greatest [created_at]. *)
Lemma latest_message_sub_millisecond :
  (fetchCreatorChats Fixtures.same_millisecond "creator" []).1
  = [Fixtures.same_millisecond_chat] ∧
  lastMessage Fixtures.same_millisecond_chat
  = Some (last_message_of (Fixtures.burst "older" "T1" 20000100%Z)) ∧
  Fixtures.burst "newer" "T2" 20000900%Z ∈ messages Fixtures.same_millisecond ∧
  msg_conversation_id (Fixtures.burst "newer" "T2" 20000900%Z)
  ∈ thread_ids_of (chat_counterpart Fixtures.same_millisecond_chat)
      (conversationData Fixtures.same_millisecond "creator") ∧
  (msg_created_at (Fixtures.burst "older" "T1" 20000100%Z)
   < msg_created_at (Fixtures.burst "newer" "T2" 20000900%Z))%Z ∧
  ¬ (∀ chat,
       chat ∈ (fetchCreatorChats Fixtures.same_millisecond "creator" []).1 →
       ∃ m latest,
         lastMessage chat = Some latest ∧
         m ∈ messages Fixtures.same_millisecond ∧
         latest = last_message_of m ∧
         ∀ m', m' ∈ messages Fixtures.same_millisecond →
               msg_conversation_id m'
               ∈ thread_ids_of (chat_counterpart chat)
                   (conversationData Fixtures.same_millisecond "creator") →
               (msg_created_at m' <= msg_created_at m)%Z).
Proof.
  assert ((fetchCreatorChats Fixtures.same_millisecond "creator" []).1
          = [Fixtures.same_millisecond_chat]) as Hrun by (by vm_compute).
  split; [exact Hrun |]. split; [reflexivity |].
  split; [right; left |]. split; [vm_compute; right; left |].
  split; [by vm_compute |].
  intros Hclaim.
  destruct (Hclaim Fixtures.same_millisecond_chat)
    as (m & latest & Hlast & Hm & -> & Hmax).
  { rewrite Hrun. left. }
  injection Hlast as Hcontent _ Hat.
  specialize (Hmax (Fixtures.burst "newer" "T2" 20000900%Z)).
  rewrite <- Hat in Hmax. vm_compute in Hmax.
  apply Hmax; [right; left | right; left | reflexivity].
Qed.

(** ** Order of the consolidated list *)

Lemma group_canonical_from l u :
  u ∈ JsMap.values (analystConversations (group_conversations l)) →
  ∃ c, c ∈ l ∧ uc_last_message_at u = conv_last_message_at c.
Proof.
  intros Hget%group_value.
  destruct (group_canonical _ _ _ Hget) as (_ & i & c & [Hi _] & _ & Hlm & _).
  exists c. split; [| done].
  apply list_elem_of_lookup_2 in Hi. by apply list_elem_of_filter in Hi as [_ ?].
Qed.

(** On rows returned most recent first, a group is seeded by its most
    recent thread and never replaced, so the groups are created in
    decreasing order of activity. *)
Lemma groups_by_activity l :
  most_recent_first l →
  StronglySorted
    (λ a b, older_or_same (uc_last_message_at b) (uc_last_message_at a))
    (JsMap.values (analystConversations (group_conversations l))).
Proof.
  unfold most_recent_first.
  induction l as [| c0 l IH] using rev_ind; intros Hsorted; [constructor |].
  apply StronglySorted_app in Hsorted as (Hlast & Hl & _).
  specialize (IH Hl).
  assert (∀ u, u ∈ JsMap.values (analystConversations (group_conversations l)) →
               older_or_same (conv_last_message_at c0) (uc_last_message_at u))
    as Hold.
  { intros u (c & Hc & ->)%group_canonical_from.
    apply Hlast; [done | apply list_elem_of_here]. }
  rewrite group_conversations_snoc, group_step_conversations.
  destruct (JsMap.get _ (analystConversations _)) as [e|] eqn:Hget.
  - rewrite (proj2 (more_recent_false _ _)); [done |].
    apply Hold, group_value.
    by destruct (group_canonical _ _ _ Hget) as [-> _].
  - rewrite jsmap_set_fresh by done. unfold JsMap.values. rewrite fmap_app.
    apply StronglySorted_app_2; [| done | repeat constructor].
    intros u ? Hu ->%list_elem_of_singleton. by apply Hold.
Qed.

Lemma process_analyst_activity am apps om lists um lm conv chat :
  chat ∈ process_analyst am apps om lists um lm conv →
  last_message_at chat = uc_last_message_at conv ∧
  chat_counterpart chat = uc_analyst_id conv.
Proof.
  unfold process_analyst.
  intros (p & -> & (app & _ & Hp)%list_elem_of_omap)%list_elem_of_fmap.
  apply format_project_Some in Hp as (o & _ & Hk & ->). done.
Qed.

Lemma same_activity_sorted (chats : list ProjectChat) t :
  (∀ chat, chat ∈ chats → last_message_at chat = t) → by_activity chats.
Proof.
  unfold by_activity. induction chats as [| c chats IH]; intros H; [constructor |].
  constructor.
  - apply IH. intros ? ?. by apply H, list_elem_of_further.
  - apply Forall_forall. intros c' Hc'.
    rewrite (H c), (H c') by eauto using list_elem_of_here, list_elem_of_further.
    apply older_or_same_refl.
Qed.

Lemma first_occurrences_snoc ks k :
  first_occurrences (ks ++ [k]) = JsSet.add k (first_occurrences ks).
Proof.
  induction ks as [| k0 ks IH]; [done |].
  cbn [app first_occurrences]. rewrite IH. unfold JsSet.add.
  destruct (decide (k = k0)) as [->|Hne].
  - rewrite (bool_decide_eq_true_2 (k0 ∈ k0 :: _)) by apply list_elem_of_here.
    f_equal. case_bool_decide; [done |].
    rewrite filter_app, filter_cons, decide_False by (by intros H'; apply H').
    by rewrite filter_nil, app_nil_r.
  - case_bool_decide as Hin.
    + rewrite bool_decide_eq_true_2; [done |].
      apply list_elem_of_further, list_elem_of_filter. done.
    + rewrite bool_decide_eq_false_2.
      * rewrite filter_app, filter_cons, decide_True by done.
        by rewrite filter_nil.
      * rewrite not_elem_of_cons, list_elem_of_filter. tauto.
Qed.

(** The groups are created in the order of the first thread of each
    counterpart. *)
Lemma group_ids_first_thread l :
  allAnalystIds (group_conversations l) = counterparts_by_first_thread l.
Proof.
  unfold counterparts_by_first_thread.
  induction l as [| c l IH] using rev_ind; [done |].
  rewrite group_conversations_snoc, group_step_ids, IH, fmap_app.
  change (conv_analyst_id <$> [c]) with [conv_analyst_id c].
  by rewrite first_occurrences_snoc.
Qed.

Lemma jsmap_values_by_key {V B} (key : V → string) (g : string → B)
  (m : JsMap.t V) :
  (∀ k v, (k, v) ∈ m → key v = k) →
  (λ v, g (key v)) <$> JsMap.values m = g <$> JsMap.keys m.
Proof.
  induction m as [| [k v] m IH]; intros Hkey; [done |].
  cbn [JsMap.values JsMap.keys map fst snd]. rewrite !fmap_cons.
  change (map snd m) with (JsMap.values m).
  change (map fst m) with (JsMap.keys m).
  rewrite (Hkey k v) by apply list_elem_of_here. f_equal.
  apply IH. intros k' v' Hin. by apply Hkey, list_elem_of_further.
Qed.

(** What one group contributes: its counterpart with each of its works, in
    the order of the applications. *)
Lemma process_analyst_works supabase userId conv :
  (λ chat, (chat_counterpart chat, project_id chat))
  <$> process_analyst (analystsMap supabase userId)
        (applications supabase userId) (opportunitiesMap supabase userId)
        (allConversationsByAnalyst (grouping supabase userId))
        (unreadCountsMap supabase userId) (latestMessagesMap supabase userId)
        conv
  = (λ app, (uc_analyst_id conv, app_id app))
    <$> works_of_counterpart supabase userId (uc_analyst_id conv).
Proof.
  unfold process_analyst, works_of_counterpart.
  rewrite <- list_fmap_compose.
  induction (or_empty (applications supabase userId)) as [| app l IH];
    [done |].
  rewrite filter_cons. cbn [omap list_omap].
  destruct (format_project _ conv app) as [p|] eqn:Hp.
  - apply format_project_Some in Hp as (o & Ho & Hk & ->).
    rewrite decide_True by (by rewrite Ho, <- Hk).
    rewrite !fmap_cons, IH. f_equal. cbn [compose].
    rewrite chat_counterpart_to_chat. by rewrite Hk.
  - rewrite decide_False; [done |].
    intros Hres.
    destruct (opportunitiesMap supabase userId !! app_opportunity_id app)
      as [o|] eqn:Ho; [| done].
    injection Hres as Hk.
    assert (is_Some (format_project (opportunitiesMap supabase userId) conv app))
      as [? ?]; [| congruence].
    exists (project_of app o). apply format_project_Some. by exists o.
Qed.

(** Without a null activity the default descending order is the order most
    recent first. *)
Lemma most_recent_first_without_null l :
  null_then_most_recent_first l →
  Forall (λ c, conv_last_message_at c ≠ None) l →
  most_recent_first l.
Proof.
  unfold null_then_most_recent_first, most_recent_first.
  induction 1 as [| a l Hs IH Hall]; intros Hnn; [constructor |].
  apply Forall_cons in Hnn as [Ha Hnn]. constructor; [by apply IH |].
  rewrite Forall_forall in Hall, Hnn. apply Forall_forall. intros b Hb.
  specialize (Hall b Hb). specialize (Hnn b Hb).
  destruct (conv_last_message_at a), (conv_last_message_at b); done.
Qed.

(** C7, as amended: the consolidated list keeps the groups in the order in
    which the store returned the first thread of each counterpart, and
    within a group the order of the applications.  When the store returned
    the threads most recent first, those without activity last, the list is
    therefore in decreasing order of the groups' canonical
    [last_message_at]; this covers the default descending order of the
    store, which puts the threads without activity first, when every
    returned thread has an activity.  Groups with the same activity keep the
    store's order and are not reordered by counterpart id.  The returned
    threads and applications are the actor's rows in the order of the
    store, and a work of a counterpart is an application whose opportunity
    is a row of the store owned by that counterpart. *)
Theorem consolidated_order supabase userId :
  let returned := conversationData supabase userId in
  let chats := (fetchCreatorChats supabase userId []).1 in
  (unavailable supabase (SelectConversations userId) = false →
   returned
   = filter (λ c, conv_creator_id c = userId) (conversations supabase)) ∧
  (unavailable supabase (SelectApplications userId) = false →
   or_empty (applications supabase userId)
   = application_data
     <$> filter (λ r, row_creator_id r = userId ∧ row_status r = "approved")
           (opportunity_applications supabase)) ∧
  (∀ k app,
     app ∈ works_of_counterpart supabase userId k →
     ∃ o, o ∈ opportunities supabase ∧ op_id o = app_opportunity_id app ∧
          op_analyst_id o = k) ∧
  (λ chat, (chat_counterpart chat, project_id chat)) <$> chats
  = concat
      ((λ k, (λ app, (k, app_id app)) <$> works_of_counterpart supabase userId k)
       <$> counterparts_by_first_thread returned) ∧
  (most_recent_first returned → by_activity chats) ∧
  (null_then_most_recent_first returned →
   Forall (λ c, conv_last_message_at c ≠ None) returned →
   by_activity chats).
Proof.
  intros returned chats. split; [apply conversationData_up |].
  split.
  { intros Hup. unfold applications, select_applications.
    by rewrite value_request_up. }
  split.
  { intros k app [Hres _]%list_elem_of_filter.
    destruct (opportunitiesMap supabase userId !! app_opportunity_id app)
      as [o|] eqn:Ho; [| done].
    injection Hres as Hk. apply opportunitiesMap_lookup in Ho as [? ?].
    by exists o. }
  cut ((λ chat, (chat_counterpart chat, project_id chat)) <$> chats
       = concat
           ((λ k, (λ app, (k, app_id app))
                  <$> works_of_counterpart supabase userId k)
            <$> counterparts_by_first_thread returned) ∧
       (most_recent_first returned → by_activity chats)).
  { intros [Horder Hactivity]. split; [done |]. split; [done |].
    intros Hdefault Hnn. by apply Hactivity, most_recent_first_without_null. }
  unfold chats, returned. rewrite fetchCreatorChats_value.
  unfold unifiedConversations. split.
  - rewrite <- group_ids_first_thread.
    destruct (group_keys (conversationData supabase userId)) as [Hkeys _].
    rewrite <- Hkeys. fold (grouping supabase userId).
    rewrite <- (jsmap_values_by_key uc_analyst_id
      (λ k, (λ app, (k, app_id app)) <$> works_of_counterpart supabase userId k)).
    + generalize (JsMap.values (analystConversations (grouping supabase userId)))
        as gs.
      induction gs as [| g gs IH]; [done |].
      rewrite !fmap_cons. cbn [concat].
      by rewrite fmap_app, IH, process_analyst_works.
    + intros k conv Hin. unfold grouping in Hin. apply jsmap_elem_get in Hin.
      * by destruct (group_canonical _ _ _ Hin).
      * rewrite (proj1 (group_keys _)). apply group_keys_NoDup.
  - set (f := process_analyst _ _ _ _ _ _).
    intros Hrecent%groups_by_activity. fold (grouping supabase userId) in Hrecent.
    revert Hrecent.
    generalize (JsMap.values (analystConversations (grouping supabase userId)))
      as gs.
    unfold by_activity. induction gs as [| g gs IH]; intros Hs; [constructor |].
    apply StronglySorted_cons in Hs as [Hg Hs]. simpl.
    apply StronglySorted_app_2.
    + intros c1 c2 [-> _]%process_analyst_activity
        (chats' & Hc2 & (g' & -> & Hg')%list_elem_of_fmap)%elem_of_concat.
      apply process_analyst_activity in Hc2 as [-> _].
      by apply (proj1 (Forall_forall _ _) Hg).
    + apply (same_activity_sorted _ (uc_last_message_at g)).
      intros chat Hchat. by apply process_analyst_activity in Hchat as [? _].
    + by apply IH.
Qed.

Lemma consolidated_order_witness :
  conversationData Fixtures.two_groups "creator"
  = filter (λ c, conv_creator_id c = "creator")
      (conversations Fixtures.two_groups) ∧
  or_empty (applications Fixtures.two_groups "creator")
  = application_data
    <$> filter (λ r, row_creator_id r = "creator" ∧ row_status r = "approved")
          (opportunity_applications Fixtures.two_groups) ∧
  (λ chat, (chat_counterpart chat, project_id chat))
  <$> (fetchCreatorChats Fixtures.two_groups "creator" []).1
  = [("A", "E1"); ("A", "E3"); ("B", "E2")] ∧
  most_recent_first (conversationData Fixtures.two_groups "creator") ∧
  null_then_most_recent_first (conversationData Fixtures.two_groups "creator") ∧
  by_activity (fetchCreatorChats Fixtures.two_groups "creator" []).1.
Proof.
  destruct (consolidated_order Fixtures.two_groups "creator")
    as (Hreturned & Happs & _ & Horder & Hactivity & Hdefault).
  assert (most_recent_first (conversationData Fixtures.two_groups "creator"))
    as Hrecent.
  { vm_compute. repeat constructor; discriminate. }
  split; [by apply Hreturned |]. split; [by apply Happs |].
  split; [rewrite Horder; by vm_compute |].
  split; [exact Hrecent |].
  assert (null_then_most_recent_first
            (conversationData Fixtures.two_groups "creator")) as Hnull.
  { change (conversationData Fixtures.two_groups "creator")
      with (conversations Fixtures.two_groups).
    unfold null_then_most_recent_first. repeat constructor; simpl; lia. }
  split; [exact Hnull |]. apply Hdefault; [exact Hnull |].
  change (conversationData Fixtures.two_groups "creator")
    with (conversations Fixtures.two_groups).
  repeat constructor; discriminate.
Defined.

(** C7, as stated, fails twice.  Two counterparts with the same last
    activity, returned by the store in a valid most-recent-first order, come
    out in that order, the greater counterpart id first.  And when the
    store returns the threads in the default order of a descending sort, a
    thread without activity first, the group seeded by that thread stays
    first although its canonical activity is the older one: the list is not
    in decreasing order of activity. *)
Lemma consolidated_order_counterexample :
  (most_recent_first (conversationData Fixtures.two_groups_tie "creator") ∧
   ¬ Sorted spec_order
       (fetchCreatorChats Fixtures.two_groups_tie "creator" []).1) ∧
  (null_then_most_recent_first (conversationData Fixtures.null_first "creator") ∧
   (λ chat, (chat_counterpart chat, last_message_at chat))
   <$> (fetchCreatorChats Fixtures.null_first "creator" []).1
   = [("A", Some 5%Z); ("B", Some 10%Z)] ∧
   ¬ by_activity (fetchCreatorChats Fixtures.null_first "creator" []).1 ∧
   ¬ Sorted spec_order (fetchCreatorChats Fixtures.null_first "creator" []).1).
Proof.
  split; [split | split; [| split; [| split]]].
  - vm_compute. repeat constructor; discriminate.
  - destruct (fetchCreatorChats Fixtures.two_groups_tie "creator" []).1
      as [| c1 [| c2 rest]] eqn:E; vm_compute in E; try discriminate E.
    injection E as <- <- <-. intros Hs.
    apply Sorted_inv in Hs as [_ Hhd]. apply HdRel_inv in Hhd.
    destruct Hhd as [Hnewer | [_ Hleb]].
    + apply Hnewer. vm_compute. discriminate.
    + vm_compute in Hleb. discriminate Hleb.
  - change (conversationData Fixtures.null_first "creator")
      with (conversations Fixtures.null_first).
    unfold null_then_most_recent_first. repeat constructor; simpl; lia.
  - by vm_compute.
  - destruct (fetchCreatorChats Fixtures.null_first "creator" []).1
      as [| c1 [| c2 rest]] eqn:E; vm_compute in E; try discriminate E.
    injection E as <- <- <-. unfold by_activity. intros Hs.
    apply StronglySorted_inv in Hs as [_ Hall].
    apply Forall_inv in Hall. simpl in Hall. lia.
  - destruct (fetchCreatorChats Fixtures.null_first "creator" []).1
      as [| c1 [| c2 rest]] eqn:E; vm_compute in E; try discriminate E.
    injection E as <- <- <-. intros Hs.
    apply Sorted_inv in Hs as [_ Hhd]. apply HdRel_inv in Hhd.
    destruct Hhd as [Hnewer | [Heq _]].
    + apply Hnewer. simpl. lia.
    + simpl in Heq. discriminate Heq.
Qed.

(** ** Failing operations *)

Lemma group_unreadCount_empty ids : group_unreadCount ∅ ids = 0.
Proof.
  rewrite group_unreadCount_sum. induction ids as [| id ids IH]; [done |].
  rewrite fmap_cons, lookup_empty. simpl. exact IH.
Qed.

Lemma group_lastMessage_empty ids : group_lastMessage ∅ ids = None.
Proof.
  unfold group_lastMessage.
  destruct (pick_latest_fold ∅ ids) as (_ & _ & Hsome).
  destruct (fold_left _ ids _).1 as [x|]; [| done].
  destruct (Hsome x eq_refl) as (i & id & msg & _ & Hl & _).
  by rewrite lookup_empty in Hl.
Qed.

(** C6, as amended: [fetchCreatorChats] never surfaces a failure of the
    store; its promise always fulfils with a list.  When the conversation
    fetch fails the list is empty and no other operation is issued.  A
    failure of a later operation is absorbed as an empty answer of that
    operation and the list built from the other answers is returned: no
    thread without the applications or the opportunities, [unread_count] 0
    without the unread messages, no [lastMessage] without the latest-message
    call. *)
Theorem store_failure_absorbed supabase userId :
  (∃ chats, (listConsolidatedThreads supabase userId).1 = Fulfilled chats) ∧
  (unavailable supabase (SelectConversations userId) = true →
   listConsolidatedThreads supabase userId
   = (Fulfilled [], [SelectConversations userId])) ∧
  (unavailable supabase (SelectApplications userId) = true →
   (listConsolidatedThreads supabase userId).1 = Fulfilled []) ∧
  (unavailable supabase (SelectOpportunities (opportunityIds supabase userId))
   = true →
   (listConsolidatedThreads supabase userId).1 = Fulfilled []) ∧
  (unavailable supabase
     (SelectUnreadMessages (allConvIds supabase userId) userId) = true →
   ∀ chat, chat ∈ (fetchCreatorChats supabase userId []).1 →
           unread_count chat = 0) ∧
  (unavailable supabase (RpcGetLatestMessages (allConvIds supabase userId))
   = true →
   ∀ chat, chat ∈ (fetchCreatorChats supabase userId []).1 →
           lastMessage chat = None).
Proof.
  assert (listConsolidatedThreads supabase userId
          = (Fulfilled (fetchCreatorChats supabase userId []).1,
             (fetchCreatorChats supabase userId []).2)) as ->
    by (unfold listConsolidatedThreads;
        by destruct (fetchCreatorChats supabase userId [])).
  cbn [fst]. split; [by eexists |].
  split; [| split; [| split; [| split]]].
  - intros Hdown. rewrite fetchCreatorChats_run, Hdown.
    unfold unifiedConversations, grouping.
    by rewrite conversationData_down.
  - intros Hdown. f_equal. apply elem_of_nil_inv. intros chat.
    intros (_ & app & _ & _ & Happ & _)%elem_of_consolidated.
    unfold applications, select_applications in Happ.
    rewrite value_request_down in Happ by done. by apply elem_of_nil in Happ.
  - intros Hdown. f_equal. apply elem_of_nil_inv. intros chat.
    intros (_ & app & o & _ & _ & Ho & _)%elem_of_consolidated.
    revert Ho. unfold opportunitiesMap, fetch_opportunitiesMap,
      select_opportunities.
    case_bool_decide; [| done].
    rewrite value_bind; [| apply framed_request | intros; apply framed_ret].
    by rewrite value_request_down.
  - intros Hdown chat (u & app & o & _ & _ & _ & _ & ->)%elem_of_consolidated.
    cbn [unread_count to_chat].
    unfold unreadCountsMap, fetch_unreadCountsMap, select_unread_messages.
    case_bool_decide; [| apply group_unreadCount_empty].
    rewrite value_bind; [| apply framed_request | intros; apply framed_ret].
    rewrite value_request_down by done. apply group_unreadCount_empty.
  - intros Hdown chat (u & app & o & _ & _ & _ & _ & ->)%elem_of_consolidated.
    cbn [lastMessage to_chat].
    unfold latestMessagesMap, fetch_latestMessagesMap, rpc_get_latest_messages.
    case_bool_decide; [| apply group_lastMessage_empty].
    rewrite value_bind; [| apply framed_request | intros; framed_auto].
    rewrite value_request_down by done. apply group_lastMessage_empty.
Qed.

Lemma store_failure_absorbed_witness :
  listConsolidatedThreads Fixtures.conversations_outage "creator"
  = (Fulfilled [], [SelectConversations "creator"]) ∧
  ∀ chat,
    chat ∈ (fetchCreatorChats Fixtures.unread_outage "creator" []).1 →
    unread_count chat = 0.
Proof.
  split.
  - apply (proj1 (proj2
      (store_failure_absorbed Fixtures.conversations_outage "creator"))).
    reflexivity.
  - apply (proj1 (proj2 (proj2 (proj2 (proj2
      (store_failure_absorbed Fixtures.unread_outage "creator")))))).
    reflexivity.
Defined.

(** C6, as stated, fails: with the unread-message fetch failing, the caller
    gets no failure but a list, built from the operations that answered. *)
Lemma store_failure_counterexample :
  ¬ ((∃ c, c ∈ (listConsolidatedThreads Fixtures.unread_outage "creator").2 ∧
           unavailable Fixtures.unread_outage c = true) →
     ∃ reason,
       (listConsolidatedThreads Fixtures.unread_outage "creator").1
       = Rejected reason).
Proof.
  intros H. destruct H as [reason Hrejected].
  - exists (SelectUnreadMessages ["A1"; "A2"; "B1"] "creator").
    split; [| reflexivity]. vm_compute. do 5 right. left.
  - vm_compute in Hrejected. discriminate Hrejected.
Qed.

(** * Further properties of the aggregation *)

(** ** Groups *)

(** X1: the id list the grouping keeps for a counterpart holds exactly the
    ids of the returned threads of that counterpart, as many as there are
    such threads and in the order the store returned them; a counterpart
    without a returned thread has no list. *)
Theorem group_thread_id_list supabase userId k :
  JsMap.get k (allConversationsByAnalyst (grouping supabase userId))
  = (if decide (threads_of k (conversationData supabase userId) = [])
     then None
     else Some (conv_id <$> threads_of k (conversationData supabase userId))) ∧
  length (or_empty (JsMap.get k
                      (allConversationsByAnalyst (grouping supabase userId))))
  = length (threads_of k (conversationData supabase userId)).
Proof.
  unfold grouping. split.
  - apply group_thread_ids.
  - rewrite group_conversationIds. unfold thread_ids_of. apply length_fmap.
Qed.

(** X2: grouping neither loses nor duplicates a thread: the ids sent to the
    unread-message fetch and to the latest-message call are the ids of the
    returned threads, each as often as it was returned. *)
Theorem all_thread_ids_kept supabase userId :
  allConvIds supabase userId ≡ₚ conv_id <$> conversationData supabase userId.
Proof. apply group_all_thread_ids. Qed.

(** X3: there is one group per counterpart of a returned thread: the two
    maps and the id set list the same keys in the same order, without
    repetition; a key is listed exactly when a returned thread has that
    counterpart, and the object stored under a key carries it as
    [analyst_id]. *)
Theorem one_group_per_counterpart supabase userId :
  let g := grouping supabase userId in
  JsMap.keys (analystConversations g) = allAnalystIds g ∧
  JsMap.keys (allConversationsByAnalyst g) = allAnalystIds g ∧
  NoDup (allAnalystIds g) ∧
  (∀ k, k ∈ allAnalystIds g ↔
        ∃ conv, conv ∈ conversationData supabase userId ∧
                conv_analyst_id conv = k) ∧
  (∀ k conv, (k, conv) ∈ analystConversations g → uc_analyst_id conv = k).
Proof.
  intros g. unfold g, grouping.
  destruct (group_keys (conversationData supabase userId)) as [Ha Hl].
  split; [done |]. split; [done |]. split; [apply group_keys_NoDup |]. split.
  - intros k. rewrite group_ids_elem, list_elem_of_fmap. split.
    + intros (conv & -> & Hin). by exists conv.
    + intros (conv & Hin & <-). by exists conv.
  - intros k conv Hin. apply jsmap_elem_get in Hin.
    + by destruct (group_canonical _ _ _ Hin).
    + rewrite Ha. apply group_keys_NoDup.
Qed.

(** ** Operations *)

Lemma group_ids_nil l : allAnalystIds (group_conversations l) = [] ↔ l = [].
Proof.
  split; [| by intros ->].
  intros Hnil. destruct l as [| c l]; [done |].
  assert (conv_analyst_id c ∈ allAnalystIds (group_conversations (c :: l))) as Hin.
  { apply group_ids_elem. rewrite fmap_cons. apply list_elem_of_here. }
  rewrite Hnil in Hin. by apply elem_of_nil in Hin.
Qed.

Lemma group_all_thread_ids_nil l :
  concat (JsMap.values (allConversationsByAnalyst (group_conversations l))) = []
  ↔ l = [].
Proof.
  split; [| by intros ->].
  intros Hnil. pose proof (group_all_thread_ids l) as Hperm.
  rewrite Hnil in Hperm. apply Permutation_nil_l in Hperm.
  symmetry in Hperm. by apply fmap_nil_inv in Hperm.
Qed.

(** X5: the operations of one run, in the order they are issued.  The
    conversation fetch comes first and is the only operation when it fails.
    Otherwise the application fetch is always issued; the two identity
    fetches, the unread-message fetch and the latest-message call are issued
    exactly when a thread was returned, and the opportunity fetch exactly
    when an application was. *)
Theorem operations_issued supabase userId :
  (fetchCreatorChats supabase userId []).2
  = if unavailable supabase (SelectConversations userId)
    then [SelectConversations userId]
    else
      SelectConversations userId ::
      (if decide (conversationData supabase userId = []) then []
       else [SelectAnalysts (allAnalystIds (grouping supabase userId));
             SelectProfiles (allAnalystIds (grouping supabase userId))]) ++
      SelectApplications userId ::
      (if decide (or_empty (applications supabase userId) = []) then []
       else [SelectOpportunities (opportunityIds supabase userId)]) ++
      (if decide (conversationData supabase userId = []) then []
       else [SelectUnreadMessages (allConvIds supabase userId) userId;
             RpcGetLatestMessages (allConvIds supabase userId)]).
Proof.
  rewrite fetchCreatorChats_run. cbn [snd app].
  destruct (unavailable supabase (SelectConversations userId)); [done |].
  rewrite calls_fetch_analystsMap, calls_fetch_opportunitiesMap,
    calls_fetch_unreadCountsMap, calls_fetch_latestMessagesMap.
  assert (∀ (A : Type) (l : list A) (x y : list Call),
    (if bool_decide (0 < length l) then x else y)
    = if decide (l = []) then y else x) as Hlen.
  { intros A [| a l] x y; [done |]. rewrite bool_decide_eq_true_2 by (simpl; lia).
    by rewrite decide_False. }
  rewrite !Hlen. unfold allConvIds, opportunityIds, grouping.
  destruct (decide (conversationData supabase userId = [])) as [Hnil|Hne].
  - rewrite (decide_True (P := allAnalystIds _ = []))
      by (by apply group_ids_nil).
    rewrite !(decide_True (P := concat _ = []))
      by (by apply group_all_thread_ids_nil).
    simpl. f_equal. f_equal.
    destruct (or_empty (applications supabase userId)); [done |].
    by rewrite !decide_False.
  - rewrite (decide_False (P := allAnalystIds _ = []))
      by (by rewrite group_ids_nil).
    rewrite !(decide_False (P := concat _ = []))
      by (by rewrite group_all_thread_ids_nil).
    simpl. do 4 f_equal.
    destruct (or_empty (applications supabase userId)); [done |].
    by rewrite !decide_False.
Qed.

(** ** Consolidated threads *)

(** X4: the consolidated threads of one counterpart share their messaging
    metadata: canonical thread id, last activity, latest message, unread
    count, custom title, tags, and the counterpart's name and avatar. *)
Theorem metadata_shared_by_counterpart supabase userId chat1 chat2 :
  chat1 ∈ (fetchCreatorChats supabase userId []).1 →
  chat2 ∈ (fetchCreatorChats supabase userId []).1 →
  chat_counterpart chat1 = chat_counterpart chat2 →
  conversation_id chat1 = conversation_id chat2 ∧
  last_message_at chat1 = last_message_at chat2 ∧
  lastMessage chat1 = lastMessage chat2 ∧
  unread_count chat1 = unread_count chat2 ∧
  custom_title chat1 = custom_title chat2 ∧
  tags chat1 = tags chat2 ∧
  ca_name <$> analyst chat1 = ca_name <$> analyst chat2 ∧
  (analyst chat1 ≫= ca_avatar_url) = (analyst chat2 ≫= ca_avatar_url).
Proof.
  intros (u1 & app1 & o1 & Hu1 & _ & _ & Hk1 & ->)%elem_of_consolidated
         (u2 & app2 & o2 & Hu2 & _ & _ & Hk2 & ->)%elem_of_consolidated.
  rewrite !chat_counterpart_to_chat, Hk1, Hk2. intros Hk.
  rewrite Hk in Hu1. rewrite Hu1 in Hu2. injection Hu2 as ->.
  done.
Qed.

Lemma metadata_shared_by_counterpart_witness :
  conversation_id (Fixtures.two_works_chat "E1" "W1")
  = conversation_id (Fixtures.two_works_chat "E2" "W2") ∧
  last_message_at (Fixtures.two_works_chat "E1" "W1")
  = last_message_at (Fixtures.two_works_chat "E2" "W2") ∧
  lastMessage (Fixtures.two_works_chat "E1" "W1")
  = lastMessage (Fixtures.two_works_chat "E2" "W2") ∧
  unread_count (Fixtures.two_works_chat "E1" "W1")
  = unread_count (Fixtures.two_works_chat "E2" "W2") ∧
  custom_title (Fixtures.two_works_chat "E1" "W1")
  = custom_title (Fixtures.two_works_chat "E2" "W2") ∧
  tags (Fixtures.two_works_chat "E1" "W1")
  = tags (Fixtures.two_works_chat "E2" "W2") ∧
  ca_name <$> analyst (Fixtures.two_works_chat "E1" "W1")
  = ca_name <$> analyst (Fixtures.two_works_chat "E2" "W2") ∧
  (analyst (Fixtures.two_works_chat "E1" "W1") ≫= ca_avatar_url)
  = (analyst (Fixtures.two_works_chat "E2" "W2") ≫= ca_avatar_url).
Proof.
  apply (metadata_shared_by_counterpart Fixtures.two_works "creator").
  - vm_compute. apply list_elem_of_here.
  - vm_compute. apply list_elem_of_further, list_elem_of_here.
  - reflexivity.
Defined.

(** X6: every consolidated thread is built from rows of the store that
    belong to the actor: a thread of the actor, an approved application of
    the actor, and the opportunity that application refers to, owned by the
    thread's counterpart.  The thread carries the application id as
    [project_id], the id of a thread of that counterpart as
    [conversation_id], and the opportunity's id, title and company with
    status "active"; its [created_by] is the opportunity's [analyst_id], not
    the [created_by] column. *)
Theorem thread_built_from_actor_rows supabase userId chat :
  chat ∈ (fetchCreatorChats supabase userId []).1 →
  ∃ conv r o,
    conv ∈ conversations supabase ∧ conv_creator_id conv = userId ∧
    r ∈ opportunity_applications supabase ∧ row_creator_id r = userId ∧
    row_status r = "approved" ∧
    o ∈ opportunities supabase ∧ op_id o = row_opportunity_id r ∧
    op_analyst_id o = conv_analyst_id conv ∧
    project_id chat = row_id r ∧
    opportunity_id chat = op_id o ∧
    conversation_id chat = Some (conv_id conv) ∧
    opportunity chat
    = Some {| co_id := op_id o; co_title := op_title o;
              co_company := op_company o; co_status := "active";
              co_analyst_id := op_analyst_id o;
              co_created_by := op_analyst_id o |} ∧
    (ca_company <$> analyst chat) = Some (op_company o).
Proof.
  intros (u & app & o & Hu & Happ & Ho & Hk & ->)%elem_of_consolidated.
  apply applications_elem in Happ as (r & Hr & -> & Hcreator & Hstatus).
  apply opportunitiesMap_lookup in Ho as [Ho Hid].
  destruct (group_canonical _ _ _ Hu)
    as (_ & i & c & [Hi _] & Huid & _).
  apply list_elem_of_lookup_2, list_elem_of_filter in Hi as [Hc Hin].
  assert (c ∈ conversations supabase ∧ conv_creator_id c = userId) as [? ?].
  { destruct (unavailable supabase (SelectConversations userId)) eqn:Hup.
    - rewrite conversationData_down in Hin by done. by apply elem_of_nil in Hin.
    - rewrite conversationData_up in Hin by done.
      by apply list_elem_of_filter in Hin as [? ?]. }
  exists c, r, o. cbn in *. rewrite Hid, Huid.
  repeat (split; [done || congruence |]). done.
Qed.

Lemma thread_built_from_actor_rows_witness :
  ∃ conv r o,
    conv ∈ conversations Fixtures.scenario ∧ conv_creator_id conv = "creator" ∧
    r ∈ opportunity_applications Fixtures.scenario ∧
    row_creator_id r = "creator" ∧ row_status r = "approved" ∧
    o ∈ opportunities Fixtures.scenario ∧ op_id o = row_opportunity_id r ∧
    op_analyst_id o = conv_analyst_id conv ∧
    project_id Fixtures.scenario_chat = row_id r ∧
    opportunity_id Fixtures.scenario_chat = op_id o ∧
    conversation_id Fixtures.scenario_chat = Some (conv_id conv) ∧
    opportunity Fixtures.scenario_chat
    = Some {| co_id := op_id o; co_title := op_title o;
              co_company := op_company o; co_status := "active";
              co_analyst_id := op_analyst_id o;
              co_created_by := op_analyst_id o |} ∧
    (ca_company <$> analyst Fixtures.scenario_chat) = Some (op_company o).
Proof.
  apply (thread_built_from_actor_rows Fixtures.scenario "creator").
  vm_compute. apply list_elem_of_here.
Defined.

Lemma older_or_same_antisym a b :
  older_or_same a b → older_or_same b a → a = b.
Proof. destruct a, b; simpl; try done. intros. f_equal. lia. Qed.

Lemma StronglySorted_filter_keep {A} (R : relation A) (P : A → Prop)
  `{!∀ x, Decision (P x)} (l : list A) :
  StronglySorted R l → StronglySorted R (filter P l).
Proof.
  induction 1 as [| x l Hs IH Hx]; [constructor |].
  rewrite filter_cons. destruct (decide (P x)); [| done].
  constructor; [done |]. apply Forall_forall.
  intros y [_ Hy]%list_elem_of_filter. by apply (proj1 (Forall_forall _ _) Hx).
Qed.

Lemma StronglySorted_lookup_lt {A} (R : relation A) (l : list A) i j a b :
  StronglySorted R l → l !! i = Some a → l !! j = Some b → i < j → R a b.
Proof.
  intros Hs Hi Hj Hlt. rewrite <- (take_drop j l) in Hs.
  apply (StronglySorted_app_1_elem_of _ _ _ _ _ Hs).
  - apply (list_elem_of_lookup_2 _ i). by rewrite lookup_take_lt.
  - apply (list_elem_of_lookup_2 _ 0). by rewrite lookup_drop, Nat.add_0_r.
Qed.

(** X7: when the store returns the threads most recent first (null last),
    the canonical thread of every consolidated thread is the first returned
    thread of its counterpart, as the comment of line 103 says: no later
    thread ever replaces it. *)
Theorem canonical_is_first_returned supabase userId chat :
  most_recent_first (conversationData supabase userId) →
  chat ∈ (fetchCreatorChats supabase userId []).1 →
  ∃ conv,
    head (threads_of (chat_counterpart chat) (conversationData supabase userId))
    = Some conv ∧
    conversation_id chat = Some (conv_id conv) ∧
    last_message_at chat = conv_last_message_at conv ∧
    custom_title chat = or_null (conv_custom_title conv) ∧
    tags chat = or_empty (conv_tags conv).
Proof.
  intros Hsorted (u & app & o & Hu & _ & _ & Hk & ->)%elem_of_consolidated.
  rewrite chat_counterpart_to_chat, Hk.
  destruct (group_canonical _ _ _ Hu)
    as (_ & i & c & [Hi Hmax] & Hid & Hlm & Ht & Hg).
  set (T := threads_of (uc_analyst_id u) (conversationData supabase userId)) in *.
  assert (i = 0) as ->.
  { destruct i as [| i]; [done |]. exfalso.
    destruct (T !! 0) as [c0|] eqn:H0.
    - destruct (Hmax 0 c0 H0) as [Hle Hfirst].
      assert (older_or_same (conv_last_message_at c) (conv_last_message_at c0))
        as Hge.
      { apply (StronglySorted_lookup_lt
          (λ a b, older_or_same (conv_last_message_at b) (conv_last_message_at a))
          T 0 (S i)); [| done | done | lia].
        by apply StronglySorted_filter_keep. }
      specialize (Hfirst (older_or_same_antisym _ _ Hle Hge)). lia.
    - apply lookup_ge_None in H0. apply lookup_lt_Some in Hi. lia. }
  exists c. rewrite head_lookup. cbn. by rewrite Hid, Hlm, Ht, Hg.
Qed.

Lemma canonical_is_first_returned_witness :
  ∃ conv,
    head (threads_of (chat_counterpart Fixtures.scenario_chat)
            (conversationData Fixtures.scenario "creator"))
    = Some conv ∧
    conversation_id Fixtures.scenario_chat = Some (conv_id conv) ∧
    last_message_at Fixtures.scenario_chat = conv_last_message_at conv ∧
    custom_title Fixtures.scenario_chat = or_null (conv_custom_title conv) ∧
    tags Fixtures.scenario_chat = or_empty (conv_tags conv).
Proof.
  apply (canonical_is_first_returned Fixtures.scenario "creator").
  - vm_compute. repeat constructor; discriminate.
  - vm_compute. apply list_elem_of_here.
Defined.

Lemma length_concat_sum {A} (ls : list (list A)) :
  length (concat ls) = sum_list (length <$> ls).
Proof.
  induction ls as [| l ls IH]; [done |].
  simpl. rewrite length_app, IH. done.
Qed.

(** The rows of [l] whose optional key [f] is one of [ks]. *)
Lemma keyed_rows_split {A} (f : A → option string) (k : string)
  (ks : list string) (l : list A) :
  k ∉ ks →
  length (filter (λ a, f a ∈ Some <$> k :: ks) l)
  = length (filter (λ a, f a = Some k) l)
    + length (filter (λ a, f a ∈ Some <$> ks) l).
Proof.
  intros Hk. induction l as [| a l IH]; [done |].
  rewrite !filter_cons, fmap_cons.
  destruct (decide (f a ∈ Some k :: (Some <$> ks))) as [Hin|Hout],
    (decide (f a = Some k)) as [Heq|Hne],
    (decide (f a ∈ Some <$> ks)) as [Hks|Hks];
    simpl; rewrite ?fmap_cons in IH; try lia; exfalso.
  - rewrite Heq in Hks.
    by apply list_elem_of_fmap in Hks as (x & [= <-] & ?).
  - apply elem_of_cons in Hin as [?|?]; done.
  - rewrite Heq in Hout. apply Hout, list_elem_of_here.
  - rewrite Heq in Hout. apply Hout, list_elem_of_here.
  - by apply Hout, list_elem_of_further.
Qed.

Lemma keyed_rows_sum {A} (f : A → option string) (ks : list string)
  (l : list A) :
  NoDup ks →
  sum_list ((λ k, length (filter (λ a, f a = Some k) l)) <$> ks)
  = length (filter (λ a, f a ∈ Some <$> ks) l).
Proof.
  induction 1 as [| k ks Hk Hnd IH].
  - symmetry. apply length_zero_iff_nil, elem_of_nil_inv.
    intros a [Ha _]%list_elem_of_filter. by apply elem_of_nil in Ha.
  - rewrite fmap_cons. change (sum_list (?x :: ?y)) with (x + sum_list y).
    rewrite IH. symmetry. by apply keyed_rows_split.
Qed.

Lemma length_process_analyst am apps om lists um lm conv :
  length (process_analyst am apps om lists um lm conv)
  = length (filter (λ app, op_analyst_id <$> om !! app_opportunity_id app
                           = Some (uc_analyst_id conv))
              (or_empty apps)).
Proof.
  rewrite <- (length_fmap project_id), process_analyst_project_ids, length_fmap.
  apply length_filter_ext. intros app _. split.
  - intros [p (o & -> & <- & _)%format_project_Some]. done.
  - intros Ho. destruct (om !! app_opportunity_id app) as [o|] eqn:Hom; [| done].
    injection Ho as Ho. exists (project_of app o).
    apply format_project_Some. by exists o.
Qed.

(** X8: the number of consolidated threads is the number of returned
    applications whose opportunity resolves and is owned by a counterpart of
    a returned thread; in particular the list is never longer than the list
    of approved applications. *)
Theorem consolidated_count supabase userId :
  length (fetchCreatorChats supabase userId []).1
  = length
      (filter
         (λ app,
            op_analyst_id
            <$> opportunitiesMap supabase userId !! app_opportunity_id app
            ∈ Some <$> allAnalystIds (grouping supabase userId))
         (or_empty (applications supabase userId))) ∧
  (length (fetchCreatorChats supabase userId []).1
   <= length (or_empty (applications supabase userId)))%nat.
Proof.
  assert (length (fetchCreatorChats supabase userId []).1
    = length
      (filter
         (λ app,
            op_analyst_id
            <$> opportunitiesMap supabase userId !! app_opportunity_id app
            ∈ Some <$> allAnalystIds (grouping supabase userId))
         (or_empty (applications supabase userId)))) as Hcount.
  { rewrite fetchCreatorChats_value, length_concat_sum.
    unfold unifiedConversations. rewrite <- list_fmap_compose.
    rewrite <- keyed_rows_sum by apply group_keys_NoDup.
    unfold grouping.
    destruct (group_keys (conversationData supabase userId)) as [<- _].
    assert (∀ k conv,
      (k, conv) ∈ analystConversations
                    (group_conversations (conversationData supabase userId)) →
      uc_analyst_id conv = k) as Hentry.
    { intros k conv Hin. apply jsmap_elem_get in Hin.
      - by destruct (group_canonical _ _ _ Hin).
      - rewrite (proj1 (group_keys _)). apply group_keys_NoDup. }
    revert Hentry.
    generalize (allConversationsByAnalyst
                  (group_conversations (conversationData supabase userId))).
    generalize (analystConversations
                  (group_conversations (conversationData supabase userId))).
    intros m lists Hentry. induction m as [| [k conv] m IH]; [done |].
    cbn [JsMap.values JsMap.keys map fst snd].
    change (map snd m) with (JsMap.values m).
    change (map fst m) with (JsMap.keys m).
    rewrite !fmap_cons.
    change (sum_list (?x :: ?y)) with (x + sum_list y).
    rewrite IH by (intros ? ? ?; by apply Hentry, list_elem_of_further).
    f_equal. cbn [compose]. rewrite length_process_analyst.
    by rewrite (Hentry k conv) by apply list_elem_of_here. }
  split; [done |]. rewrite Hcount. apply length_filter.
Qed.

Lemma analystsMap_lookup supabase userId k :
  k ∈ allAnalystIds (grouping supabase userId) →
  analystsMap supabase userId !! k
  = Some (resolve_identity
            (data (value (select_analysts supabase
                            (allAnalystIds (grouping supabase userId)))))
            (data (value (select_profiles supabase
                            (allAnalystIds (grouping supabase userId)))))
            k).
Proof.
  intros Hin. unfold analystsMap, fetch_analystsMap.
  rewrite bool_decide_eq_true_2
    by (destruct (allAnalystIds _); [by apply elem_of_nil in Hin | simpl; lia]).
  rewrite value_bind;
    [| apply framed_request | intros; unfold select_profiles; framed_auto].
  rewrite value_bind; [| apply framed_request | intros; framed_auto].
  rewrite value_ret. by apply fold_insert_resolved.
Qed.

Lemma find_by_id_unresolved {A} (key : A → string) id (ids : list string)
  (rows : list A) supabase c :
  unavailable supabase c = true ∨ (∀ r, r ∈ rows → key r ≠ id) →
  find_by_id key id
    (data (value (request supabase c (filter (λ r, key r ∈ ids) rows))))
  = None.
Proof.
  intros [Hdown | Hnone].
  - by rewrite value_request_down.
  - destruct (unavailable supabase c) eqn:Hup;
      [by rewrite value_request_down |].
    rewrite value_request_up by done. cbn [data].
    destruct (find_by_id _ _ _) as [r|] eqn:Hfind; [| done].
    apply find_by_id_Some in Hfind as [[_ Hr]%list_elem_of_filter Hk].
    by destruct (Hnone r Hr).
Qed.

(** X9: a counterpart that cannot be resolved does not block its threads.
    When each identity source either fails to answer or holds no row for the
    counterpart, every consolidated thread of that counterpart is still
    emitted, under the name "Analista" and without avatar. *)
Theorem unresolved_identity_is_sentinel supabase userId chat :
  chat ∈ (fetchCreatorChats supabase userId []).1 →
  (unavailable supabase
     (SelectAnalysts (allAnalystIds (grouping supabase userId))) = true ∨
   ∀ a, a ∈ analysts supabase → an_id a ≠ chat_counterpart chat) →
  (unavailable supabase
     (SelectProfiles (allAnalystIds (grouping supabase userId))) = true ∨
   ∀ p, p ∈ profiles supabase → pr_id p ≠ chat_counterpart chat) →
  ca_name <$> analyst chat = Some "Analista" ∧
  (analyst chat ≫= ca_avatar_url) = None.
Proof.
  intros (u & app & o & Hu & _ & _ & Hk & ->)%elem_of_consolidated.
  rewrite chat_counterpart_to_chat, Hk. intros Ha Hp.
  assert (uc_analyst_id u ∈ allAnalystIds (grouping supabase userId)) as Hin.
  { unfold grouping. rewrite <- (proj1 (group_keys _)).
    destruct (decide (uc_analyst_id u ∈ JsMap.keys (analystConversations
      (group_conversations (conversationData supabase userId))))) as [|Hn];
      [done |].
    apply jsmap_get_None in Hn. unfold grouping in Hu. congruence. }
  cbn [analyst to_chat]. rewrite analystsMap_lookup by done.
  unfold resolve_identity, select_analysts, select_profiles.
  rewrite (find_by_id_unresolved an_id) by done.
  rewrite (find_by_id_unresolved pr_id) by done.
  done.
Qed.

Lemma unresolved_identity_is_sentinel_witness :
  ca_name <$> analyst Fixtures.anonymous_chat = Some "Analista" ∧
  (analyst Fixtures.anonymous_chat ≫= ca_avatar_url) = None.
Proof.
  apply (unresolved_identity_is_sentinel Fixtures.identity_outage "creator").
  - vm_compute. apply list_elem_of_here.
  - left. reflexivity.
  - left. reflexivity.
Defined.

Lemma thread_core_process am1 am2 apps om lists1 lists2 um1 um2 lm1 lm2 conv :
  thread_core <$> process_analyst am1 apps om lists1 um1 lm1 conv
  = thread_core <$> process_analyst am2 apps om lists2 um2 lm2 conv.
Proof.
  unfold process_analyst. rewrite <- !list_fmap_compose.
  by apply list_fmap_ext.
Qed.

Lemma fmap_concat_ext {A B C} (f g : A → list B) (h : B → C) (l : list A) :
  (∀ a, h <$> f a = h <$> g a) →
  h <$> concat (f <$> l) = h <$> concat (g <$> l).
Proof.
  intros Hfg. induction l as [| a l IH]; [done |].
  rewrite !fmap_cons. cbn [concat]. by rewrite !fmap_app, IH, Hfg.
Qed.

(** X10: which threads are consolidated, and with which project,
    opportunity, canonical thread, last activity, title and tags, depends
    only on the conversation, application and opportunity fetches: the
    messages, the identity sources and the failure of the fetches that read
    them change the counts, the latest message and the names, never the list
    of threads. *)
Theorem messaging_fetches_do_not_select supabase1 supabase2 userId :
  same_threads_and_works supabase1 supabase2 →
  thread_core <$> (fetchCreatorChats supabase1 userId []).1
  = thread_core <$> (fetchCreatorChats supabase2 userId []).1.
Proof.
  intros (Hconv & Happs & Hopps & Hup).
  assert (conversationData supabase1 userId = conversationData supabase2 userId)
    as Hcd.
  { unfold conversationData, select_conversations, value, request. simpl.
    by rewrite Hconv, (Hup (SelectConversations userId)). }
  assert (applications supabase1 userId = applications supabase2 userId) as Ha.
  { unfold applications, select_applications, value, request. simpl.
    by rewrite Happs, (Hup (SelectApplications userId)). }
  assert (opportunitiesMap supabase1 userId = opportunitiesMap supabase2 userId)
    as Hom.
  { unfold opportunitiesMap, opportunityIds. rewrite Ha.
    unfold fetch_opportunitiesMap, select_opportunities.
    case_bool_decide; [| done].
    rewrite !value_bind;
      [| apply framed_request | intros; apply framed_ret
       | apply framed_request | intros; apply framed_ret].
    unfold value, request. simpl.
    by rewrite Hopps, (Hup (SelectOpportunities _)). }
  rewrite !fetchCreatorChats_value. unfold unifiedConversations, grouping.
  rewrite Hcd, Ha, Hom.
  apply fmap_concat_ext. intros conv. apply thread_core_process.
Qed.

Lemma messaging_fetches_do_not_select_witness :
  thread_core <$> (fetchCreatorChats Fixtures.scenario "creator" []).1
  = thread_core <$> (fetchCreatorChats Fixtures.unread_outage "creator" []).1.
Proof.
  apply messaging_fetches_do_not_select.
  split; [reflexivity |]. split; [reflexivity |]. split; [reflexivity |].
  by intros [].
Defined.

(** * The analyst overview *)

Lemma count_candidates_fold (ids : list string) (acc : gmap string nat) k :
  default 0
    (fold_left
       (λ (acc : gmap string nat) opportunity_id,
          <[opportunity_id := default 0 (acc !! opportunity_id) + 1]> acc)
       ids acc !! k)
  = default 0 (acc !! k) + length (filter (λ id, id = k) ids).
Proof.
  revert acc. induction ids as [| id ids IH]; intros acc; simpl; [lia |].
  rewrite IH, filter_cons. destruct (decide (id = k)) as [->|Hne].
  - rewrite lookup_insert_eq. simpl. lia.
  - by rewrite lookup_insert_ne.
Qed.

Lemma count_candidates_lookup (ids : list string) k :
  default 0 (Overview.count_candidates ids !! k)
  = length (filter (λ id, id = k) ids).
Proof.
  unfold Overview.count_candidates. rewrite count_candidates_fold.
  by rewrite lookup_empty.
Qed.

(** X11: when the two fetches answer, the dashboard shows at most five
    opportunities, the first five of the actor in the order of the query,
    and the [candidates_count] of each is the number of application rows, of
    any status, that refer to it; the other columns are shown as stored. *)
Theorem recent_candidate_counts supabase user_id st :
  let mine :=
    Overview.order_created_at_desc
      (filter (λ o, Overview.o_created_by o = user_id)
         (Overview.bk_opportunities supabase)) in
  let shown :=
    Overview.recentOpportunities
      (Overview.fetchDashboardData supabase (Some user_id) st).1 in
  Overview.bk_unavailable supabase (Overview.SelectRecentOpportunities user_id)
  = false →
  Overview.bk_unavailable supabase
    (Overview.SelectApplicationsOf (Overview.o_id <$> take 5 mine)) = false →
  (length shown <= 5)%nat ∧
  Forall2
    (λ op' op,
       Overview.o_candidates_count op'
       = length (filter (λ a, Overview.a_opportunity_id a = Overview.o_id op)
                   (Overview.bk_applications supabase)) ∧
       op' = Overview.with_candidates_count
               {[Overview.o_id op := Overview.o_candidates_count op']} op)
    shown (take 5 mine).
Proof.
  intros mine shown Hrecent Happs.
  assert (∀ A (rows : list A),
    Overview.answer supabase (Overview.SelectRecentOpportunities user_id) rows
    = {| data := Some rows; error := None |}) as Hr
    by (intros; unfold Overview.answer; by rewrite Hrecent).
  assert (∀ A (rows : list A),
    Overview.answer supabase
      (Overview.SelectApplicationsOf (Overview.o_id <$> take 5 mine)) rows
    = {| data := Some rows; error := None |}) as Ha
    by (intros; unfold Overview.answer; by rewrite Happs).
  unfold shown, Overview.fetchDashboardData. cbv zeta. fold mine.
  rewrite !Hr. cbn [data].
  destruct (take 5 mine) as [| op rows] eqn:Htake.
  - cbn. split; [lia | constructor].
  - rewrite !Ha. cbn [data error fst snd].
    cbn [Overview.recentOpportunities Overview.setLoading
           Overview.setRecentOpportunities].
    split.
    + rewrite length_fmap, <- Htake, length_take. lia.
    + apply Forall2_fmap_l, Forall_Forall2_diag, Forall_forall.
      intros o Ho.
      assert (Overview.o_candidates_count
                (Overview.with_candidates_count
                   (Overview.count_candidates
                      (Overview.a_opportunity_id
                       <$> filter
                             (λ a, Overview.a_opportunity_id a
                                   ∈ Overview.o_id <$> op :: rows)
                             (Overview.bk_applications supabase))) o)
              = length (filter (λ a, Overview.a_opportunity_id a = Overview.o_id o)
                          (Overview.bk_applications supabase))) as Hcount.
      { cbn [Overview.o_candidates_count Overview.with_candidates_count].
        rewrite count_candidates_lookup, length_filter_fmap,
          length_filter_filter.
        apply length_filter_ext. intros a _. split; [by intros [? _] |].
        intros Hid. split; [done |]. rewrite Hid. by apply list_elem_of_fmap_2. }
      split; [exact Hcount |].
      unfold Overview.with_candidates_count at 2.
      cbn [Overview.o_id Overview.o_title Overview.o_company
             Overview.o_description Overview.o_budget_min
             Overview.o_budget_max Overview.o_location
             Overview.o_content_type Overview.o_requirements
             Overview.o_deadline Overview.o_status Overview.o_created_at
             Overview.o_created_by].
      by rewrite lookup_singleton_eq.
Qed.

Lemma recent_candidate_counts_witness :
  (length
     (Overview.recentOpportunities
        (Overview.fetchDashboardData OverviewFixtures.dashboard
           (Some "analyst") Overview.initial).1) <= 5)%nat ∧
  Forall2
    (λ op' op,
       Overview.o_candidates_count op'
       = length (filter (λ a, Overview.a_opportunity_id a = Overview.o_id op)
                   (Overview.bk_applications OverviewFixtures.dashboard)) ∧
       op' = Overview.with_candidates_count
               {[Overview.o_id op := Overview.o_candidates_count op']} op)
    (Overview.recentOpportunities
       (Overview.fetchDashboardData OverviewFixtures.dashboard
          (Some "analyst") Overview.initial).1)
    (take 5
       (Overview.order_created_at_desc
          (filter (λ o, Overview.o_created_by o = "analyst")
             (Overview.bk_opportunities OverviewFixtures.dashboard)))).
Proof.
  apply (recent_candidate_counts OverviewFixtures.dashboard "analyst"
           Overview.initial); reflexivity.
Defined.

Lemma length_filter_disjoint {A} (P Q : A → Prop) `{!∀ x, Decision (P x)}
  `{!∀ x, Decision (Q x)} (l : list A) :
  (∀ x, P x → Q x → False) →
  (length (filter P l) + length (filter Q l) <= length l)%nat.
Proof.
  intros Hdisj. induction l as [| x l IH]; [done |].
  rewrite !filter_cons.
  destruct (decide (P x)) as [HP|], (decide (Q x)) as [HQ|]; simpl; try lia.
  destruct (Hdisj x HP HQ).
Qed.

(** X12: each figure of the dashboard is the number of rows its count query
    matches, and 0 when that query fails.  When the three opportunity counts
    answer, active and completed campaigns together never exceed the
    total. *)
Theorem dashboard_stats supabase user_id st :
  let mine :=
    filter (λ o, Overview.o_created_by o = user_id)
      (Overview.bk_opportunities supabase) in
  let shown :=
    Overview.stats (Overview.fetchDashboardData supabase (Some user_id) st).1 in
  let figure (q : Overview.Query) (n : nat) :=
    if Overview.bk_unavailable supabase q then 0 else n in
  Overview.activeOpportunities shown
  = figure (Overview.CountOpportunities user_id (Some "ativo"))
      (length (filter (λ o, Overview.o_status o = "ativo") mine)) ∧
  Overview.completedOpportunities shown
  = figure (Overview.CountOpportunities user_id (Some "concluido"))
      (length (filter (λ o, Overview.o_status o = "concluido") mine)) ∧
  Overview.totalOpportunities shown
  = figure (Overview.CountOpportunities user_id None) (length mine) ∧
  Overview.totalApplications shown
  = figure Overview.CountApplications
      (length (Overview.bk_applications supabase)) ∧
  (Overview.bk_unavailable supabase (Overview.CountOpportunities user_id None)
   = false →
   (Overview.activeOpportunities shown + Overview.completedOpportunities shown
    <= Overview.totalOpportunities shown)%nat).
Proof.
  intros mine shown figure.
  assert (∀ A q (rows : list A),
    default 0 (Overview.count (Overview.answer_count supabase q rows))
    = figure q (length rows)) as Hfig.
  { intros A q rows. unfold Overview.answer_count, figure.
    by destruct (Overview.bk_unavailable supabase q). }
  assert (Overview.stats
            (Overview.fetchDashboardData supabase (Some user_id) st).1
          = {| Overview.activeOpportunities :=
                 figure (Overview.CountOpportunities user_id (Some "ativo"))
                   (length (filter (λ o, Overview.o_status o = "ativo") mine));
               Overview.totalOpportunities :=
                 figure (Overview.CountOpportunities user_id None) (length mine);
               Overview.completedOpportunities :=
                 figure (Overview.CountOpportunities user_id (Some "concluido"))
                   (length (filter (λ o, Overview.o_status o = "concluido") mine));
               Overview.totalApplications :=
                 figure Overview.CountApplications
                   (length (Overview.bk_applications supabase)) |}) as Hstats.
  { unfold Overview.fetchDashboardData. cbv zeta. fold mine.
    rewrite !Hfig. by destruct (data _) as [[| ? ?]|]. }
  unfold shown. rewrite Hstats. cbn.
  repeat (split; [done |]). intros Htotal. unfold figure. rewrite Htotal.
  pose proof (length_filter_disjoint
    (λ o, Overview.o_status o = "ativo")
    (λ o, Overview.o_status o = "concluido") mine) as Hdisj.
  pose proof (length_filter (λ o, Overview.o_status o = "ativo") mine).
  pose proof (length_filter (λ o, Overview.o_status o = "concluido") mine).
  assert (length (filter (λ o, Overview.o_status o = "ativo") mine)
          + length (filter (λ o, Overview.o_status o = "concluido") mine)
          <= length mine)%nat
    by (apply Hdisj; intros o H1 H2; rewrite H1 in H2; discriminate).
  repeat destruct (Overview.bk_unavailable _ _); lia.
Qed.

Lemma dashboard_stats_witness :
  (Overview.activeOpportunities
     (Overview.stats
        (Overview.fetchDashboardData OverviewFixtures.dashboard
           (Some "analyst") Overview.initial).1)
   + Overview.completedOpportunities
       (Overview.stats
          (Overview.fetchDashboardData OverviewFixtures.dashboard
             (Some "analyst") Overview.initial).1)
   <= Overview.totalOpportunities
        (Overview.stats
           (Overview.fetchDashboardData OverviewFixtures.dashboard
              (Some "analyst") Overview.initial).1))%nat.
Proof.
  apply (dashboard_stats OverviewFixtures.dashboard "analyst" Overview.initial).
  reflexivity.
Defined.

Lemma order_created_at_desc_nil l :
  Overview.order_created_at_desc l = [] ↔ l = [].
Proof.
  unfold Overview.order_created_at_desc. split; [| by intros ->].
  intros Hnil. apply Permutation_nil_r. rewrite <- Hnil.
  by rewrite merge_sort_Permutation.
Qed.

Lemma order_deadline_asc_nil l :
  Overview.order_deadline_asc l = [] ↔ l = [].
Proof.
  unfold Overview.order_deadline_asc. split; [| by intros ->].
  intros Hnil. apply Permutation_nil_r. rewrite <- Hnil.
  by rewrite merge_sort_Permutation.
Qed.

Lemma string_compare_trans_le s1 s2 s3 :
  String.compare s1 s2 ≠ Gt → String.compare s2 s3 ≠ Gt →
  String.compare s1 s3 ≠ Gt.
Proof.
  revert s2 s3. induction s1 as [| a s1 IH]; intros [| b s2] [| c s3];
    simpl; try done.
  unfold Ascii.compare.
  destruct (N.compare_spec (Ascii.N_of_ascii a) (Ascii.N_of_ascii b))
    as [Hab|Hab|Hab];
    destruct (N.compare_spec (Ascii.N_of_ascii b) (Ascii.N_of_ascii c))
      as [Hbc|Hbc|Hbc];
    try done.
  - rewrite Hab, Hbc, N.compare_refl. apply IH.
  - intros _ _. rewrite Hab. by rewrite (proj2 (N.compare_lt_iff _ _) Hbc).
  - intros _ _. rewrite <- Hbc. by rewrite (proj2 (N.compare_lt_iff _ _) Hab).
  - intros _ _.
    by rewrite (proj2 (N.compare_lt_iff _ _) (N.lt_trans _ _ _ Hab Hbc)).
Qed.

Lemma string_leb_trans s1 s2 s3 :
  String.leb s1 s2 = true → String.leb s2 s3 = true → String.leb s1 s3 = true.
Proof.
  unfold String.leb. pose proof (string_compare_trans_le s1 s2 s3) as H.
  destruct (String.compare s1 s2), (String.compare s2 s3),
    (String.compare s1 s3); try done; intros _ _; exfalso; by apply H.
Qed.

#[local] Instance newer_or_same_total : Total Overview.newer_or_same.
Proof. intros a b. unfold Overview.newer_or_same. lia. Qed.

#[local] Instance newer_or_same_trans : Transitive Overview.newer_or_same.
Proof. intros a b c. unfold Overview.newer_or_same. lia. Qed.

#[local] Instance due_no_later_total : Total Overview.due_no_later.
Proof.
  intros a b. unfold Overview.due_no_later.
  destruct (Overview.o_deadline a) as [x|], (Overview.o_deadline b) as [y|];
    try tauto.
  apply String.leb_total.
Qed.

#[local] Instance due_no_later_trans : Transitive Overview.due_no_later.
Proof.
  intros a b c. unfold Overview.due_no_later.
  destruct (Overview.o_deadline a), (Overview.o_deadline b),
    (Overview.o_deadline c); try tauto.
  apply string_leb_trans.
Qed.

Lemma StronglySorted_take {A} (R : relation A) n l :
  StronglySorted R l → StronglySorted R (take n l).
Proof.
  intros H. rewrite <- (take_drop n l) in H.
  by apply StronglySorted_app_1_l in H.
Qed.

Lemma StronglySorted_omap {A B} (R1 : relation A) (R2 : relation B)
  (f : A → option B) l :
  (∀ x y a b, x ∈ l → y ∈ l → R1 x y → f x = Some a → f y = Some b → R2 a b) →
  StronglySorted R1 l → StronglySorted R2 (omap f l).
Proof.
  intros Hf Hs. induction Hs as [| x l Hs IH Hall]; [constructor |].
  assert (StronglySorted R2 (omap f l)) as IH'.
  { apply IH. intros x' y' a b Hx Hy. apply Hf; by apply list_elem_of_further. }
  cbn [omap list_omap]. destruct (f x) as [a|] eqn:Hx; [| exact IH'].
  constructor; [exact IH' |]. apply Forall_forall. intros b Hb.
  apply list_elem_of_omap in Hb as (y & Hy & Hfy).
  apply (Hf x y); [apply list_elem_of_here | by apply list_elem_of_further
                  | | done | done].
  rewrite Forall_forall in Hall. by apply Hall.
Qed.

Lemma overview_answer_up {A} supabase q (rows : list A) :
  Overview.bk_unavailable supabase q = false →
  Overview.answer supabase q rows = {| data := Some rows; error := None |}.
Proof. intros H. unfold Overview.answer. by rewrite H. Qed.

Lemma overview_answer_down {A} supabase q (rows : list A) :
  Overview.bk_unavailable supabase q = true →
  Overview.answer supabase q rows
  = {| data := None; error := Some StoreUnavailable |}.
Proof. intros H. unfold Overview.answer. by rewrite H. Qed.

(** X13: bookkeeping and failures of the dashboard loader.  Without a user
    it changes nothing and asks nothing.  With one it always ends with
    [loading] false and leaves the upcoming projects alone; it issues the
    four counts and the recent-opportunity fetch, then one application fetch
    exactly when that fetch returned a row, so five or six queries whatever
    the tables hold.  When the recent fetch fails nothing is shown; when the
    application fetch fails the opportunities are shown with the
    [candidates_count] stored in their rows. *)
Theorem dashboard_loader_outcome supabase user_id st :
  let mine :=
    filter (λ o, Overview.o_created_by o = user_id)
      (Overview.bk_opportunities supabase) in
  let recent := take 5 (Overview.order_created_at_desc mine) in
  let run := Overview.fetchDashboardData supabase (Some user_id) st in
  Overview.fetchDashboardData supabase None st = (st, []) ∧
  Overview.loading run.1 = false ∧
  Overview.upcomingProjects run.1 = Overview.upcomingProjects st ∧
  Overview.loadingProjects run.1 = Overview.loadingProjects st ∧
  run.2
  = [Overview.CountOpportunities user_id (Some "ativo");
     Overview.CountOpportunities user_id (Some "concluido");
     Overview.CountOpportunities user_id None;
     Overview.CountApplications;
     Overview.SelectRecentOpportunities user_id]
    ++ (if Overview.bk_unavailable supabase
             (Overview.SelectRecentOpportunities user_id)
        then []
        else if decide (mine = []) then []
        else [Overview.SelectApplicationsOf (Overview.o_id <$> recent)]) ∧
  (Overview.bk_unavailable supabase
     (Overview.SelectRecentOpportunities user_id) = true →
   Overview.recentOpportunities run.1 = []) ∧
  (Overview.bk_unavailable supabase
     (Overview.SelectRecentOpportunities user_id) = false →
   Overview.bk_unavailable supabase
     (Overview.SelectApplicationsOf (Overview.o_id <$> recent)) = true →
   Overview.recentOpportunities run.1 = recent).
Proof.
  intros mine recent run. split; [done |].
  unfold run, Overview.fetchDashboardData. cbv zeta. fold mine. fold recent.
  destruct (Overview.bk_unavailable supabase
              (Overview.SelectRecentOpportunities user_id)) eqn:Hrecent.
  { rewrite !overview_answer_down by done. cbn. by repeat split. }
  rewrite !(overview_answer_up _ (Overview.SelectRecentOpportunities user_id))
    by done.
  cbn [data].
  assert (recent = [] ↔ mine = []) as Hnil.
  { unfold recent. rewrite <- (order_created_at_desc_nil mine).
    destruct (Overview.order_created_at_desc mine); split; done. }
  destruct recent as [| op rows] eqn:Htake.
  - rewrite decide_True by by apply Hnil.
    cbn. by repeat split.
  - rewrite decide_False by (intros Hm; by apply Hnil in Hm).
    cbn [fst snd Overview.loading Overview.upcomingProjects
           Overview.loadingProjects Overview.recentOpportunities
           Overview.setLoading Overview.setRecentOpportunities
           Overview.setStats].
    repeat split; try done.
    intros _ Hdown. by rewrite !overview_answer_down.
Qed.

Lemma dashboard_loader_outcome_witness :
  Overview.recentOpportunities
    (Overview.fetchDashboardData OverviewFixtures.opportunities_down
       (Some "analyst") Overview.initial).1 = [] ∧
  Overview.recentOpportunities
    (Overview.fetchDashboardData OverviewFixtures.applications_down
       (Some "analyst") Overview.initial).1
  = take 5
      (Overview.order_created_at_desc
         (filter (λ o, Overview.o_created_by o = "analyst")
            (Overview.bk_opportunities OverviewFixtures.applications_down))).
Proof.
  split.
  - apply (dashboard_loader_outcome OverviewFixtures.opportunities_down
             "analyst" Overview.initial). reflexivity.
  - apply (dashboard_loader_outcome OverviewFixtures.applications_down
             "analyst" Overview.initial); reflexivity.
Defined.

Lemma upcoming_project_Some applications o p :
  Overview.upcoming_project applications o = Some p →
  ∃ rows a,
    applications = Some rows ∧ a ∈ rows ∧
    Overview.a_opportunity_id a = Overview.o_id o ∧
    p = {| Overview.up_id := Overview.a_id a;
           Overview.up_title := Overview.or_else (Overview.o_title o) "Projeto";
           Overview.up_company :=
             Overview.or_else (Overview.o_company o) "Empresa";
           Overview.up_creator_name :=
             Overview.or_else
               (Overview.joined_creator (Overview.a_creator a)
                  ≫= Overview.c_name) "Creator";
           Overview.up_deadline := Overview.or_else (Overview.o_deadline o) "";
           Overview.up_status := "active" |}.
Proof.
  unfold Overview.upcoming_project. destruct applications as [rows|]; [| done].
  simpl. destruct (List.find _ rows) as [a|] eqn:Hfind; [| done].
  intros [= <-]. apply find_some in Hfind as [Hin Hid].
  exists rows, a. split; [done |]. split; [by apply list_elem_of_In |].
  split; [by apply bool_decide_eq_true in Hid | done].
Qed.

Lemma or_else_deadline d : Overview.or_else (Some d) "" = d.
Proof. by destruct d. Qed.

(** X14: when its two fetches answer, the upcoming-project loader shows at
    most three projects, earliest deadline first.  Each stands for an
    opportunity of the user whose deadline lies in the window and for an
    approved application to it: it carries the application's id, the status
    "active", and the title, company, creator name and deadline with the
    fallbacks "Projeto", "Empresa", "Creator" and the empty string for
    missing values. *)
Theorem upcoming_projects_sound supabase user_id today horizon st p :
  let shown :=
    Overview.upcomingProjects
      (Overview.fetchUpcomingProjects supabase (Some user_id) today horizon st).1
  in
  (∀ q, Overview.bk_unavailable supabase q = false) →
  (length shown <= 3)%nat ∧
  StronglySorted
    (λ p q, String.leb (Overview.up_deadline p) (Overview.up_deadline q) = true)
    shown ∧
  (p ∈ shown →
   ∃ o a,
     o ∈ Overview.bk_opportunities supabase ∧
     Overview.o_created_by o = user_id ∧
     Overview.due_between today horizon o ∧
     a ∈ Overview.bk_applications supabase ∧
     Overview.a_status a = "approved" ∧
     Overview.a_opportunity_id a = Overview.o_id o ∧
     p = {| Overview.up_id := Overview.a_id a;
            Overview.up_title :=
              Overview.or_else (Overview.o_title o) "Projeto";
            Overview.up_company :=
              Overview.or_else (Overview.o_company o) "Empresa";
            Overview.up_creator_name :=
              Overview.or_else
                (Overview.joined_creator (Overview.a_creator a)
                   ≫= Overview.c_name) "Creator";
            Overview.up_deadline :=
              Overview.or_else (Overview.o_deadline o) "";
            Overview.up_status := "active" |}).
Proof.
  intros shown Hup. unfold shown, Overview.fetchUpcomingProjects. cbv zeta.
  rewrite !overview_answer_up by done. cbn [error data].
  destruct (take 10 _) as [| o0 opps] eqn:Htake.
  { cbn. split; [lia |]. split; [constructor | by intros ?%elem_of_nil]. }
  rewrite !overview_answer_up by done.
  cbn [error data fst Overview.upcomingProjects Overview.setLoadingProjects
         Overview.setUpcomingProjects].
  assert (∀ o, o ∈ o0 :: opps →
               o ∈ Overview.bk_opportunities supabase ∧
               Overview.o_created_by o = user_id ∧
               Overview.due_between today horizon o) as Hrows.
  { intros o Ho. rewrite <- Htake in Ho. apply subseteq_take in Ho.
    unfold Overview.order_deadline_asc in Ho.
    rewrite merge_sort_Permutation in Ho.
    by apply list_elem_of_filter in Ho as [[Hmine Hdue] Ho]. }
  split; [| split].
  - rewrite length_take. lia.
  - apply StronglySorted_take.
    apply (StronglySorted_omap Overview.due_no_later).
    + intros x y a b Hx Hy Hxy
        (? & ? & _ & _ & _ & ->)%upcoming_project_Some
        (? & ? & _ & _ & _ & ->)%upcoming_project_Some.
      cbn [Overview.up_deadline].
      apply Hrows in Hx as (_ & _ & Hx). apply Hrows in Hy as (_ & _ & Hy).
      unfold Overview.due_between in Hx, Hy.
      unfold Overview.due_no_later in Hxy.
      destruct (Overview.o_deadline x), (Overview.o_deadline y); try done.
      by rewrite !or_else_deadline.
    + rewrite <- Htake. apply StronglySorted_take.
      apply StronglySorted_merge_sort; apply _.
  - intros Hp%subseteq_take.
    apply list_elem_of_omap in Hp as (o & Ho & Hp).
    apply upcoming_project_Some in Hp as (rows & a & [= <-] & Ha & Hid & ->).
    apply Hrows in Ho as (Ho & Hmine & Hdue).
    apply list_elem_of_filter in Ha as [[Happroved _] Ha].
    by exists o, a.
Qed.

Lemma upcoming_projects_sound_witness :
  (length
     (Overview.upcomingProjects
        (Overview.fetchUpcomingProjects OverviewFixtures.dashboard
           (Some "analyst") "2026-01-01" "2026-01-31" Overview.initial).1)
   <= 3)%nat ∧
  ∃ o a,
    o ∈ Overview.bk_opportunities OverviewFixtures.dashboard ∧
    Overview.o_created_by o = "analyst" ∧
    Overview.due_between "2026-01-01" "2026-01-31" o ∧
    a ∈ Overview.bk_applications OverviewFixtures.dashboard ∧
    Overview.a_status a = "approved" ∧
    Overview.a_opportunity_id a = Overview.o_id o ∧
    OverviewFixtures.shown_project
    = {| Overview.up_id := Overview.a_id a;
         Overview.up_title :=
           Overview.or_else (Overview.o_title o) "Projeto";
         Overview.up_company :=
           Overview.or_else (Overview.o_company o) "Empresa";
         Overview.up_creator_name :=
           Overview.or_else
             (Overview.joined_creator (Overview.a_creator a)
                ≫= Overview.c_name) "Creator";
         Overview.up_deadline := Overview.or_else (Overview.o_deadline o) "";
         Overview.up_status := "active" |}.
Proof.
  destruct (upcoming_projects_sound OverviewFixtures.dashboard "analyst"
              "2026-01-01" "2026-01-31" Overview.initial
              OverviewFixtures.shown_project) as (Hlen & _ & Hin).
  - reflexivity.
  - split; [exact Hlen |]. apply Hin. vm_compute. apply list_elem_of_here.
Defined.

(** X15: failures of the upcoming-project loader.  Without a user it changes
    nothing and asks nothing.  With one it always ends with
    [loadingProjects] false, issues at most two queries and leaves the
    dashboard figures alone.  When the opportunity fetch fails or returns no
    row the list is emptied after this single query; when the application
    fetch fails the list of the previous load is kept as it was. *)
Theorem upcoming_loader_outcome supabase user_id today horizon st :
  let run :=
    Overview.fetchUpcomingProjects supabase (Some user_id) today horizon st in
  let due :=
    take 10
      (Overview.order_deadline_asc
         (filter
            (λ o, Overview.o_created_by o = user_id ∧
                  Overview.due_between today horizon o)
            (Overview.bk_opportunities supabase))) in
  Overview.fetchUpcomingProjects supabase None today horizon st = (st, []) ∧
  Overview.loadingProjects run.1 = false ∧
  Overview.stats run.1 = Overview.stats st ∧
  Overview.recentOpportunities run.1 = Overview.recentOpportunities st ∧
  Overview.loading run.1 = Overview.loading st ∧
  (length run.2 <= 2)%nat ∧
  (Overview.bk_unavailable supabase
     (Overview.SelectUpcomingOpportunities user_id today horizon) = true ∨
   due = [] →
   Overview.upcomingProjects run.1 = [] ∧
   run.2 = [Overview.SelectUpcomingOpportunities user_id today horizon]) ∧
  (Overview.bk_unavailable supabase
     (Overview.SelectUpcomingOpportunities user_id today horizon) = false →
   due ≠ [] →
   Overview.bk_unavailable supabase
     (Overview.SelectApprovedApplicationsOf (Overview.o_id <$> due)) = true →
   Overview.upcomingProjects run.1 = Overview.upcomingProjects st).
Proof.
  intros run due. split; [done |].
  unfold run, Overview.fetchUpcomingProjects. cbv zeta. fold due.
  destruct (Overview.bk_unavailable supabase
              (Overview.SelectUpcomingOpportunities user_id today horizon))
    eqn:Hopps.
  { rewrite !overview_answer_down by done. cbn. repeat split; try done; lia. }
  rewrite !(overview_answer_up _
    (Overview.SelectUpcomingOpportunities user_id today horizon)) by done.
  cbn [error data]. destruct due as [| o0 opps] eqn:Hdue.
  { cbn. repeat split; try done; lia. }
  destruct (Overview.bk_unavailable supabase
              (Overview.SelectApprovedApplicationsOf
                 (Overview.o_id <$> o0 :: opps))) eqn:Happs.
  - rewrite !overview_answer_down by done. cbn.
    repeat split; try done; try lia;
      by match goal with H : _ ∨ _ |- _ => destruct H as [[=] | [=]] end.
  - rewrite !overview_answer_up by done. cbn.
    repeat split; try done; try lia;
      by match goal with H : _ ∨ _ |- _ => destruct H as [[=] | [=]] end.
Qed.

Lemma upcoming_loader_outcome_witness :
  (Overview.upcomingProjects
     (Overview.fetchUpcomingProjects OverviewFixtures.opportunities_down
        (Some "analyst") "2026-01-01" "2026-01-31" OverviewFixtures.loaded).1
   = [] ∧
   (Overview.fetchUpcomingProjects OverviewFixtures.opportunities_down
      (Some "analyst") "2026-01-01" "2026-01-31" OverviewFixtures.loaded).2
   = [Overview.SelectUpcomingOpportunities "analyst" "2026-01-01" "2026-01-31"])
  ∧
  Overview.upcomingProjects
    (Overview.fetchUpcomingProjects OverviewFixtures.applications_down
       (Some "analyst") "2026-01-01" "2026-01-31" OverviewFixtures.loaded).1
  = Overview.upcomingProjects OverviewFixtures.loaded.
Proof.
  split.
  - apply (upcoming_loader_outcome OverviewFixtures.opportunities_down
             "analyst" "2026-01-01" "2026-01-31" OverviewFixtures.loaded).
    left. reflexivity.
  - apply (upcoming_loader_outcome OverviewFixtures.applications_down
             "analyst" "2026-01-01" "2026-01-31" OverviewFixtures.loaded);
      [reflexivity | discriminate | reflexivity].
Defined.

Lemma ceil_div_spec a b :
  (0 < b)%Z →
  ((Overview.ceil_div a b - 1) * b < a <= Overview.ceil_div a b * b)%Z.
Proof.
  intros Hb. unfold Overview.ceil_div.
  pose proof (Z.div_mod (- a) b ltac:(lia)) as Hdm.
  pose proof (Z.mod_pos_bound (- a) b Hb) as Hmod.
  nia.
Qed.

Lemma ceil_div_unique a b n :
  (0 < b)%Z → ((n - 1) * b < a <= n * b)%Z → Overview.ceil_div a b = n.
Proof.
  intros Hb Hn. pose proof (ceil_div_spec a b Hb) as Hc. nia.
Qed.

(** X16: what [formatTimeAgo] prints, by the distance between the two
    instants (a future date reads like a past one).  The same instant gives
    "0 dias atrás"; up to one day "1 dia atrás"; up to seven days the number
    of started days; up to fourteen days "1 semana atrás"; from there to
    thirty days 3, 4 or 5 weeks, never 2; beyond thirty days a number of
    months that is at least 2. *)
Theorem formatTimeAgo_buckets now date :
  let d := Z.abs (now - date) in
  let day := Overview.day_ms in
  Overview.formatTimeAgo now date = Overview.formatTimeAgo date now ∧
  (d = 0%Z → Overview.formatTimeAgo now date = "0 dias atrás") ∧
  ((0 < d <= day)%Z → Overview.formatTimeAgo now date = "1 dia atrás") ∧
  ((day < d <= 7 * day)%Z →
   ∃ n, (2 <= n <= 7)%Z ∧ ((n - 1) * day < d <= n * day)%Z ∧
        Overview.formatTimeAgo now date = pretty n +:+ " dias atrás") ∧
  ((7 * day < d <= 14 * day)%Z →
   Overview.formatTimeAgo now date = "1 semana atrás") ∧
  ((14 * day < d <= 30 * day)%Z →
   Overview.formatTimeAgo now date
   ∈ ["3 semanas atrás"; "4 semanas atrás"; "5 semanas atrás"]) ∧
  ((30 * day < d)%Z →
   ∃ m, (2 <= m)%Z ∧
        Overview.formatTimeAgo now date = pretty m +:+ " meses atrás").
Proof.
  intros d day.
  assert (0 < day)%Z as Hday by (unfold day, Overview.day_ms; lia).
  pose proof (ceil_div_spec d day Hday) as Hdays.
  split.
  { unfold Overview.formatTimeAgo.
    by replace (Z.abs (date - now)) with (Z.abs (now - date)) by lia. }
  unfold Overview.formatTimeAgo. fold d day.
  set (diffDays := Overview.ceil_div d day) in *.
  split; [| split; [| split; [| split; [| split]]]].
  - intros Hd. assert (diffDays = 0%Z) as -> by nia. reflexivity.
  - intros Hd. assert (diffDays = 1%Z) as -> by nia. reflexivity.
  - intros Hd. exists diffDays.
    assert (2 <= diffDays <= 7)%Z as Hn by nia.
    split; [done |]. split; [done |].
    rewrite (proj2 (Z.eqb_neq _ _)) by lia.
    by rewrite (proj2 (Z.leb_le _ _)) by lia.
  - intros Hd. assert (8 <= diffDays <= 14)%Z as Hn by nia.
    rewrite (proj2 (Z.eqb_neq _ _)) by lia.
    rewrite (proj2 (Z.leb_gt _ _)) by lia.
    by rewrite (proj2 (Z.leb_le _ _)) by lia.
  - intros Hd. assert (15 <= diffDays <= 30)%Z as Hn by nia.
    rewrite (proj2 (Z.eqb_neq _ _)) by lia.
    rewrite !(proj2 (Z.leb_gt _ _)) by lia.
    rewrite (proj2 (Z.leb_le _ _)) by lia.
    assert (Overview.ceil_div diffDays 7 = 3 ∨ Overview.ceil_div diffDays 7 = 4
            ∨ Overview.ceil_div diffDays 7 = 5)%Z as [-> | [-> | ->]].
    { pose proof (ceil_div_spec diffDays 7 ltac:(lia)). lia. }
    + apply list_elem_of_here.
    + apply list_elem_of_further, list_elem_of_here.
    + do 2 apply list_elem_of_further. apply list_elem_of_here.
  - intros Hd. assert (31 <= diffDays)%Z as Hn by nia.
    rewrite (proj2 (Z.eqb_neq _ _)) by lia.
    rewrite !(proj2 (Z.leb_gt _ _)) by lia.
    exists (Overview.ceil_div diffDays 30). split; [| done].
    pose proof (ceil_div_spec diffDays 30 ltac:(lia)). lia.
Qed.

Lemma formatTimeAgo_buckets_witness :
  Overview.formatTimeAgo (15 * Overview.day_ms)%Z 0%Z
  ∈ ["3 semanas atrás"; "4 semanas atrás"; "5 semanas atrás"].
Proof.
  apply (formatTimeAgo_buckets (15 * Overview.day_ms)%Z 0%Z).
  vm_compute. split; [reflexivity | discriminate].
Defined.

Lemma dashboard_recent_shape supabase user_id st :
  ∃ f : Overview.Opportunity → Overview.Opportunity,
    (∀ o, Overview.o_id (f o) = Overview.o_id o ∧
          Overview.o_created_at (f o) = Overview.o_created_at o ∧
          Overview.o_created_by (f o) = Overview.o_created_by o) ∧
    Overview.recentOpportunities
      (Overview.fetchDashboardData supabase (Some user_id) st).1
    = f <$> (if Overview.bk_unavailable supabase
                  (Overview.SelectRecentOpportunities user_id)
             then []
             else take 5
                    (Overview.order_created_at_desc
                       (filter (λ o, Overview.o_created_by o = user_id)
                          (Overview.bk_opportunities supabase)))).
Proof.
  unfold Overview.fetchDashboardData. cbv zeta.
  destruct (Overview.bk_unavailable supabase
              (Overview.SelectRecentOpportunities user_id)) eqn:Hrecent.
  { exists id. rewrite !overview_answer_down by done. by cbn. }
  rewrite !(overview_answer_up _ (Overview.SelectRecentOpportunities user_id))
    by done.
  cbn [data].
  destruct (take 5 _) as [| op rows] eqn:Htake.
  { exists id. by cbn. }
  destruct (Overview.bk_unavailable supabase
              (Overview.SelectApplicationsOf (Overview.o_id <$> op :: rows)))
    eqn:Happs.
  - exists id. rewrite !overview_answer_down by done. cbn.
    split; [done |]. by rewrite list_fmap_id.
  - rewrite !overview_answer_up by done. cbn [data error fst].
    eexists. split; [| reflexivity]. by intros o.
Qed.

(** X17: the opportunities the dashboard shows are the newest of the actor.
    They all belong to the actor and come newest first; when the fetch
    answers they are five, or all of them when the actor has fewer, and any
    opportunity of the actor that is left out is no newer than each one
    shown. *)
Theorem recent_are_newest supabase user_id st o :
  let mine :=
    filter (λ o, Overview.o_created_by o = user_id)
      (Overview.bk_opportunities supabase) in
  let shown :=
    Overview.recentOpportunities
      (Overview.fetchDashboardData supabase (Some user_id) st).1 in
  StronglySorted Overview.newer_or_same shown ∧
  Forall (λ s, Overview.o_created_by s = user_id) shown ∧
  (Overview.bk_unavailable supabase (Overview.SelectRecentOpportunities user_id)
   = false →
   length shown = 5 `min` length mine ∧
   (o ∈ mine →
    Overview.o_id o ∈ Overview.o_id <$> shown ∨
    Forall (λ s, Overview.newer_or_same s o) shown)).
Proof.
  intros mine shown.
  destruct (dashboard_recent_shape supabase user_id st) as (f & Hf & Hshown).
  fold mine in Hshown. fold shown in Hshown.
  pose proof (StronglySorted_merge_sort Overview.newer_or_same mine) as Hsorted.
  fold Overview.order_created_at_desc in Hsorted.
  pose proof (merge_sort_Permutation Overview.newer_or_same mine) as Hperm.
  fold Overview.order_created_at_desc in Hperm.
  assert (∀ s, s ∈ Overview.order_created_at_desc mine →
               Overview.o_created_by s = user_id) as Hmine.
  { intros s Hs. rewrite Hperm in Hs.
    by apply list_elem_of_filter in Hs as [? _]. }
  split; [| split].
  - rewrite Hshown. destruct (Overview.bk_unavailable _ _); [constructor |].
    apply (StronglySorted_fmap _ Overview.newer_or_same Overview.newer_or_same).
    + intros x y. unfold Overview.newer_or_same.
      by rewrite (proj1 (proj2 (Hf x))), (proj1 (proj2 (Hf y))).
    + by apply StronglySorted_take.
  - rewrite Hshown. destruct (Overview.bk_unavailable _ _); [constructor |].
    apply Forall_fmap, Forall_forall. intros s Hs%subseteq_take. simpl.
    rewrite (proj2 (proj2 (Hf s))). by apply Hmine.
  - intros Hup. rewrite Hup in Hshown. split.
    + by rewrite Hshown, length_fmap, length_take, Hperm.
    + intros Ho. rewrite <- Hperm in Ho.
      rewrite <- (take_drop 5 (Overview.order_created_at_desc mine)) in Ho, Hsorted.
      apply elem_of_app in Ho as [Ho|Ho].
      * left. rewrite Hshown, <- list_fmap_compose.
        apply list_elem_of_fmap. exists o. split; [| done]. simpl.
        by rewrite (proj1 (Hf o)).
      * right. rewrite Hshown. apply Forall_fmap, Forall_forall.
        intros s Hs. simpl. unfold Overview.newer_or_same.
        rewrite (proj1 (proj2 (Hf s))).
        by apply (StronglySorted_app_1_elem_of _ _ _ _ _ Hsorted).
Qed.

Lemma recent_are_newest_witness :
  length
    (Overview.recentOpportunities
       (Overview.fetchDashboardData OverviewFixtures.dashboard
          (Some "analyst") Overview.initial).1)
  = 5 `min` length
              (filter (λ o, Overview.o_created_by o = "analyst")
                 (Overview.bk_opportunities OverviewFixtures.dashboard)) ∧
  (Overview.o_id (OverviewFixtures.campaign "o1" "analyst" "ativo"
                    (Some "2026-01-10") 9 100%Z)
   ∈ Overview.o_id
     <$> Overview.recentOpportunities
           (Overview.fetchDashboardData OverviewFixtures.dashboard
              (Some "analyst") Overview.initial).1 ∨
   Forall
     (λ s, Overview.newer_or_same s
             (OverviewFixtures.campaign "o1" "analyst" "ativo"
                (Some "2026-01-10") 9 100%Z))
     (Overview.recentOpportunities
        (Overview.fetchDashboardData OverviewFixtures.dashboard
           (Some "analyst") Overview.initial).1)).
Proof.
  destruct (recent_are_newest OverviewFixtures.dashboard "analyst"
              Overview.initial
              (OverviewFixtures.campaign "o1" "analyst" "ativo"
                 (Some "2026-01-10") 9 100%Z)) as (_ & _ & H).
  destruct (H eq_refl) as [Hlen Hin]. split; [exact Hlen |].
  apply Hin. vm_compute. apply list_elem_of_here.
Defined.


(** * The benchmarks *)

Lemma length_filter_mono {A} (P Q : A → Prop) `{!∀ x, Decision (P x)}
  `{!∀ x, Decision (Q x)} (l : list A) :
  (∀ x, x ∈ l → P x → Q x) →
  (length (filter P l) <= length (filter Q l))%nat.
Proof.
  induction l as [| x l IH]; intros Himp; [done |].
  rewrite !filter_cons.
  assert (length (filter P l) <= length (filter Q l))%nat as Hl
    by (apply IH; intros y Hy; apply Himp; by apply list_elem_of_further).
  destruct (decide (P x)) as [HP|], (decide (Q x)) as [|HQ]; simpl; try lia.
  destruct HQ. by apply Himp; [apply list_elem_of_here |].
Qed.

Lemma length_filter_all {A} (P : A → Prop) `{!∀ x, Decision (P x)}
  (l : list A) :
  length (filter P l) = length l ↔ Forall P l.
Proof.
  induction l as [| x l IH]; [by split; [constructor |] |].
  rewrite filter_cons, Forall_cons. pose proof (length_filter P l) as Hle.
  destruct (decide (P x)) as [HP|HP]; simpl.
  - rewrite <- IH. split; [intros [= ?]; by split | intros [_ ->]; done].
  - split; [lia | tauto].
Qed.

Lemma existsb_id_elem (ops : list Overview.Opportunity) k :
  existsb (λ op, bool_decide (Overview.o_id op = k)) ops = true
  ↔ k ∈ Overview.o_id <$> ops.
Proof.
  rewrite existsb_exists, list_elem_of_fmap. split.
  - intros (op & Hin%list_elem_of_In & Hid%bool_decide_eq_true).
    by exists op.
  - intros (op & -> & Hin). exists op.
    split; [by apply list_elem_of_In | by apply bool_decide_eq_true].
Qed.

(** The tally of the rows that refer to the listed opportunities, read at
    one of them. *)
Lemma count_candidates_of (P : Overview.Application → Prop)
  `{!∀ a, Decision (P a)} (apps : list Overview.Application) k :
  (∀ a, a ∈ apps → Overview.a_opportunity_id a = k → P a) →
  default 0
    (Overview.count_candidates (Overview.a_opportunity_id <$> filter P apps)
     !! k)
  = length (filter (λ a, Overview.a_opportunity_id a = k) apps).
Proof.
  intros HP.
  rewrite count_candidates_lookup, length_filter_fmap, length_filter_filter.
  apply length_filter_ext. intros a Ha. split; [by intros [? _] |].
  intros Hid. split; [done |]. by apply HP.
Qed.

Lemma with_candidates_count_ext c1 c2 op :
  default 0 (c1 !! Overview.o_id op) = default 0 (c2 !! Overview.o_id op) →
  Overview.with_candidates_count c1 op = Overview.with_candidates_count c2 op.
Proof. intros H. unfold Overview.with_candidates_count. by rewrite H. Qed.

(** X18: the two implementations of the overview benchmark return the same
    recent opportunities, whatever the tables hold: the first five rows,
    each with the number of application rows that refer to it. *)
Theorem overview_benchmark_agree opportunities applications :
  let current :=
    OverviewBenchmark.currentImplementation opportunities applications in
  let optimized :=
    OverviewBenchmark.optimizedImplementation opportunities applications in
  OverviewBenchmark.recentOpportunities current
  = OverviewBenchmark.recentOpportunities optimized ∧
  Forall2
    (λ shown op,
       Overview.o_id shown = Overview.o_id op ∧
       Overview.o_candidates_count shown
       = length (filter (λ a, Overview.a_opportunity_id a = Overview.o_id op)
                   applications))
    (OverviewBenchmark.recentOpportunities optimized) (take 5 opportunities).
Proof.
  intros current optimized.
  unfold current, optimized, OverviewBenchmark.currentImplementation,
    OverviewBenchmark.optimizedImplementation.
  cbn [OverviewBenchmark.recentOpportunities]. split.
  - rewrite <- fmap_take. apply Forall_fmap_ext, Forall_forall. intros op Hop.
    apply with_candidates_count_ext.
    rewrite !count_candidates_of; [done | |].
    + intros a _ Hid. rewrite Hid. by apply list_elem_of_fmap_2.
    + intros a _ Hid. apply existsb_id_elem. rewrite Hid.
      by apply list_elem_of_fmap_2, (subseteq_take 5).
  - apply Forall2_fmap_l, Forall_Forall2_diag, Forall_forall. intros op Hop.
    split; [done |].
    cbn [Overview.o_candidates_count Overview.with_candidates_count].
    apply count_candidates_of. intros a _ Hid. rewrite Hid.
    by apply list_elem_of_fmap_2.
Qed.

(** X19: the rows the overview benchmark reports as transferred.  With five
    opportunities or more the optimized implementation reports no more than
    the current one; with fewer it reports more, because it always counts
    five opportunity rows. *)
Theorem overview_benchmark_transfer opportunities applications :
  let current :=
    OverviewBenchmark.currentImplementation opportunities applications in
  let optimized :=
    OverviewBenchmark.optimizedImplementation opportunities applications in
  ((5 <= length opportunities)%nat →
   (OverviewBenchmark.dataTransfer optimized
    <= OverviewBenchmark.dataTransfer current)%nat) ∧
  ((length opportunities < 5)%nat →
   OverviewBenchmark.dataTransfer optimized
   = OverviewBenchmark.dataTransfer current + (5 - length opportunities)).
Proof.
  intros current optimized.
  unfold current, optimized, OverviewBenchmark.currentImplementation,
    OverviewBenchmark.optimizedImplementation.
  cbn [OverviewBenchmark.dataTransfer]. split.
  - intros Hlen.
    pose proof (length_filter_mono
      (λ app, Overview.a_opportunity_id app
              ∈ Overview.o_id <$> take 5 opportunities)
      (λ app, existsb
                (λ op, bool_decide
                         (Overview.o_id op = Overview.a_opportunity_id app))
                opportunities = true)
      applications) as Hmono.
    cut (length
           (filter
              (λ app, Overview.a_opportunity_id app
                      ∈ Overview.o_id <$> take 5 opportunities) applications)
         <= length
              (filter
                 (λ app, existsb
                           (λ op, bool_decide
                                    (Overview.o_id op
                                     = Overview.a_opportunity_id app))
                           opportunities = true) applications))%nat; [lia |].
    apply Hmono. intros a _ Ha. apply existsb_id_elem.
    apply list_elem_of_fmap in Ha as (op & -> & Hop%subseteq_take).
    by apply list_elem_of_fmap_2.
  - intros Hlen. rewrite take_ge by lia.
    rewrite (length_filter_ext
      (λ app, Overview.a_opportunity_id app ∈ Overview.o_id <$> opportunities)
      (λ app, existsb
                (λ op, bool_decide
                         (Overview.o_id op = Overview.a_opportunity_id app))
                opportunities = true)); [lia |].
    intros a _. by rewrite existsb_id_elem.
Qed.

Lemma overview_benchmark_transfer_witness :
  (OverviewBenchmark.dataTransfer
     (OverviewBenchmark.optimizedImplementation
        (replicate 6
           (OverviewFixtures.campaign "o1" "analyst" "ativo" None 0 0%Z))
        (Overview.bk_applications OverviewFixtures.dashboard))
   <= OverviewBenchmark.dataTransfer
        (OverviewBenchmark.currentImplementation
           (replicate 6
              (OverviewFixtures.campaign "o1" "analyst" "ativo" None 0 0%Z))
           (Overview.bk_applications OverviewFixtures.dashboard)))%nat ∧
  OverviewBenchmark.dataTransfer
    (OverviewBenchmark.optimizedImplementation
       (Overview.bk_opportunities OverviewFixtures.dashboard)
       (Overview.bk_applications OverviewFixtures.dashboard))
  = OverviewBenchmark.dataTransfer
      (OverviewBenchmark.currentImplementation
         (Overview.bk_opportunities OverviewFixtures.dashboard)
         (Overview.bk_applications OverviewFixtures.dashboard))
    + (5 - length (Overview.bk_opportunities OverviewFixtures.dashboard)).
Proof.
  split.
  - apply (overview_benchmark_transfer
             (replicate 6
                (OverviewFixtures.campaign "o1" "analyst" "ativo" None 0 0%Z))
             (Overview.bk_applications OverviewFixtures.dashboard)).
    vm_compute. lia.
  - apply (overview_benchmark_transfer
             (Overview.bk_opportunities OverviewFixtures.dashboard)
             (Overview.bk_applications OverviewFixtures.dashboard)).
    vm_compute. lia.
Defined.

(** X20: what the two measurements of the performance benchmark report,
    whatever order the engine's sort gives to rows of equal [created_at].
    They agree on the number of opportunities of the user and on the number
    of recent ones, five or all of them when there are fewer.  The legacy
    one counts the applications to the user's opportunities, the optimized
    one every application row, so it never reports fewer, and the same
    number exactly when every application refers to an opportunity of the
    user. *)
Theorem perf_results opportunities applications USER_ID sort :
  let mine :=
    filter (λ o, Overview.o_created_by o = USER_ID) opportunities in
  let legacy :=
    OverviewPerf.results
      (OverviewPerf.measureLegacyApproach opportunities applications USER_ID
         sort) in
  let optimized :=
    OverviewPerf.results
      (OverviewPerf.measureOptimizedApproach opportunities applications
         USER_ID sort) in
  (∀ compare l, sort compare l ≡ₚ l) →
  OverviewPerf.totalOpportunities legacy = length mine ∧
  OverviewPerf.totalOpportunities optimized = length mine ∧
  OverviewPerf.recentCount legacy = 5 `min` length mine ∧
  OverviewPerf.recentCount optimized = 5 `min` length mine ∧
  OverviewPerf.totalApplications legacy
  = length (filter (λ a, Overview.a_opportunity_id a ∈ Overview.o_id <$> mine)
              applications) ∧
  OverviewPerf.totalApplications optimized = length applications ∧
  (OverviewPerf.totalApplications legacy
   <= OverviewPerf.totalApplications optimized)%nat ∧
  (OverviewPerf.totalApplications legacy
   = OverviewPerf.totalApplications optimized
   ↔ Forall (λ a, Overview.a_opportunity_id a ∈ Overview.o_id <$> mine)
       applications).
Proof.
  intros mine legacy optimized Hsort.
  pose proof (Hsort OverviewPerf.created_at_descending mine) as Hperm.
  assert (OverviewPerf.totalApplications legacy
          = length (filter (λ a, Overview.a_opportunity_id a
                                 ∈ Overview.o_id <$> mine) applications))
    as Hlegacy.
  { unfold legacy, OverviewPerf.measureLegacyApproach, OverviewPerf.fetch.
    cbn. fold mine. apply length_filter_ext. intros a _. by rewrite Hperm. }
  assert (OverviewPerf.totalApplications optimized = length applications)
    as Hoptimized by done.
  split; [| split; [| split; [| split; [| split; [| split; [| split]]]]]].
  - unfold legacy, OverviewPerf.measureLegacyApproach, OverviewPerf.fetch.
    cbn. fold mine. by rewrite Hperm.
  - done.
  - unfold legacy, OverviewPerf.measureLegacyApproach, OverviewPerf.fetch.
    cbn [OverviewPerf.results OverviewPerf.recentCount]. fold mine.
    by rewrite length_take, length_fmap, Hperm.
  - unfold optimized, OverviewPerf.measureOptimizedApproach,
      OverviewPerf.fetch, OverviewPerf.count_exact.
    cbn [OverviewPerf.results OverviewPerf.recentCount]. fold mine.
    by rewrite length_take, Hperm.
  - exact Hlegacy.
  - exact Hoptimized.
  - rewrite Hlegacy, Hoptimized. apply length_filter.
  - rewrite Hlegacy, Hoptimized. apply length_filter_all.
Qed.

Lemma perf_results_witness :
  (OverviewPerf.totalApplications
     (OverviewPerf.results
        (OverviewPerf.measureLegacyApproach
           (Overview.bk_opportunities OverviewFixtures.dashboard)
           (Overview.bk_applications OverviewFixtures.dashboard) "analyst"
           OverviewPerf.merge_sort_by))
   <= OverviewPerf.totalApplications
        (OverviewPerf.results
           (OverviewPerf.measureOptimizedApproach
              (Overview.bk_opportunities OverviewFixtures.dashboard)
              (Overview.bk_applications OverviewFixtures.dashboard) "analyst"
              OverviewPerf.merge_sort_by)))%nat.
Proof.
  apply (perf_results
           (Overview.bk_opportunities OverviewFixtures.dashboard)
           (Overview.bk_applications OverviewFixtures.dashboard) "analyst"
           OverviewPerf.merge_sort_by).
  intros compare l. apply merge_sort_Permutation.
Defined.

(** X21: what the two measurements cost on the mock, whatever order the
    engine's sort gives to rows of equal [created_at].  The legacy one makes
    two calls and fetches every opportunity of the user and every
    application to them; the optimized one makes six calls and fetches the
    first five opportunities of the sorted rows, or all of them when there
    are fewer, and the applications to these, never more rows than the
    legacy one. *)
Theorem perf_metrics opportunities applications USER_ID sort :
  let mine :=
    filter (λ o, Overview.o_created_by o = USER_ID) opportunities in
  let recent := take 5 (sort OverviewPerf.created_at_descending mine) in
  let legacy :=
    OverviewPerf.metrics
      (OverviewPerf.measureLegacyApproach opportunities applications USER_ID
         sort) in
  let optimized :=
    OverviewPerf.metrics
      (OverviewPerf.measureOptimizedApproach opportunities applications
         USER_ID sort) in
  (∀ compare l, sort compare l ≡ₚ l) →
  OverviewPerf.networkCalls legacy = 2 ∧
  OverviewPerf.networkCalls optimized = 6 ∧
  OverviewPerf.rowsFetched legacy
  = length mine
    + length (filter (λ a, Overview.a_opportunity_id a ∈ Overview.o_id <$> mine)
                applications) ∧
  OverviewPerf.rowsFetched optimized
  = 5 `min` length mine
    + length (filter
                (λ a, Overview.a_opportunity_id a ∈ Overview.o_id <$> recent)
                applications) ∧
  (OverviewPerf.rowsFetched optimized <= OverviewPerf.rowsFetched legacy)%nat.
Proof.
  intros mine recent legacy optimized Hsort.
  pose proof (Hsort OverviewPerf.created_at_descending mine) as Hperm.
  assert (OverviewPerf.rowsFetched legacy
          = length mine
            + length (filter (λ a, Overview.a_opportunity_id a
                                   ∈ Overview.o_id <$> mine) applications))
    as Hlegacy.
  { unfold legacy, OverviewPerf.measureLegacyApproach, OverviewPerf.fetch.
    cbn. fold mine. rewrite Hperm. f_equal.
    apply length_filter_ext. intros a _. by rewrite Hperm. }
  assert (OverviewPerf.rowsFetched optimized
          = 5 `min` length mine
            + length (filter (λ a, Overview.a_opportunity_id a
                                   ∈ Overview.o_id <$> recent) applications))
    as Hoptimized.
  { unfold optimized, OverviewPerf.measureOptimizedApproach,
      OverviewPerf.fetch, OverviewPerf.count_exact.
    cbn [OverviewPerf.metrics OverviewPerf.rowsFetched]. fold mine. fold recent.
    unfold recent at 1. by rewrite length_take, Hperm. }
  split; [done |]. split; [done |]. split; [exact Hlegacy |].
  split; [exact Hoptimized |]. rewrite Hlegacy, Hoptimized.
  pose proof (length_filter_mono
    (λ a, Overview.a_opportunity_id a ∈ Overview.o_id <$> recent)
    (λ a, Overview.a_opportunity_id a ∈ Overview.o_id <$> mine)
    applications) as Hmono.
  cut (length (filter (λ a, Overview.a_opportunity_id a
                            ∈ Overview.o_id <$> recent) applications)
       <= length (filter (λ a, Overview.a_opportunity_id a
                               ∈ Overview.o_id <$> mine) applications))%nat;
    [lia |].
  apply Hmono. intros a _ Ha.
  apply list_elem_of_fmap in Ha as (op & -> & Hop%subseteq_take).
  rewrite Hperm in Hop. by apply list_elem_of_fmap_2.
Qed.

Lemma perf_metrics_witness :
  (OverviewPerf.rowsFetched
     (OverviewPerf.metrics
        (OverviewPerf.measureOptimizedApproach
           (Overview.bk_opportunities OverviewFixtures.dashboard)
           (Overview.bk_applications OverviewFixtures.dashboard) "analyst"
           OverviewPerf.merge_sort_by))
   <= OverviewPerf.rowsFetched
        (OverviewPerf.metrics
           (OverviewPerf.measureLegacyApproach
              (Overview.bk_opportunities OverviewFixtures.dashboard)
              (Overview.bk_applications OverviewFixtures.dashboard) "analyst"
              OverviewPerf.merge_sort_by)))%nat.
Proof.
  apply (perf_metrics
           (Overview.bk_opportunities OverviewFixtures.dashboard)
           (Overview.bk_applications OverviewFixtures.dashboard) "analyst"
           OverviewPerf.merge_sort_by).
  intros compare l. apply merge_sort_Permutation.
Defined.


(** ** The message benchmark *)

Lemma message_group_snoc l c :
  MessageBenchmark.group (l ++ [c])
  = MessageBenchmark.group_step (MessageBenchmark.group l) c.
Proof. unfold MessageBenchmark.group. by rewrite fold_left_app. Qed.

(** The grouping loop of the benchmark builds the id lists and the id set
    of the loop of [fetchCreatorChats], under the same keys. *)
Lemma message_group_sim l :
  JsMap.keys (MessageBenchmark.analystConversations (MessageBenchmark.group l))
  = allAnalystIds (group_conversations l) ∧
  MessageBenchmark.allConversationsByAnalyst (MessageBenchmark.group l)
  = allConversationsByAnalyst (group_conversations l) ∧
  MessageBenchmark.allAnalystIds (MessageBenchmark.group l)
  = allAnalystIds (group_conversations l) ∧
  Forall (λ kv, conv_analyst_id kv.2 = kv.1)
    (MessageBenchmark.analystConversations (MessageBenchmark.group l)).
Proof.
  induction l as [| c l (IHk & IHl & IHi & IHf)] using rev_ind.
  { repeat split; constructor. }
  destruct (group_keys l) as [Hka Hkl].
  rewrite message_group_snoc, group_conversations_snoc, group_step_ids.
  rewrite group_step_lists by congruence.
  unfold MessageBenchmark.group_step, JsMap.has.
  destruct (JsMap.get (conv_analyst_id c)
              (MessageBenchmark.analystConversations (MessageBenchmark.group l)))
    as [e|] eqn:Hget;
    cbn [negb MessageBenchmark.analystConversations
           MessageBenchmark.allConversationsByAnalyst
           MessageBenchmark.allAnalystIds].
  - assert (conv_analyst_id c ∈ allAnalystIds (group_conversations l)) as Hin.
    { rewrite <- IHk.
      destruct (decide (conv_analyst_id c ∈ JsMap.keys
        (MessageBenchmark.analystConversations (MessageBenchmark.group l))))
        as [|Hn]; [done |].
      apply jsmap_get_None in Hn. congruence. }
    rewrite jsset_add_present by done. rewrite IHl, IHi.
    rewrite jsset_add_present by done.
    destruct (JsMap.get (conv_analyst_id c)
                (allConversationsByAnalyst (group_conversations l)))
      as [ids|] eqn:Hids; [done |].
    apply jsmap_get_None in Hids. rewrite Hkl in Hids. done.
  - assert (JsMap.get (conv_analyst_id c)
              (allConversationsByAnalyst (group_conversations l)) = None)
      as Hids.
    { apply jsmap_get_None. rewrite Hkl, <- IHk. by apply jsmap_get_None. }
    rewrite jsmap_get_set_eq, jsmap_set_set, IHl, IHi, Hids.
    rewrite jsmap_keys_set, IHk. repeat split; try done.
    rewrite jsmap_set_fresh by done. apply Forall_app. split; [done |].
    by constructor.
Qed.

Lemma fold_left_counts {A} (f : nat → A → nat) (n : nat) (l : list A) q :
  (∀ q x, x ∈ l → f q x = q + n) →
  fold_left f l q = q + length l * n.
Proof.
  revert q. induction l as [| x l IH]; intros q Hf; simpl; [lia |].
  rewrite IH by (intros q' y Hy; apply Hf; by apply list_elem_of_further).
  rewrite Hf by apply list_elem_of_here. lia.
Qed.

(** The counterparts of the returned threads, each once. *)
Lemma counterparts_length l :
  length (allAnalystIds (group_conversations l))
  = length (remove_dups (conv_analyst_id <$> l)).
Proof.
  apply Permutation_length, NoDup_Permutation;
    [apply group_keys_NoDup | apply NoDup_remove_dups |].
  intros k. by rewrite group_ids_elem, elem_of_remove_dups.
Qed.

(** X22: the queries the two implementations of the message benchmark
    issue, for [G] counterparts among the conversations of the user and [A]
    approved applications of the user: the current one [1 + G * (4 + A)],
    the optimized one [2 + G], plus three when there is a conversation and
    one when there is an application.  So the optimized one issues no more
    queries than the current one exactly from two counterparts on, or with
    one counterpart and at least two applications. *)
Theorem message_benchmark_queries MOCK_DATA user_id :
  let G :=
    length
      (remove_dups
         (conv_analyst_id
          <$> filter (λ c, conv_creator_id c = user_id)
                (conversations MOCK_DATA))) in
  let A :=
    length
      (filter (MessageBenchmark.approved_of_user user_id)
         (opportunity_applications MOCK_DATA)) in
  let current := MessageBenchmark.runCurrentImplementation MOCK_DATA user_id in
  let optimized :=
    MessageBenchmark.runOptimizedImplementation MOCK_DATA user_id in
  current = 1 + G * (4 + A) ∧
  optimized
  = 2 + G + (if decide (G = 0) then 0 else 3) + (if decide (A = 0) then 0 else 1) ∧
  ((optimized <= current)%nat ↔ (2 <= G)%nat ∨ G = 1 ∧ (2 <= A)%nat).
Proof.
  intros G A current optimized.
  set (conversationData :=
         filter (λ c, conv_creator_id c = user_id) (conversations MOCK_DATA)).
  destruct (message_group_sim conversationData) as (Hk & Hl & Hi & Hf).
  assert (length (JsMap.values
            (MessageBenchmark.analystConversations
               (MessageBenchmark.group conversationData))) = G) as Hgroups.
  { unfold JsMap.values. rewrite length_map.
    rewrite <- (length_map fst). fold (JsMap.keys
      (MessageBenchmark.analystConversations
         (MessageBenchmark.group conversationData))).
    rewrite Hk. apply counterparts_length. }
  assert (current = 1 + G * (4 + A)) as Hcurrent.
  { unfold current, MessageBenchmark.runCurrentImplementation,
      MessageBenchmark.resolve. cbv zeta. cbn [snd]. fold conversationData.
    rewrite (fold_left_counts _ (4 + A)); [by rewrite Hgroups |].
    intros q conv _. cbn [snd].
    rewrite (fold_left_counts _ 1) by (intros; cbn [snd]; lia).
    fold A. lia. }
  assert (G = 0 ↔ conversationData = []) as Hnone.
  { unfold G. fold conversationData. rewrite <- counterparts_length.
    rewrite length_zero_iff_nil. apply group_ids_nil. }
  assert (optimized
          = 2 + G + (if decide (G = 0) then 0 else 3)
            + (if decide (A = 0) then 0 else 1)) as Hoptimized.
  { unfold optimized, MessageBenchmark.runOptimizedImplementation,
      MessageBenchmark.resolve. cbv zeta. cbn [snd]. fold conversationData.
    rewrite (fold_left_counts _ 1).
    - assert (length
                (concat
                   (JsMap.values
                      (allConversationsByAnalyst
                         (group_conversations conversationData))))
              = length conversationData) as Hall
        by (by rewrite group_all_thread_ids, length_fmap).
      assert (length (allAnalystIds (group_conversations conversationData))
              = G) as Hids by apply counterparts_length.
      rewrite Hgroups, Hi, Hl, length_fmap, Hall, Hids. fold A.
      assert (G = 0 ↔ length conversationData = 0) as Hzero
        by (by rewrite Hnone, length_zero_iff_nil).
      repeat case_bool_decide; destruct (decide (G = 0)), (decide (A = 0));
        lia.
    - intros q conv Hconv. rewrite Hl.
      apply list_elem_of_fmap in Hconv as ([k conv'] & -> & Hin).
      rewrite Forall_forall in Hf. specialize (Hf _ Hin). simpl in Hf.
      simpl. rewrite Hf, group_thread_ids.
      assert (k ∈ conv_analyst_id <$> conversationData) as Hk'.
      { rewrite <- group_ids_elem, <- Hk. unfold JsMap.keys.
        apply list_elem_of_fmap. by exists (k, conv'). }
      destruct (decide (threads_of k conversationData = [])) as [Hnil|Hne].
      { by apply threads_of_nil in Hnil. }
      simpl. unfold thread_ids_of. rewrite length_fmap.
      rewrite bool_decide_eq_true_2; [lia |].
      destruct (threads_of k conversationData); [done | simpl; lia]. }
  split; [exact Hcurrent |]. split; [exact Hoptimized |].
  rewrite Hcurrent, Hoptimized.
  destruct (decide (G = 0)), (decide (A = 0)); nia.
Qed.

Lemma message_benchmark_queries_witness :
  (MessageBenchmark.runOptimizedImplementation Fixtures.scenario "creator"
   <= MessageBenchmark.runCurrentImplementation Fixtures.scenario "creator")%nat.
Proof.
  apply (message_benchmark_queries Fixtures.scenario "creator").
  left. vm_compute. lia.
Defined.
